(** * Live voice assistant audio pipeline (component [LiveAnchor])

    A shallow embedding of the streaming audio bridge of the Shortz Studio
    front-end: the helpers [decode], [encode] and [decodeAudioData] of the
    AI service module, and the handlers of [LiveAnchor] ([stopAnchor],
    [startAnchor], [onopen], [onaudioprocess], [onmessage], [onclose],
    [onerror]).  A second part embeds the rest of the service module
    ([normalizeArticles], [fetchNewsFromAI] with its cache,
    [generateSmartImage] with its circuit breaker, [generateNewsAudio]) and
    the narration handler [handlePlayAudio] of the application.

    Conventions.
    - Bytes and 16-bit samples are integers ([Z]) with their wrap-around
      written out.
    - Sample values are exact rationals ([Q]).  Every float operation on
      samples is exact on the values it meets (scaling a 32-bit float by
      [2^15] in double precision, truncation, dividing a 16-bit integer by
      [2^15]), so the rational model agrees with the machine on all finite
      samples; [NaN] and the infinities are kept as separate constructors.
    - Clock readings, start times and the cursor are doubles, held as the
      rationals they denote.  Comparison and [Math.max] are exact on them;
      the sum [+=] of the cursor and the quotient [length / sampleRate] of a
      duration are rounded to the nearest double, ties to even
      ([Binary64.round64]).
    - Typed arrays are views over a byte buffer, in little-endian byte order
      (the byte order of the platforms the application runs on).
    - Code that can throw returns a [result]; handlers that mutate the
      component's refs are state transformers over [Anchor].
    - An asynchronous function is cut at its first [await] into the part
      that runs on the call and the part that runs on the answer; what the
      network, the clock and [Math.random] give is an argument.
    - Parsed JSON is the inductive type [json]; an object is the list of its
      fields. *)

From Stdlib Require Import ZArith QArith Qabs Qround Qminmax Qpower String Ascii.
From Stdlib Require Import List Lia Lqa SpecFloat.
From Stdlib Require Import DecimalString DecimalNat.
From stdpp Require Import base tactics option list strings gmap.
Import ListNotations.

Local Open Scope Z_scope.

(** ** Exceptions *)

Inductive exn : Type :=
| InvalidCharacterError
| RangeError
| TypeError
| NotSupportedError
| InvalidStateError.

Inductive result (A : Type) : Type :=
| Ok (a : A)
| Throw (e : exn).
Arguments Ok {A} a.
Arguments Throw {A} e.

Definition is_ok {A} (r : result A) : bool :=
  match r with Ok _ => true | Throw _ => false end.

(** Counted loop [for (let i = 0; i < n; i++) body]. *)
Definition for_loop {S : Type} (n : nat) (body : nat -> S -> S) (s : S) : S :=
  fold_left (fun acc i => body i acc) (seq 0 n) s.

(** ** Radix-64 text: the platform's [btoa] and [atob] *)

Module Base64.

Definition alphabet : list ascii :=
  list_ascii_of_string
    "ABCDEFGHIJKLMNOPQRSTUVWXYZabcdefghijklmnopqrstuvwxyz0123456789+/".

Definition pad : ascii := "="%char.

(** Character of a 6-bit value. *)
Definition b64char (i : Z) : ascii := nth (Z.to_nat i) alphabet pad.

Fixpoint index_of (c : ascii) (l : list ascii) (i : Z) : option Z :=
  match l with
  | [] => None
  | d :: l' => if Ascii.eqb c d then Some i else index_of c l' (i + 1)
  end.

(** 6-bit value of a character, [None] outside the alphabet. *)
Definition b64val (c : ascii) : option Z := index_of c alphabet 0.

(** The 6-bit groups of a byte sequence, most significant bits first; a
    final group of one or two bytes is completed with zero bits. *)
Fixpoint sextets (l : list Z) : list Z :=
  match l with
  | a :: b :: c :: rest =>
      a / 4 :: (a mod 4) * 16 + b / 16 :: (b mod 16) * 4 + c / 64 :: c mod 64
        :: sextets rest
  | [a; b] => [a / 4; (a mod 4) * 16 + b / 16; (b mod 16) * 4]
  | [a] => [a / 4; (a mod 4) * 16]
  | [] => []
  end.

Definition padding (n : nat) : list ascii :=
  repeat pad ((3 - n mod 3) mod 3)%nat.

Definition is_byte (b : Z) : Prop := 0 <= b < 256.

Definition is_byteb (b : Z) : bool := (0 <=? b) && (b <? 256).

Definition is_sextet (v : Z) : Prop := 0 <= v < 64.

(** [btoa]: the argument is a binary string, given by its code units.  A
    code unit above 255 raises [InvalidCharacterError]. *)
Definition btoa (binary : list Z) : result string :=
  if forallb is_byteb binary
  then Ok (string_of_list_ascii
             (map b64char (sextets binary) ++ padding (length binary)))
  else Throw InvalidCharacterError.

Definition is_ascii_whitespace (c : ascii) : bool :=
  match nat_of_ascii c with
  | 9%nat | 10%nat | 12%nat | 13%nat | 32%nat => true
  | _ => false
  end.

(** Removes one or two [=] that end the text. *)
Fixpoint strip_padding (d : list ascii) : list ascii :=
  match d with
  | [] => []
  | c :: r =>
      match r with
      | [] => if Ascii.eqb c pad then [] else [c]
      | [c'] => if Ascii.eqb c pad && Ascii.eqb c' pad then []
                else c :: strip_padding r
      | _ => c :: strip_padding r
      end
  end.

Fixpoint values (d : list ascii) : option (list Z) :=
  match d with
  | [] => Some []
  | c :: r =>
      match b64val c, values r with
      | Some v, Some vs => Some (v :: vs)
      | _, _ => None
      end
  end.

(** Bytes of a sequence of 6-bit values: 24 bits give three bytes; 18 bits
    left over give two (the last 2 bits are dropped), 12 bits give one (the
    last 4 bits are dropped). *)
Fixpoint octets (v : list Z) : list Z :=
  match v with
  | a :: b :: c :: d :: rest =>
      let n := a * 262144 + b * 4096 + c * 64 + d in
      n / 65536 :: (n / 256) mod 256 :: n mod 256 :: octets rest
  | [a; b; c] => let n := (a * 4096 + b * 64 + c) / 4 in [n / 256; n mod 256]
  | [a; b] => [(a * 64 + b) / 16]
  | _ => []
  end.

(** [atob]: forgiving radix-64 decoding.  White space is removed, one or two
    trailing [=] are removed when the length is a multiple of 4, and the rest
    must be alphabet characters whose count is not 1 modulo 4; otherwise
    [InvalidCharacterError] is raised. *)
Definition atob (data : string) : result (list Z) :=
  let d := List.filter (fun c => negb (is_ascii_whitespace c))
                       (list_ascii_of_string data) in
  let d := if (length d mod 4 =? 0)%nat then strip_padding d else d in
  if (length d mod 4 =? 1)%nat then Throw InvalidCharacterError
  else match values d with
       | Some v => Ok (octets v)
       | None => Throw InvalidCharacterError
       end.

End Base64.

(** ** Numbers *)

Inductive number : Type :=
| Num (q : Q)
| NaN
| PosInfinity
| NegInfinity.

(** [x * 32768]. *)
Definition times_32768 (x : number) : number :=
  match x with
  | Num q => Num (q * 32768)
  | other => other
  end.

(** Integer part, rounding toward zero. *)
Definition truncate (q : Q) : Z := Z.quot (Qnum q) (Zpos (Qden q)).

(** Reduction modulo [2^16] into the signed range. *)
Definition wrap16 (n : Z) : Z :=
  let m := n mod 65536 in
  if m >=? 32768 then m - 65536 else m.

(** The conversion applied by a store into an [Int16Array]: not-a-number
    and the infinities become 0, a finite value is truncated and wrapped. *)
Definition ToInt16 (x : number) : Z :=
  match x with
  | Num q => wrap16 (truncate q)
  | _ => 0
  end.

(** [v / 32768.0], where [v] is an element read from an [Int16Array]
    ([None] stands for [undefined], read outside the array). *)
Definition div_32768 (v : option Z) : number :=
  match v with
  | Some k => Num (inject_Z k / 32768)
  | None => NaN
  end.

(** ** Typed arrays *)

(** An array buffer is its sequence of bytes. *)
Abbreviation ArrayBuffer := (list Z) (only parsing).

Record Uint8Array : Type := {
  u8_buffer : ArrayBuffer;
  u8_byteOffset : nat;
  u8_byteLength : nat
}.

(** [new Uint8Array(len)]: a fresh zeroed buffer. *)
Definition Uint8Array_new (len : nat) : Uint8Array :=
  {| u8_buffer := repeat 0 len; u8_byteOffset := 0; u8_byteLength := len |}.

(** [new Uint8Array(buffer)]: a view of the whole buffer. *)
Definition Uint8Array_of_buffer (b : ArrayBuffer) : Uint8Array :=
  {| u8_buffer := b; u8_byteOffset := 0; u8_byteLength := length b |}.

Definition u8_get (a : Uint8Array) (i : nat) : option Z :=
  if (i <? u8_byteLength a)%nat then u8_buffer a !! (u8_byteOffset a + i)%nat
  else None.

Definition u8_set (a : Uint8Array) (i : nat) (v : Z) : Uint8Array :=
  if (i <? u8_byteLength a)%nat
  then {| u8_buffer := <[(u8_byteOffset a + i)%nat := v mod 256]> (u8_buffer a);
          u8_byteOffset := u8_byteOffset a;
          u8_byteLength := u8_byteLength a |}
  else a.

(** An [Int16Array] that views a whole buffer, two bytes per element, low
    byte first. *)
Record Int16Array : Type := { i16_buffer : ArrayBuffer }.

Definition i16_length (a : Int16Array) : nat := (length (i16_buffer a) / 2)%nat.

(** [new Int16Array(n)]. *)
Definition Int16Array_new (n : nat) : Int16Array :=
  {| i16_buffer := repeat 0 (2 * n) |}.

(** [new Int16Array(buffer)]: a buffer of odd byte length raises
    [RangeError]. *)
Definition Int16Array_of_buffer (b : ArrayBuffer) : result Int16Array :=
  if (length b mod 2 =? 0)%nat then Ok {| i16_buffer := b |}
  else Throw RangeError.

Definition i16_get (a : Int16Array) (i : nat) : option Z :=
  match i16_buffer a !! (2 * i)%nat, i16_buffer a !! (2 * i + 1)%nat with
  | Some lo, Some hi => Some (wrap16 (lo + 256 * hi))
  | _, _ => None
  end.

(** [a[i] = x]; a store outside the array is ignored. *)
Definition i16_set (a : Int16Array) (i : nat) (x : number) : Int16Array :=
  let v := ToInt16 x in
  if (i <? i16_length a)%nat
  then {| i16_buffer :=
            <[(2 * i)%nat := v mod 256]>
              (<[(2 * i + 1)%nat := (v / 256) mod 256]> (i16_buffer a)) |}
  else a.

(** ** The helpers [decode] and [encode] *)

(** [String.fromCharCode(bytes[i])]: the code unit of the element, 0 for
    [undefined]. *)
Definition fromCharCode (v : option Z) : Z :=
  match v with
  | Some b => b mod 65536
  | None => 0
  end.

Definition decode (base64 : string) : result Uint8Array :=
  match Base64.atob base64 with
  | Throw e => Throw e
  | Ok binaryString =>
      let len := length binaryString in
      Ok (for_loop len
            (fun i bytes => u8_set bytes i (nth i binaryString 0))
            (Uint8Array_new len))
  end.

Definition encode (bytes : Uint8Array) : result string :=
  let len := u8_byteLength bytes in
  let binary :=
    for_loop len (fun i binary => binary ++ [fromCharCode (u8_get bytes i)]) [] in
  Base64.btoa binary.

(** ** Double precision *)

Module Binary64.

(** [2^e]. *)
Definition pow2 (e : Z) : Q := (2 ^ e)%Q.

(** The binade of a positive rational [y]: the [L] with
    [2^L <= y < 2^(L+1)]. *)
Definition binade (y : Q) : Z :=
  let L := Z.log2 (Qnum y) - Z.log2 (Zpos (Qden y)) in
  if Qle_bool (pow2 L) y then L else L - 1.

(** The exponent of the last place of the doubles next to a positive [y]:
    52 below the binade for the normal numbers, -1074 for the subnormal
    ones. *)
Definition exponent (y : Q) : Z := Z.max (binade y) (-1022) - 52.

(** The integer nearest to [q]; of two that are equally near, the even
    one. *)
Definition rne (q : Q) : Z :=
  let f := Qfloor q in
  match (q - inject_Z f ?= 1 # 2)%Q with
  | Lt => f
  | Gt => f + 1
  | Eq => if Z.even f then f else f + 1
  end.

(** The double nearest to [y], ties to even: the rounding of every
    arithmetic operation on doubles.  From [2^1024 - 2^970] on, where the
    machine has [Infinity], the value is [2^1024] or more, which is no
    double; the cursor does not get there ([decoded_cursor_finite]). *)
Definition round64 (y : Q) : Q :=
  if Qeq_bool y 0 then 0%Q
  else let e := exponent (Qabs y) in
       (inject_Z (rne (y / pow2 e)) * pow2 e)%Q.

(** The rationals that are doubles: rounding leaves them as they are, and
    they are below [2^1024] in size. *)
Definition is_double (y : Q) : bool :=
  Qeq_bool (round64 y) y && negb (Qle_bool (pow2 1024) (Qabs y)).

(** [x + y] on doubles: the double nearest to the exact sum.  A rational
    that is no double, which the code never holds, is added in the same
    way, but the result is kept on the side of [x] that [y] points to, where
    the sum of two doubles always is. *)
Definition fadd (x y : Q) : Q :=
  let r := round64 (x + y) in
  if is_double x then r
  else if Qle_bool 0 y then Qmax x r else Qmin x r.

(** The largest double. *)
Definition MAX_VALUE : Q := inject_Z (2 ^ 1024 - 2 ^ 971).

(** The standard library's specification of IEEE 754 arithmetic, at the
    precision and exponent range of binary64, for comparison: the double
    that it gives for a quotient of two integers, and the rational that a
    finite value denotes (0 for the others). *)
Definition SFquotient (n d : Z) : spec_float :=
  SFdiv 53 1024 (binary_normalize 53 1024 n 0 false)
    (binary_normalize 53 1024 d 0 false).

Definition SFvalue (f : spec_float) : Q :=
  match f with
  | S754_finite s m e =>
      ((if s then -1 else 1) * inject_Z (Zpos m) * pow2 e)%Q
  | _ => 0%Q
  end.

End Binary64.

(** ** Audio buffers and [decodeAudioData] *)

Record AudioBuffer : Type := {
  sampleRate : Q;
  numberOfChannels : nat;
  frames : nat;
  channelsData : list (list number)
}.

(** [buffer.duration], in seconds: the length over the sample rate, a
    quotient of two doubles. *)
Definition duration (b : AudioBuffer) : Q :=
  Binary64.round64 (inject_Z (Z.of_nat (frames b)) / sampleRate b).

(** What an audio context supports beyond the guaranteed minimum of 32
    channels and of sample rates from 8000 to 96000 Hz. *)
Record AudioContext : Type := {
  extraChannels : nat;
  extraRate : Q -> bool
}.

Definition supportsRate (ctx : AudioContext) (rate : Q) : bool :=
  (Qle_bool 8000 rate && Qle_bool rate 96000) || extraRate ctx rate.

Definition maxChannels (ctx : AudioContext) : nat := (32 + extraChannels ctx)%nat.

(** [ctx.createBuffer(numberOfChannels, length, sampleRate)].  The length is
    converted to an unsigned 32-bit integer; a zero channel count or length,
    or an unsupported channel count or rate, raises [NotSupportedError].
    The buffer starts zero-filled. *)
Definition createBuffer (ctx : AudioContext) (numChannels : nat)
    (numberOfFrames : Q) (rate : Q) : result AudioBuffer :=
  let len := Z.to_nat (truncate numberOfFrames mod 4294967296) in
  if (1 <=? numChannels)%nat && (numChannels <=? maxChannels ctx)%nat
     && (1 <=? len)%nat && supportsRate ctx rate
  then Ok {| sampleRate := rate;
             numberOfChannels := numChannels;
             frames := len;
             channelsData := repeat (repeat (Num 0) len) numChannels |}
  else Throw NotSupportedError.

(** [buffer.getChannelData(channel)] is the live array of the channel: the
    stores of the loop below land in the buffer. *)
Definition getChannelData (b : AudioBuffer) (channel : nat) : list number :=
  nth channel (channelsData b) [].

Definition setChannelData (b : AudioBuffer) (channel : nat)
    (data : list number) : AudioBuffer :=
  {| sampleRate := sampleRate b;
     numberOfChannels := numberOfChannels b;
     frames := frames b;
     channelsData := <[channel := data]> (channelsData b) |}.

(** Number of iterations of [for (let i = 0; i < frameCount; i++)]. *)
Definition iterations (frameCount : Q) : nat := Z.to_nat (Qceiling frameCount).

Definition decodeAudioData (data : Uint8Array) (ctx : AudioContext)
    (sampleRate : Q) (numChannels : nat) : result AudioBuffer :=
  match Int16Array_of_buffer (u8_buffer data) with
  | Throw e => Throw e
  | Ok dataInt16 =>
      match numChannels with
      | O =>
          (* the frame count is not finite; zero channels are refused *)
          Throw NotSupportedError
      | S _ =>
          let frameCount : Q :=
            (inject_Z (Z.of_nat (i16_length dataInt16))
             / inject_Z (Z.of_nat numChannels))%Q in
          match createBuffer ctx numChannels frameCount sampleRate with
          | Throw e => Throw e
          | Ok buffer =>
              Ok (for_loop numChannels
                    (fun channel buffer =>
                       let channelData := getChannelData buffer channel in
                       setChannelData buffer channel
                         (for_loop (iterations frameCount)
                            (fun i channelData =>
                               <[i := div_32768
                                        (i16_get dataInt16
                                           (i * numChannels + channel))]>
                                 channelData)
                            channelData))
                    buffer)
          end
      end
  end.

(** ** The capture callback [onaudioprocess] *)

Record RealtimeInput : Type := { media_data : string; media_mimeType : string }.

Definition onaudioprocess (input : list number) : result RealtimeInput :=
  let int16 :=
    for_loop (length input)
      (fun i int16 => i16_set int16 i (times_32768 (nth i input NaN)))
      (Int16Array_new (length input)) in
  match encode (Uint8Array_of_buffer (i16_buffer int16)) with
  | Throw e => Throw e
  | Ok text => Ok {| media_data := text;
                     media_mimeType := "audio/pcm;rate=16000" |}
  end.

Definition std_ctx : AudioContext :=
  {| extraChannels := 0; extraRate := fun _ => false |}.

(** ** Samples as bytes, frames of a buffer *)

(** The two bytes of a 16-bit sample, low byte first. *)
Definition le16 (v : Z) : list Z := [v mod 256; (v / 256) mod 256].

Definition is_int16 (v : Z) : Prop := -32768 <= v < 32768.

(** Frames held by the buffer that [createBuffer] allocates for [n] samples
    in [c] channels. *)
Definition frameCapacity (n c : nat) : nat :=
  Z.to_nat (Z.of_nat (n / c) mod 4294967296).

(** Samples of channel [c] of [d], de-interleaved and normalised. *)
Definition decodedChannel (d : Int16Array) (numChannels len c : nat)
    : list number :=
  map (fun i => div_32768 (i16_get d (i * numChannels + c))) (seq 0 len).

(** ** The component [LiveAnchor] *)

(** State of a media stream track. *)
Inductive readyState : Type := live | ended.

(** A media stream is the list of its tracks. *)
Abbreviation MediaStream := (list readyState) (only parsing).

(** An [AudioBufferSourceNode]: its buffer, the time given to [start] (if it
    was called) and whether [stop] was called. *)
Record SourceNode : Type := {
  node_buffer : AudioBuffer;
  node_started : option Q;
  node_stopped : bool
}.

(** The component's state: the two React state variables, the four refs,
    and the source nodes created so far.  A node is named by its position in
    [nodes]; [sourcesRef] is the set of nodes in insertion order. *)
Record Anchor : Type := {
  isActive : bool;
  isConnecting : bool;
  audioContextRef : option AudioContext;
  nextStartTimeRef : Q;
  sourcesRef : list nat;
  streamRef : option MediaStream;
  nodes : list SourceNode
}.

Definition initialAnchor : Anchor :=
  {| isActive := false; isConnecting := false; audioContextRef := None;
     nextStartTimeRef := 0; sourcesRef := []; streamRef := None; nodes := [] |}.

Definition setIsActive (v : bool) (a : Anchor) : Anchor :=
  {| isActive := v; isConnecting := isConnecting a;
     audioContextRef := audioContextRef a;
     nextStartTimeRef := nextStartTimeRef a; sourcesRef := sourcesRef a;
     streamRef := streamRef a; nodes := nodes a |}.

Definition setIsConnecting (v : bool) (a : Anchor) : Anchor :=
  {| isActive := isActive a; isConnecting := v;
     audioContextRef := audioContextRef a;
     nextStartTimeRef := nextStartTimeRef a; sourcesRef := sourcesRef a;
     streamRef := streamRef a; nodes := nodes a |}.

Definition setAudioContext (v : option AudioContext) (a : Anchor) : Anchor :=
  {| isActive := isActive a; isConnecting := isConnecting a;
     audioContextRef := v;
     nextStartTimeRef := nextStartTimeRef a; sourcesRef := sourcesRef a;
     streamRef := streamRef a; nodes := nodes a |}.

Definition setNextStartTime (v : Q) (a : Anchor) : Anchor :=
  {| isActive := isActive a; isConnecting := isConnecting a;
     audioContextRef := audioContextRef a;
     nextStartTimeRef := v; sourcesRef := sourcesRef a;
     streamRef := streamRef a; nodes := nodes a |}.

Definition setSources (v : list nat) (a : Anchor) : Anchor :=
  {| isActive := isActive a; isConnecting := isConnecting a;
     audioContextRef := audioContextRef a;
     nextStartTimeRef := nextStartTimeRef a; sourcesRef := v;
     streamRef := streamRef a; nodes := nodes a |}.

Definition setStream (v : option MediaStream) (a : Anchor) : Anchor :=
  {| isActive := isActive a; isConnecting := isConnecting a;
     audioContextRef := audioContextRef a;
     nextStartTimeRef := nextStartTimeRef a; sourcesRef := sourcesRef a;
     streamRef := v; nodes := nodes a |}.

Definition setNodes (v : list SourceNode) (a : Anchor) : Anchor :=
  {| isActive := isActive a; isConnecting := isConnecting a;
     audioContextRef := audioContextRef a;
     nextStartTimeRef := nextStartTimeRef a; sourcesRef := sourcesRef a;
     streamRef := streamRef a; nodes := v |}.

(** *** Handlers: state transformers that can throw *)

Definition M (A : Type) : Type := Anchor -> result A * Anchor.

Definition ret {A : Type} (x : A) : M A := fun a => (Ok x, a).

Definition throw {A : Type} (e : exn) : M A := fun a => (Throw e, a).

Definition bind {A B : Type} (m : M A) (k : A -> M B) : M B :=
  fun a => match m a with
           | (Ok x, a') => k x a'
           | (Throw e, a') => (Throw e, a')
           end.

Definition lift {A : Type} (r : result A) : M A := fun a => (r, a).

Definition gets {A : Type} (f : Anchor -> A) : M A := fun a => (Ok (f a), a).

Definition modify (f : Anchor -> Anchor) : M unit := fun a => (Ok tt, f a).

Declare Scope anchor_scope.
Delimit Scope anchor_scope with anchor.
Notation "'let*' x ':=' m 'in' k" := (bind m (fun x => k))
  (at level 10, x name, m at level 100, k at level 200) : anchor_scope.
Notation "m >> k" := (bind m (fun _ => k))
  (at level 61, left associativity) : anchor_scope.
Local Open Scope anchor_scope.

(** [collection.forEach(f)], in insertion order. *)
Fixpoint forEach {A : Type} (l : list A) (f : A -> M unit) : M unit :=
  match l with
  | [] => ret tt
  | x :: l' => f x >> forEach l' f
  end.

(** [s.stop()]: allowed only after [start]; raises [InvalidStateError]
    otherwise. *)
Definition stopNode (n : SourceNode) : result SourceNode :=
  match node_started n with
  | Some _ => Ok {| node_buffer := node_buffer n;
                    node_started := node_started n;
                    node_stopped := true |}
  | None => Throw InvalidStateError
  end.

(** [s.stop()] on the node named [s] (the names in the set always denote
    nodes of [nodes]). *)
Definition stopSource (s : nat) : M unit :=
  let* ns := gets nodes in
  match ns !! s with
  | Some n =>
      let* n' := lift (stopNode n) in
      modify (setNodes (<[s := n']> ns))
  | None => throw TypeError
  end.

(** [sourcesRef.current.forEach(s => s.stop()); sourcesRef.current.clear()],
    as [stopAnchor] and the message handler both have it. *)
Definition stopAllSources : M unit :=
  (let* sources := gets sourcesRef in forEach sources stopSource) >>
  modify (setSources []).

(** [stopAnchor]. *)
Definition stopAnchor : M unit :=
  modify (setIsActive false) >>
  (* streamRef.current?.getTracks().forEach(t => t.stop()) *)
  modify (fun a => setStream (option_map (map (fun _ => ended)) (streamRef a)) a) >>
  stopAllSources.

(** [startAnchor].  [platformCtx] is the context that [new AudioContext]
    gives when the ref is still empty; [media] is the outcome of
    [getUserMedia]: the stream, or the exception of a refused capture, which
    the [catch] block handles. *)
Definition startAnchor (platformCtx : AudioContext)
    (media : result MediaStream) : M unit :=
  modify (setIsConnecting true) >>
  (let* ctx := gets audioContextRef in
   match ctx with
   | None => modify (setAudioContext (Some platformCtx))
   | Some _ => ret tt
   end) >>
  match media with
  | Ok stream => modify (setStream (Some stream))
  | Throw _ => modify (setIsConnecting false)
  end.

(** [onopen]. *)
Definition onopen : M unit :=
  modify (setIsConnecting false) >>
  modify (setIsActive true).

Definition onclose : M unit := stopAnchor.

Definition onerror : M unit := stopAnchor.

(** *** Inbound messages *)

Record Blob : Type := { data : option string }.
Record Part : Type := { inlineData : option Blob }.
Record Content : Type := { parts : option (list Part) }.
Record ServerContent : Type := {
  modelTurn : option Content;
  interrupted : option bool
}.
Record LiveServerMessage : Type := { serverContent : option ServerContent }.

(** [msg.serverContent?.modelTurn?.parts[0]?.inlineData?.data]: indexing
    [parts] when it is [undefined] raises [TypeError]. *)
Definition inlineAudio (msg : LiveServerMessage) : result (option string) :=
  match serverContent msg with
  | None => Ok None
  | Some sc =>
      match modelTurn sc with
      | None => Ok None
      | Some turn =>
          match parts turn with
          | None => Throw TypeError
          | Some ps =>
              match ps with
              | [] => Ok None
              | p :: _ =>
                  match inlineData p with
                  | None => Ok None
                  | Some blob => Ok (data blob)
                  end
              end
          end
      end
  end.

(** [msg.serverContent?.interrupted], as a condition. *)
Definition isInterrupted (msg : LiveServerMessage) : bool :=
  match serverContent msg with
  | Some sc => match interrupted sc with Some b => b | None => false end
  | None => false
  end.

(** A string as a condition: the empty string is false. *)
Definition truthy (s : option string) : option string :=
  match s with
  | Some EmptyString => None
  | other => other
  end.

(** Lines 58 to 65 of the message handler: a source node is created for
    the buffer, started at the later of the cursor and the clock, the cursor
    is advanced by the buffer's duration, a sum of two doubles, and the node
    joins the set.  [start] raises [RangeError] on a negative time.  The
    result is the node's start time. *)
Definition schedule (currentTime : Q) (buffer : AudioBuffer) : M Q :=
  let* source := gets (fun a => length (nodes a)) in
  modify (fun a =>
            setNodes (nodes a ++ [{| node_buffer := buffer;
                                     node_started := None;
                                     node_stopped := false |}]) a) >>
  modify (fun a =>
            setNextStartTime (Qmax (nextStartTimeRef a) currentTime) a) >>
  let* when := gets nextStartTimeRef in
  (if Qle_bool 0 when
   then modify (fun a =>
                  setNodes (<[source := {| node_buffer := buffer;
                                           node_started := Some when;
                                           node_stopped := false |}]>
                              (nodes a)) a)
   else throw RangeError) >>
  modify (fun a =>
            setNextStartTime
              (Binary64.fadd (nextStartTimeRef a) (duration buffer)) a) >>
  modify (fun a =>
            setSources (if bool_decide (source ∈ sourcesRef a)
                        then sourcesRef a
                        else sourcesRef a ++ [source]) a) >>
  ret when.

(** First half of [onmessage] (lines 55 to 66): inline audio, when there is
    some, is decoded and scheduled.  [currentTime] is the reading of the
    output clock when the handler runs. *)
Definition playInlineAudio (currentTime : Q) (msg : LiveServerMessage)
    : M unit :=
  let* base64 := lift (inlineAudio msg) in
  match truthy base64 with
  | Some base64 =>
      let* bytes := lift (decode base64) in
      let* ctx := gets audioContextRef in
      match ctx with
      | Some ctx =>
          let* buffer := lift (decodeAudioData bytes ctx 24000 1) in
          schedule currentTime buffer >> ret tt
      | None => throw TypeError
      end
  | None => ret tt
  end.

(** [onmessage]: the audio of the message is played, then an interruption
    stops and forgets every source and resets the cursor. *)
Definition onmessage (currentTime : Q) (msg : LiveServerMessage) : M unit :=
  playInlineAudio currentTime msg >>
  if isInterrupted msg
  then stopAllSources >> modify (setNextStartTime 0)
  else ret tt.

(** [source.onended]: the node leaves the set. *)
Definition onended (source : nat) : M unit :=
  modify (fun a =>
            setSources (List.filter (fun s => negb (s =? source)%nat)
                                    (sourcesRef a)) a).

(** *** The session, event by event *)

Inductive event : Type :=
| Click (platformCtx : AudioContext) (media : result MediaStream)
| Opened
| Message (currentTime : Q) (msg : LiveServerMessage)
| Closed
| Failed
| Ended (source : nat).

(** The button runs [stopAnchor] when the assistant is active and
    [startAnchor] otherwise; it is disabled while connecting. *)
Definition onClick (platformCtx : AudioContext)
    (media : result MediaStream) : M unit :=
  let* connecting := gets isConnecting in
  if connecting then ret tt
  else
    let* active := gets isActive in
    if active then stopAnchor else startAnchor platformCtx media.

Definition handle (e : event) : M unit :=
  match e with
  | Click platformCtx media => onClick platformCtx media
  | Opened => onopen
  | Message currentTime msg => onmessage currentTime msg
  | Closed => onclose
  | Failed => onerror
  | Ended source => onended source
  end.

(** An exception that escapes a handler is reported and the event loop goes
    on with the state the handler left. *)
Definition run (events : list event) (a : Anchor) : Anchor :=
  fold_left (fun a e => snd (handle e a)) events a.

Inductive SessionState : Type := IDLE | CONNECTING | ACTIVE.

Definition sessionState (a : Anchor) : SessionState :=
  if isConnecting a then CONNECTING
  else if isActive a then ACTIVE
  else IDLE.

(** * Notions used in the statements *)

(** ** Codec *)

(** The 16-bit sample stored for a float sample. *)
Definition pcm (x : number) : Z := ToInt16 (times_32768 x).

(** A captured buffer sent through [onaudioprocess], [decode] and
    [decodeAudioData] with one channel at 24 kHz, as the message handler
    does with inbound audio. *)
Definition roundTrip (ctx : AudioContext) (input : list number)
    : result AudioBuffer :=
  match onaudioprocess input with
  | Throw e => Throw e
  | Ok payload =>
      match decode (media_data payload) with
      | Throw e => Throw e
      | Ok bytes => decodeAudioData bytes ctx 24000 1
      end
  end.

Definition normalised (v : Z) : Q := inject_Z v / 32768.

(** A decoded sample reproduces the original within one quantisation step. *)
Definition within_quantum (q o : Q) : Prop := (Qabs (q - o) <= 1 # 32768)%Q.

Definition fourSamples : list Q := [1 # 2; -1; 32767 # 32768; 1 # 3]%Q.

Definition threeBytes : Uint8Array := Uint8Array_of_buffer [0; 64; 0].

Definition threeSamples : Uint8Array :=
  Uint8Array_of_buffer [0; 64; 0; 224; 0; 128].

(** A view of bytes 2 and 3 of an eight-byte buffer. *)
Definition partialView : Uint8Array :=
  {| u8_buffer := [0; 64; 0; 224; 0; 128; 255; 127];
     u8_byteOffset := 2; u8_byteLength := 2 |}.

(** ** The playback scheduler *)

(** Buffers scheduled one after the other, each with the reading of the
    output clock at its arrival; the result lists the start times. *)
Fixpoint scheduleAll (arrivals : list (Q * AudioBuffer)) : M (list Q) :=
  match arrivals with
  | [] => ret []
  | (currentTime, buffer) :: rest =>
      let* when := schedule currentTime buffer in
      let* whens := scheduleAll rest in
      ret (when :: whens)
  end.




(** State left by [schedule]. *)
Definition scheduled (currentTime : Q) (buffer : AudioBuffer) (a : Anchor)
    : Anchor :=
  let when := Qmax (nextStartTimeRef a) currentTime in
  let source := length (nodes a) in
  {| isActive := isActive a; isConnecting := isConnecting a;
     audioContextRef := audioContextRef a;
     nextStartTimeRef := Binary64.fadd when (duration buffer);
     sourcesRef := if bool_decide (source ∈ sourcesRef a) then sourcesRef a
                   else sourcesRef a ++ [source];
     streamRef := streamRef a;
     nodes := nodes a ++ [{| node_buffer := buffer;
                             node_started := Some when;
                             node_stopped := false |}] |}.


(** [n] frames of silence at 24 kHz. *)
Definition silence (n : Z) : AudioBuffer :=
  {| sampleRate := 24000; numberOfChannels := 1; frames := Z.to_nat n;
     channelsData := [repeat (Num 0) (Z.to_nat n)] |}.


(** Three buffers of 0.1 s, 0.2 s and 0.1 s that arrive at clock 0. *)
Definition tenths : list (Q * AudioBuffer) :=
  [(0%Q, silence 2400); (0%Q, silence 4800); (0%Q, silence 2400)].

Definition cursorPassed : Anchor := setNextStartTime (1 # 2) initialAnchor.

(** ** Stopping the sources *)

(** The node after [stop]. *)
Definition markStopped (n : SourceNode) : SourceNode :=
  {| node_buffer := node_buffer n; node_started := node_started n;
     node_stopped := true |}.

(** The nodes after [stop] was called on those named in [l]. *)
Definition stopAll (l : list nat) (ns : list SourceNode) : list SourceNode :=
  imap (fun i n => if bool_decide (i ∈ l) then markStopped n else n) ns.

(** Node [s] exists and was started. *)
Definition startedIn (ns : list SourceNode) (s : nat) : Prop :=
  exists n t, ns !! s = Some n /\ node_started n = Some t.

(** Every source of the set was started. *)
Definition sourcesStarted (a : Anchor) : Prop :=
  List.Forall (startedIn (nodes a)) (sourcesRef a).

(** State left by [stopAnchor]. *)
Definition tornDown (a : Anchor) : Anchor :=
  {| isActive := false; isConnecting := isConnecting a;
     audioContextRef := audioContextRef a;
     nextStartTimeRef := nextStartTimeRef a;
     sourcesRef := [];
     streamRef := option_map (map (fun _ => ended)) (streamRef a);
     nodes := stopAll (sourcesRef a) (nodes a) |}.

(** A message with one part of inline audio. *)
Definition audioMessage (base64 : string) (stop : bool) : LiveServerMessage :=
  {| serverContent :=
       Some {| modelTurn :=
                 Some {| parts :=
                           Some [{| inlineData :=
                                      Some {| data := Some base64 |} |}] |};
               interrupted := Some stop |} |}.

(** An active session with one scheduled buffer of three frames. *)
Definition playing : Anchor :=
  run [Click std_ctx (Ok [live]); Opened;
       Message 0 (audioMessage "AEAA4ACA" false)] initialAnchor.

(** States that the component can be in: the initial one and those that
    follow a reachable one by an event. *)
Inductive reachable : Anchor -> Prop :=
| reachable_initial : reachable initialAnchor
| reachable_step (a : Anchor) (e : event) :
    reachable a -> reachable (snd (handle e a)).

(** A session whose capture was granted and whose connection is still being
    set up. *)
Definition connecting : Anchor :=
  run [Click std_ctx (Ok [live])] initialAnchor.

(** * The rest of the service and the callers of its audio *)

(** ** Views and their bytes *)

(** The bytes that a view shows. *)
Definition u8_bytes (a : Uint8Array) : list Z :=
  take (u8_byteLength a) (drop (u8_byteOffset a) (u8_buffer a)).

(** The view lies inside its buffer, which holds bytes. *)
Definition u8_wf (a : Uint8Array) : Prop :=
  (u8_byteOffset a + u8_byteLength a <= length (u8_buffer a))%nat
  /\ List.Forall Base64.is_byte (u8_buffer a).

(** A view of bytes 2 to 4 of a six-byte buffer. *)
Definition middleView : Uint8Array :=
  {| u8_buffer := [10; 20; 77; 97; 110; 60];
     u8_byteOffset := 2; u8_byteLength := 3 |}.

(** ** Inputs for [decodeAudioData] *)

(** Six bytes, three 16-bit samples. *)
Definition sixBytes : Uint8Array := Uint8Array_of_buffer [0; 64; 0; 224; 0; 128].

(** Eight bytes, four 16-bit samples. *)
Definition eightBytes : Uint8Array :=
  Uint8Array_of_buffer [0; 64; 0; 224; 0; 128; 255; 127].

(** ** Notions for the message handler *)

(** The session flags, the capture stream and the output context agree. *)
Definition sameSession (a a' : Anchor) : Prop :=
  isActive a' = isActive a /\ isConnecting a' = isConnecting a
  /\ streamRef a' = streamRef a /\ audioContextRef a' = audioContextRef a.

(** Start times of buffers scheduled one after the other, each at the later
    of the cursor and the clock reading of its arrival. *)
Fixpoint startTimes (cursor : Q) (arrivals : list (Q * AudioBuffer))
    : list Q :=
  match arrivals with
  | [] => []
  | (currentTime, buffer) :: rest =>
      Qmax cursor currentTime
        :: startTimes
             (Binary64.fadd (Qmax cursor currentTime) (duration buffer)) rest
  end.

(** ** Notions for the scheduler *)

(** Clock readings 0.1, 0.2 and 5, as doubles: the second buffer arrives
    early, the third late. *)
Definition raggedArrivals : list (Q * AudioBuffer) :=
  [(Binary64.round64 (1 # 10), silence 16800);
   (Binary64.round64 (2 # 10), silence 2400); (5%Q, silence 1200)].

(** ** Notions for the session *)

(** Another context, with more channels. *)
Definition wide_ctx : AudioContext :=
  {| extraChannels := 32; extraRate := fun _ => false |}.

(** ** Narration: [generateNewsAudio] and [handlePlayAudio] *)

(** The part of a model response that the code reads. *)
Record Candidate : Type := { content : option Content }.
Record GenerateContentResponse : Type := {
  candidates : option (list Candidate)
}.

(** [response.candidates?.[0]?.content?.parts?.[0]?.inlineData?.data]: every
    step is optional, nothing is raised. *)
Definition responseAudio (response : GenerateContentResponse) : option string :=
  match candidates response with
  | Some (candidate :: _) =>
      match content candidate with
      | Some c =>
          match parts c with
          | Some (p :: _) =>
              match inlineData p with
              | Some blob => data blob
              | None => None
              end
          | _ => None
          end
      | None => None
      end
  | _ => None
  end.

(** [generateNewsAudio]: [outcome] is what the request to the model gives, a
    response or an exception; the audio of the response, or the empty text
    when there is none, is decoded. *)
Definition generateNewsAudio (outcome : result GenerateContentResponse)
    : result Uint8Array :=
  match outcome with
  | Throw e => Throw e
  | Ok response =>
      let base64Audio :=
        match truthy (responseAudio response) with
        | Some s => s
        | None => EmptyString
        end in
      decode base64Audio
  end.

(** The narration state of the application: the article marked as playing,
    the two refs, and the source nodes created so far. *)
Record Player : Type := {
  audioPlaying : option string;
  playerContextRef : option AudioContext;
  audioSourceRef : option nat;
  playerNodes : list SourceNode
}.

Definition initialPlayer : Player :=
  {| audioPlaying := None; playerContextRef := None; audioSourceRef := None;
     playerNodes := [] |}.

Definition setAudioPlaying (v : option string) (p : Player) : Player :=
  {| audioPlaying := v; playerContextRef := playerContextRef p;
     audioSourceRef := audioSourceRef p; playerNodes := playerNodes p |}.

(** [audioPlaying === article.id]. *)
Definition isPlaying (articleId : string) (p : Player) : bool :=
  match audioPlaying p with
  | Some id => String.eqb id articleId
  | None => false
  end.

(** [handlePlayAudio] up to its first [await].  A click on the article that
    is marked as playing stops the current source and clears the mark (an
    exception of [stop] is not caught); any other click marks the article
    and asks for its audio: the result says whether a request is now under
    way. *)
Definition handlePlayAudio (articleId : string) (p : Player)
    : result (bool * Player) :=
  if isPlaying articleId p then
    match audioSourceRef p with
    | None => Ok (false, setAudioPlaying None p)
    | Some s =>
        match playerNodes p !! s with
        | None => Throw TypeError
        | Some n =>
            match stopNode n with
            | Throw e => Throw e
            | Ok n' =>
                Ok (false,
                    setAudioPlaying None
                      {| audioPlaying := audioPlaying p;
                         playerContextRef := playerContextRef p;
                         audioSourceRef := audioSourceRef p;
                         playerNodes := <[s := n']> (playerNodes p) |})
            end
        end
    end
  else Ok (true, setAudioPlaying (Some articleId) p).

(** [handlePlayAudio] from the answer of [generateNewsAudio] on: the context
    is created if the ref is empty, the bytes are decoded, a source is
    created for the buffer, kept in the ref and started at 0.  Any exception
    ends in the [catch] block, which clears the mark. *)
Definition handlePlayAudio_resume (platformCtx : AudioContext)
    (audio : result Uint8Array) (p : Player) : Player :=
  match audio with
  | Throw _ => setAudioPlaying None p
  | Ok bytes =>
      let ctx := match playerContextRef p with
                 | Some c => c
                 | None => platformCtx
                 end in
      let p1 := {| audioPlaying := audioPlaying p;
                   playerContextRef := Some ctx;
                   audioSourceRef := audioSourceRef p;
                   playerNodes := playerNodes p |} in
      match decodeAudioData bytes ctx 24000 1 with
      | Throw _ => setAudioPlaying None p1
      | Ok buffer =>
          {| audioPlaying := audioPlaying p1;
             playerContextRef := playerContextRef p1;
             audioSourceRef := Some (length (playerNodes p1));
             playerNodes :=
               playerNodes p1 ++ [{| node_buffer := buffer;
                                     node_started := Some 0%Q;
                                     node_stopped := false |}] |}
      end
  end.

(** [source.onended]: the mark is cleared. *)
Definition playerEnded (p : Player) : Player := setAudioPlaying None p.

Inductive playerEvent : Type :=
| PlayClick (articleId : string)
| PlayAudio (platformCtx : AudioContext)
            (outcome : result GenerateContentResponse)
| PlayEnded.

Definition playerStep (e : playerEvent) (p : Player) : Player :=
  match e with
  | PlayClick articleId =>
      match handlePlayAudio articleId p with
      | Ok (_, p') => p'
      | Throw _ => p
      end
  | PlayAudio platformCtx outcome =>
      handlePlayAudio_resume platformCtx (generateNewsAudio outcome) p
  | PlayEnded => playerEnded p
  end.

Inductive playerReachable : Player -> Prop :=
| playerReachable_initial : playerReachable initialPlayer
| playerReachable_step (p : Player) (e : playerEvent) :
    playerReachable p -> playerReachable (playerStep e p).

(** A response that carries audio. *)
Definition audioResponse (base64 : string) : GenerateContentResponse :=
  {| candidates :=
       Some [{| content :=
                  Some {| parts :=
                            Some [{| inlineData :=
                                       Some {| data := Some base64 |} |}] |}
             |}] |}.

(** Article [a] is playing. *)
Definition narrating : Player :=
  playerStep (PlayAudio std_ctx (Ok (audioResponse "AEAA4ACA")))
    (playerStep (PlayClick "a") initialPlayer).

(** The source of the ref, if any, was started. *)
Definition playerSourceStarted (p : Player) : Prop :=
  forall s, audioSourceRef p = Some s -> startedIn (playerNodes p) s.

(** ** The image circuit breaker of [generateSmartImage] *)

(** [s.includes(needle)]. *)
Definition includes (needle s : string) : bool :=
  match String.index 0 needle s with
  | Some _ => true
  | None => false
  end.

(** The two module variables of the breaker, and the timers that
    [window.setTimeout] has pending: identifier and due time in
    milliseconds. *)
Record Breaker : Type := {
  isImageQuotaExhausted : bool;
  quotaResetTimeout : option nat;
  pendingTimers : list (nat * Z);
  nextTimer : nat
}.

Definition initialBreaker : Breaker :=
  {| isImageQuotaExhausted := false; quotaResetTimeout := None;
     pendingTimers := []; nextTimer := 1 |}.

(** [window.clearTimeout(id)]. *)
Definition clearTimeout (id : nat) (timers : list (nat * Z)) : list (nat * Z) :=
  List.filter (fun t => negb (fst t =? id)%nat) timers.

(** What the request to the model gives: a response, or an exception with
    its message, if it has one. *)
Inductive imageOutcome : Type :=
| ImageResponse (response : GenerateContentResponse)
| ImageError (message : option string).

(** First part with inline data among
    [response.candidates?.[0]?.content?.parts || []]. *)
Fixpoint firstInlineData (ps : list Part) : option Blob :=
  match ps with
  | [] => None
  | p :: ps' =>
      match inlineData p with
      | Some blob => Some blob
      | None => firstInlineData ps'
      end
  end.

Definition responseParts (response : GenerateContentResponse) : list Part :=
  match candidates response with
  | Some (candidate :: _) =>
      match content candidate with
      | Some c => match parts c with Some ps => ps | None => [] end
      | None => []
      end
  | _ => []
  end.

(** [e?.message?.includes('429') || e?.message?.includes('RESOURCE_EXHAUSTED')]. *)
Definition isQuotaError (message : option string) : bool :=
  match message with
  | Some m => includes "429" m || includes "RESOURCE_EXHAUSTED" m
  | None => false
  end.

(** [generateSmartImage] up to its [await]: with the breaker open it
    returns [null] at once and no request is made. *)
Definition generateSmartImage_begin (b : Breaker) : bool :=
  negb (isImageQuotaExhausted b).

(** [generateSmartImage] from the answer of the model on, at time [now]:
    the data URL of the first inline image, or [null]; a quota error opens
    the breaker, cancels the timer of the ref and sets a new one for 120
    seconds later. *)
Definition generateSmartImage_resume (now : Z) (outcome : imageOutcome)
    (b : Breaker) : option string * Breaker :=
  match outcome with
  | ImageResponse response =>
      match firstInlineData (responseParts response) with
      | Some blob =>
          (Some ("data:image/png;base64,"
                 ++ match data blob with
                    | Some d => d
                    | None => "undefined"
                    end)%string, b)
      | None => (None, b)
      end
  | ImageError message =>
      if isQuotaError message
      then
        let timers := match quotaResetTimeout b with
                      | Some id => clearTimeout id (pendingTimers b)
                      | None => pendingTimers b
                      end in
        (None,
         {| isImageQuotaExhausted := true;
            quotaResetTimeout := Some (nextTimer b);
            pendingTimers := timers ++ [(nextTimer b, now + 120000)];
            nextTimer := S (nextTimer b) |})
      else (None, b)
  end.

(** The timer callback [() => { isImageQuotaExhausted = false; }], run when
    timer [id] is pending and due. *)
Definition timerFires (id : nat) (now : Z) (b : Breaker) : Breaker :=
  if existsb (fun t => (fst t =? id)%nat && (snd t <=? now)) (pendingTimers b)
  then {| isImageQuotaExhausted := false;
          quotaResetTimeout := quotaResetTimeout b;
          pendingTimers := clearTimeout id (pendingTimers b);
          nextTimer := nextTimer b |}
  else b.

Inductive breakerEvent : Type :=
| ImageAnswered (now : Z) (outcome : imageOutcome)
| TimerFired (id : nat) (now : Z).

Definition breakerStep (e : breakerEvent) (b : Breaker) : Breaker :=
  match e with
  | ImageAnswered now outcome => snd (generateSmartImage_resume now outcome b)
  | TimerFired id now => timerFires id now b
  end.

Inductive breakerReachable : Breaker -> Prop :=
| breakerReachable_initial : breakerReachable initialBreaker
| breakerReachable_step (b : Breaker) (e : breakerEvent) :
    breakerReachable b -> breakerReachable (breakerStep e b).

(** The breaker is closed, or the timer of the ref is pending; no other
    timer is pending, and timer identifiers are fresh. *)
Definition breakerInv (b : Breaker) : Prop :=
  (1 <= nextTimer b)%nat
  /\ (forall id, quotaResetTimeout b = Some id -> (id < nextTimer b)%nat)
  /\ (forall t, List.In t (pendingTimers b) ->
        quotaResetTimeout b = Some (fst t))
  /\ (length (pendingTimers b) <= 1)%nat
  /\ (isImageQuotaExhausted b = true ->
      exists id due, quotaResetTimeout b = Some id
                     /\ pendingTimers b = [(id, due)]).

(** Two requests in flight both hit the quota, at times 1000 and 5000. *)
Definition trippedTwice : Breaker :=
  breakerStep (ImageAnswered 5000 (ImageError (Some "got 429 Too Many Requests"%string)))
    (breakerStep
       (ImageAnswered 1000 (ImageError (Some "RESOURCE_EXHAUSTED"%string)))
       initialBreaker).

(** ** Parsed JSON and [normalizeArticles] *)

(** A value that [JSON.parse] returns.  An object is the list of its
    properties, each key once. *)
#[warnings="-register-all"]
Inductive json : Type :=
| JNull
| JBool (b : bool)
| JNum (q : Q)
| JStr (s : string)
| JArr (items : list json)
| JObj (fields : list (string * json)).

Fixpoint assoc (k : string) (fields : list (string * json)) : option json :=
  match fields with
  | [] => None
  | (k', v) :: rest => if String.eqb k k' then Some v else assoc k rest
  end.

(** [a?.k]: the property of an object, [undefined] ([None]) for [null], for
    a value that is not an object and for a missing key. *)
Definition getProp (a : json) (k : string) : option json :=
  match a with
  | JObj fields => assoc k fields
  | _ => None
  end.

(** A value as a condition. *)
Definition truthyJ (v : json) : bool :=
  match v with
  | JNull => false
  | JBool b => b
  | JNum q => negb (Qeq_bool q 0)
  | JStr s => negb (String.eqb s EmptyString)
  | JArr _ => true
  | JObj _ => true
  end.

(** [x || d]. *)
Definition orElse (x : option json) (d : json) : json :=
  match x with
  | Some v => if truthyJ v then v else d
  | None => d
  end.

(** What the environment supplies to [normalizeArticles]: the numbers that
    [Math.random()] returns, call after call; the text of a number in base
    36; the text of [new Date().toISOString()] for the article at a given
    position; and the text that a template literal gives for a value. *)
Record Env : Type := {
  random : nat -> Q;
  toString36 : Q -> string;
  isoNow : nat -> string;
  toText : json -> string
}.

(** Grounding metadata of a response. *)
Record Web : Type := { web_title : option string; web_uri : option string }.
Record GroundingChunk : Type := { web : option Web }.
Record GroundingMetadata : Type := {
  groundingChunks : option (list GroundingChunk)
}.

(** [s || d] for a text. *)
Definition textOr (s : option string) (d : string) : string :=
  match truthy s with
  | Some t => t
  | None => d
  end.

(** [groundingMetadata?.groundingChunks?.map(...) || []]. *)
Definition groundingUrlsOf (groundingMetadata : option GroundingMetadata)
    : list json :=
  match groundingMetadata with
  | Some g =>
      match groundingChunks g with
      | Some chunks =>
          map (fun c =>
                 JObj [("title"%string,
                        JStr (textOr (match web c with
                                      | Some w => web_title w
                                      | None => None
                                      end) "Source"));
                       ("uri"%string,
                        JStr (textOr (match web c with
                                      | Some w => web_uri w
                                      | None => None
                                      end) "#"))])
              chunks
      | None => []
      end
  | None => []
  end.

Definition isSentiment (v : option json) : bool :=
  match v with
  | Some (JStr s) =>
      String.eqb s "positive" || String.eqb s "negative"
      || String.eqb s "neutral"
  | _ => false
  end.

(** One article of [normalizeArticles]: [i] is its position, [k] the number
    of calls of [Math.random()] made so far; the result carries the number of
    calls made after it. *)
Definition normalizeArticle (env : Env) (urls : list json) (i k : nat)
    (a : json) : json * nat :=
  let fresh := negb (match getProp a "id" with
                     | Some v => truthyJ v
                     | None => false
                     end) in
  let id := orElse (getProp a "id")
              (JStr (substring 2 9 (toString36 env (random env k)))) in
  let k1 := if fresh then S k else k in
  let scored := match getProp a "impactScore" with
                | Some v => truthyJ v
                | None => false
                end in
  let impactScore :=
    orElse (getProp a "impactScore")
      (JNum (inject_Z (Qfloor (random env k1 * 40) + 60))) in
  let k2 := if scored then k1 else S k1 in
  (JObj
     [("id"%string, id);
      ("title"%string, orElse (getProp a "title") (JStr "Intelligence Update"));
      ("summary"%string,
       orElse (getProp a "summary")
         (JStr "Connecting with global network nodes..."));
      ("category"%string, orElse (getProp a "category") (JStr "Global"));
      ("sentiment"%string,
       if isSentiment (getProp a "sentiment")
       then match getProp a "sentiment" with
            | Some v => v
            | None => JStr "neutral"
            end
       else JStr "neutral");
      ("publishedAt"%string,
       orElse (getProp a "publishedAt") (JStr (isoNow env i)));
      ("source"%string, orElse (getProp a "source") (JStr "Intelligence Hub"));
      ("sourceUrl"%string,
       orElse (getProp a "sourceUrl") (JStr "https://google.com/news"));
      ("imageUrls"%string,
       match getProp a "imageUrls" with
       | Some (JArr (u :: us)) => JArr (u :: us)
       | _ =>
           JArr [JStr ("https://images.unsplash.com/photo-1451187580459-43490279c0fa?q=80&w=1200&sig="
                       ++ toText env id)%string]
       end);
      ("bullets"%string,
       match getProp a "bullets" with
       | Some (JArr bs) => JArr bs
       | _ => JArr [JStr "Processing intel..."]
       end);
      ("readingTime"%string, orElse (getProp a "readingTime") (JNum 2));
      ("impactScore"%string, impactScore);
      ("futureForecast"%string,
       orElse (getProp a "futureForecast")
         (JStr "Analyzing long-term market trajectories..."));
      ("groundingUrls"%string, JArr (take 3 urls))],
   k2).

Fixpoint normalizeFrom (env : Env) (urls : list json) (i k : nat)
    (articles : list json) : list json * nat :=
  match articles with
  | [] => ([], k)
  | a :: rest =>
      let (a', k') := normalizeArticle env urls i k a in
      let (rest', k'') := normalizeFrom env urls (S i) k' rest in
      (a' :: rest', k'')
  end.

(** [normalizeArticles(articles, groundingMetadata)]: [articles] is what the
    caller passes, [undefined] ([None]) included; anything but an array
    counts as the empty array.  [k] is the number of calls of
    [Math.random()] made before. *)
Definition normalizeArticles (env : Env) (articles : option json)
    (groundingMetadata : option GroundingMetadata) (k : nat)
    : list json * nat :=
  let urls := groundingUrlsOf groundingMetadata in
  normalizeFrom env urls 0 k
    (match articles with
     | Some (JArr items) => items
     | _ => []
     end).

(** The keys of a normalised article, in order. *)
Definition articleKeys : list string :=
  ["id"; "title"; "summary"; "category"; "sentiment"; "publishedAt";
   "source"; "sourceUrl"; "imageUrls"; "bullets"; "readingTime";
   "impactScore"; "futureForecast"; "groundingUrls"]%string.

Definition keysOf (a : json) : list string :=
  match a with
  | JObj fields => map fst fields
  | _ => []
  end.

(** A test environment. *)
Definition testEnv : Env :=
  {| random := fun _ => (2 # 5)%Q;
     toString36 := fun _ => "0.4fzyo82mvyr"%string;
     isoNow := fun _ => "2025-01-01T00:00:00.000Z"%string;
     toText := fun v => match v with JStr s => s | _ => "x"%string end |}.

(** An entry of [groundingUrls]: a title and a URI, both non-empty texts. *)
Definition isGroundingUrl (g : json) : Prop :=
  exists title uri,
    g = JObj [("title"%string, JStr title); ("uri"%string, JStr uri)]
    /\ title <> EmptyString /\ uri <> EmptyString.

(** What every normalised article offers, whatever the input was. *)
Definition normalised_article (o : json) : Prop :=
  keysOf o = articleKeys
  /\ (exists s, getProp o "sentiment" = Some (JStr s)
                /\ (s = "positive" \/ s = "negative" \/ s = "neutral")%string)
  /\ (exists u us, getProp o "imageUrls" = Some (JArr (u :: us)))
  /\ (exists bs, getProp o "bullets" = Some (JArr bs))
  /\ (exists gs, getProp o "groundingUrls" = Some (JArr gs)
                 /\ (length gs <= 3)%nat /\ List.Forall isGroundingUrl gs)
  /\ List.Forall
       (fun k => exists v, getProp o k = Some v /\ truthyJ v = true)
       ["title"; "summary"; "category"; "source"; "sourceUrl"; "readingTime";
        "futureForecast"]%string.

(** What a model might send: a complete article, a sparse one with a wrong
    sentiment and a zero score, and three values that are no articles. *)
Definition rawArticles : json :=
  JArr [JObj [("id", JStr "n1"); ("title", JStr "Markets rally");
              ("sentiment", JStr "positive"); ("impactScore", JNum 88);
              ("imageUrls", JArr [JStr "https://example.org/a.png"]);
              ("bullets", JArr [JStr "one"; JStr "two"])]%string;
        JObj [("title", JStr ""); ("sentiment", JStr "angry");
              ("impactScore", JNum 0); ("imageUrls", JArr [])]%string;
        JNull; JStr "text"; JNum 7].

Definition someGrounding : option GroundingMetadata :=
  Some {| groundingChunks :=
            Some [{| web := Some {| web_title := Some "A"%string;
                                    web_uri := Some "https://a.example"%string |} |};
                  {| web := None |};
                  {| web := Some {| web_title := Some ""%string;
                                    web_uri := None |} |};
                  {| web := Some {| web_title := Some "D"%string;
                                    web_uri := Some "https://d.example"%string |} |}]
       |}.

(** What the environment has to give for every generated field to count as
    present: random numbers from 0 up to 1 whose text in base 36 has digits
    after the point, and a non-empty time stamp. *)
Definition sound_env (env : Env) : Prop :=
  (forall j, (0 <= random env j)%Q /\ (random env j < 1)%Q)
  /\ (forall j, substring 2 9 (toString36 env (random env j)) <> EmptyString)
  /\ (forall i, isoNow env i <> EmptyString).

(** Another environment: every random number is 0.9, the time is later. *)
Definition laterEnv : Env :=
  {| random := fun _ => (9 # 10)%Q;
     toString36 := fun _ => "0.wedw4"%string;
     isoNow := fun _ => "2025-06-01T00:00:00.000Z"%string;
     toText := fun _ => "y"%string |}.

(** The score of a normalised article against the score of its input. *)
Definition scoreRule (a o : json) : Prop :=
  match getProp a "impactScore" with
  | Some (JNum q) =>
      if Qeq_bool q 0
      then exists n, 60 <= n <= 99
                     /\ getProp o "impactScore" = Some (JNum (inject_Z n))
      else getProp o "impactScore" = Some (JNum q)
  | Some JNull | None =>
      exists n, 60 <= n <= 99
                /\ getProp o "impactScore" = Some (JNum (inject_Z n))
  | _ => True
  end.

(** ** The news cache: [fetchNewsFromAI] *)

(** The text of a natural number in a template literal. *)
Definition decimal (n : nat) : string :=
  NilEmpty.string_of_uint (Nat.to_uint n).

(** A text without a hyphen. *)
Fixpoint noHyphen (s : string) : bool :=
  match s with
  | EmptyString => true
  | String c rest => negb (Ascii.eqb c "-") && noHyphen rest
  end.

Module NewsCache.

(** What a call returns. *)
Record NewsData : Type := { articles : list json; insights : list json }.

(** An entry of [newsCache]. *)
Record Entry : Type := { data : NewsData; timestamp : Z }.

(** [newsCache]: an object used as a map from keys to entries.  Every key
    ends in a hyphen and a number, so none is a property that an empty
    object inherits. *)
Abbreviation Cache := (gmap string Entry) (only parsing).

Definition CACHE_TTL : Z := 1000 * 60 * 5.

(** [`${query}-${excludedIds.length}`]. *)
Definition cacheKey (query : string) (excludedIds : list string) : string :=
  (query ++ "-" ++ decimal (length excludedIds))%string.

(** How [ai.models.generateContent] and the parsing of its answer end:
    the request is rejected, or it is answered; [parsed] is then what
    [JSON.parse(response.text || "{}")] returns, [None] when it throws, and
    [groundingMetadata] is [response.candidates?.[0]?.groundingMetadata]. *)
Inductive Response : Type :=
| Rejected
| Replied (parsed : option json) (groundingMetadata : option GroundingMetadata).

(** [excludedIds.includes(a.id)]: only a text equals an excluded id. *)
Definition excluded (excludedIds : list string) (a : json) : bool :=
  match getProp a "id" with
  | Some (JStr s) => existsb (String.eqb s) excludedIds
  | _ => false
  end.

(** What the [catch] block returns. *)
Definition nothing : NewsData := {| articles := []; insights := [] |}.

(** [fetchNewsFromAI] up to the request: the cached data when the entry of
    the key is younger than [CACHE_TTL] at [now], the time of the call. *)
Definition fetchNewsFromAI_begin (query : string) (excludedIds : list string)
    (now : Z) (newsCache : Cache) : option NewsData :=
  match newsCache !! cacheKey query excludedIds with
  | Some e => if now - timestamp e <? CACHE_TTL then Some (data e) else None
  | None => None
  end.

(** [fetchNewsFromAI] from the answer of the request on: [newsCache] is the
    cache at that moment, [now] still the time at which the call began, [k]
    the number of random numbers drawn so far.  Reading a property of
    [null] throws, and everything thrown ends in the [catch] block, before
    anything is stored. *)
Definition fetchNewsFromAI_resume (env : Env) (query : string)
    (excludedIds : list string) (now : Z) (response : Response)
    (newsCache : Cache) (k : nat) : NewsData * Cache * nat :=
  match response with
  | Replied (Some parsed) groundingMetadata =>
      match parsed with
      | JNull => (nothing, newsCache, k)
      | _ =>
          let (normal, k') :=
            normalizeArticles env (getProp parsed "articles")
              groundingMetadata k in
          let result :=
            {| articles :=
                 List.filter (fun a => negb (excluded excludedIds a)) normal;
               insights := match getProp parsed "insights" with
                           | Some (JArr items) => items
                           | _ => []
                           end |} in
          (result,
           <[cacheKey query excludedIds := {| data := result;
                                              timestamp := now |}]> newsCache,
           k')
      end
  | _ => (nothing, newsCache, k)
  end.

(** A call of [fetchNewsFromAI] during whose request no other call touches
    the cache. *)
Definition fetchNewsFromAI (env : Env) (query : string)
    (excludedIds : list string) (now : Z) (response : Response)
    (newsCache : Cache) (k : nat) : NewsData * Cache * nat :=
  match fetchNewsFromAI_begin query excludedIds now newsCache with
  | Some d => (d, newsCache, k)
  | None =>
      fetchNewsFromAI_resume env query excludedIds now response newsCache k
  end.

(** A response that ends in the [catch] block. *)
Definition failed (response : Response) : Prop :=
  match response with
  | Rejected | Replied None _ | Replied (Some JNull) _ => True
  | _ => False
  end.

End NewsCache.

(** An answer with two articles and one insight. *)
Definition newsParsed : json :=
  JObj [("articles", JArr [JObj [("id", JStr "n1");
                                 ("title", JStr "Markets rally")];
                           JObj [("id", JStr "n2")]]);
        ("insights", JArr [JObj [("topic", JStr "AI")]])]%string.

Definition newsReply : NewsCache.Response :=
  NewsCache.Replied (Some newsParsed) someGrounding.

(** A first call for the query [ai] at time 1000, excluding [n9], on an
    empty cache. *)
Definition firstFetch
    : NewsCache.NewsData * gmap string NewsCache.Entry * nat :=
  NewsCache.fetchNewsFromAI testEnv "ai" ["n9"%string] 1000 newsReply ∅ 0.

(** * Properties *)

(** ** Rounding to double precision *)

Module Binary64Facts.
Import Binary64.

Lemma pow2_pos (e : Z) : (0 < pow2 e)%Q.
Proof. apply Qpower_0_lt. reflexivity. Qed.

Lemma pow2_add (a b : Z) : (pow2 (a + b) == pow2 a * pow2 b)%Q.
Proof. apply Qpower_plus. discriminate. Qed.

Lemma pow2_le (a b : Z) : a <= b -> (pow2 a <= pow2 b)%Q.
Proof. intro H. apply Qpower_le_compat_l; [exact H|discriminate]. Qed.

Lemma pow2_lt_inv (a b : Z) : (pow2 a < pow2 b)%Q -> a < b.
Proof. intro H. apply (Qpower_lt_compat_l_inv 2); [exact H|reflexivity]. Qed.

Lemma pow2_Z (k : Z) : 0 <= k -> (pow2 k == inject_Z (2 ^ k))%Q.
Proof. intro H. unfold pow2. now rewrite Zpower_Qpower. Qed.

Lemma mul_div (q u : Q) : (0 < u)%Q -> (q / u * u == q)%Q.
Proof. intro H. field. intro E. lra. Qed.

Lemma div_le (x y u : Q) : (0 < u)%Q -> (x <= y)%Q -> (x / u <= y / u)%Q.
Proof.
  intros Hu H. apply Qmult_le_compat_r; [exact H|].
  apply Qlt_le_weak, Qinv_lt_0_compat, Hu.
Qed.

Lemma div_lt (x y u : Q) : (0 < u)%Q -> (x < y)%Q -> (x / u < y / u)%Q.
Proof.
  intros Hu H. apply Qmult_lt_compat_r; [|exact H].
  apply Qinv_lt_0_compat, Hu.
Qed.

(** The binade of a positive rational. *)
Lemma binade_spec (y : Q) :
  (0 < y)%Q -> (pow2 (binade y) <= y)%Q /\ (y < pow2 (binade y + 1))%Q.
Proof.
  intro Hy. unfold binade.
  set (la := Z.log2 (Qnum y)). set (lb := Z.log2 (Z.pos (Qden y))).
  assert (Ha : 0 < Qnum y) by (unfold Qlt in Hy; cbn in Hy; lia).
  destruct (Z.log2_spec (Qnum y) Ha) as [Ha1 Ha2].
  destruct (Z.log2_spec (Z.pos (Qden y)) eq_refl) as [Hb1 Hb2].
  fold la in Ha1, Ha2. fold lb in Hb1, Hb2.
  assert (Hla : 0 <= la) by apply Z.log2_nonneg.
  assert (Hlb : 0 <= lb) by apply Z.log2_nonneg.
  assert (Ey : (y == inject_Z (Qnum y) / inject_Z (Z.pos (Qden y)))%Q).
  { destruct y as [a b]. cbn [Qnum Qden]. apply Qmake_Qdiv. }
  assert (U : (y < pow2 (la - lb + 1))%Q).
  { replace (la - lb + 1) with ((la + 1) - lb) by lia.
    unfold pow2. rewrite Qpower_minus by discriminate.
    fold (pow2 (la + 1)). fold (pow2 lb).
    rewrite (pow2_Z (la + 1)), (pow2_Z lb) by lia.
    apply Qlt_shift_div_l.
    - change 0%Q with (inject_Z 0). rewrite <- Zlt_Qlt. lia.
    - destruct y as [a b]. cbn [Qnum Qden] in *.
      unfold Qlt, Qmult, inject_Z. cbn [Qnum Qden].
      replace (Z.succ la) with (la + 1) in Ha2 by lia. nia. }
  assert (D : (pow2 (la - lb - 1) <= y)%Q).
  { replace (la - lb - 1) with (la - (lb + 1)) by lia.
    unfold pow2. rewrite Qpower_minus by discriminate.
    fold (pow2 la). fold (pow2 (lb + 1)).
    rewrite (pow2_Z la), (pow2_Z (lb + 1)) by lia.
    apply Qle_shift_div_r.
    - change 0%Q with (inject_Z 0). rewrite <- Zlt_Qlt. lia.
    - destruct y as [a b]. cbn [Qnum Qden] in *.
      unfold Qle, Qmult, inject_Z. cbn [Qnum Qden].
      replace (Z.succ lb) with (lb + 1) in Hb2 by lia. nia. }
  destruct (Qle_bool (pow2 (la - lb)) y) eqn:E.
  - apply Qle_bool_iff in E. split; [exact E|exact U].
  - split; [exact D|].
    replace (la - lb - 1 + 1) with (la - lb) by lia.
    apply Qnot_le_lt. intro H. apply Qle_bool_iff in H. congruence.
Qed.

Lemma binade_le (x y : Q) :
  (0 < x)%Q -> (x <= y)%Q -> binade x <= binade y.
Proof.
  intros Hx Hxy.
  destruct (binade_spec x Hx) as [H1 _].
  destruct (binade_spec y) as [_ H2]; [lra|].
  assert (H : (pow2 (binade x) < pow2 (binade y + 1))%Q) by lra.
  apply pow2_lt_inv in H. lia.
Qed.

(** Rounding to the nearest integer. *)
Lemma rne_bounds (q : Q) :
  Qfloor q <= rne q <= Qfloor q + 1.
Proof.
  unfold rne. destruct (q - inject_Z (Qfloor q) ?= 1 # 2)%Q; [|lia|lia].
  destruct (Z.even (Qfloor q)); lia.
Qed.

Lemma rne_Z (n : Z) : rne (inject_Z n) = n.
Proof.
  unfold rne. rewrite Qfloor_Z.
  destruct (Qcompare_spec (inject_Z n - inject_Z n) (1 # 2)) as [H|H|H];
    [exfalso; lra|reflexivity|exfalso; lra].
Qed.

Lemma rne_mono (p q : Q) : (p <= q)%Q -> rne p <= rne q.
Proof.
  intro H. pose proof (Qfloor_resp_le p q H) as Hf.
  pose proof (rne_bounds p) as Hp. pose proof (rne_bounds q) as Hq.
  destruct (Z.eq_dec (Qfloor p) (Qfloor q)) as [E|N]; [|lia].
  unfold rne in *. rewrite <- E in *.
  destruct (Qcompare_spec (p - inject_Z (Qfloor p)) (1 # 2)) as [Hp1|Hp1|Hp1];
    destruct (Qcompare_spec (q - inject_Z (Qfloor p)) (1 # 2)) as [Hq1|Hq1|Hq1];
    try lia; try (exfalso; lra);
    destruct (Z.even (Qfloor p)); lia.
Qed.

Lemma rne_near (q : Q) : (Qabs (inject_Z (rne q) - q) <= 1 # 2)%Q.
Proof.
  pose proof (Qfloor_le q) as H1. pose proof (Qlt_floor q) as H2.
  rewrite inject_Z_plus in H2. change (inject_Z 1) with 1%Q in H2.
  apply Qabs_Qle_condition. unfold rne.
  destruct (Qcompare_spec (q - inject_Z (Qfloor q)) (1 # 2)) as [H|H|H].
  - destruct (Z.even (Qfloor q)); [split; lra|].
    rewrite inject_Z_plus. change (inject_Z 1) with 1%Q. split; lra.
  - split; lra.
  - rewrite inject_Z_plus. change (inject_Z 1) with 1%Q. split; lra.
Qed.

Lemma Qabs_nonneg_eq (y : Q) : (0 <= y)%Q -> Qabs y = y.
Proof.
  destruct y as [a b]. unfold Qle. cbn. intro H.
  unfold Qabs. f_equal. apply Z.abs_eq. lia.
Qed.

Lemma round64_pos (y : Q) :
  (0 < y)%Q ->
  round64 y = (inject_Z (rne (y / pow2 (exponent y))) * pow2 (exponent y))%Q.
Proof.
  intro H. unfold round64.
  destruct (Qeq_bool y 0) eqn:E.
  - apply Qeq_bool_eq in E. exfalso. lra.
  - cbv zeta. rewrite Qabs_nonneg_eq by lra. reflexivity.
Qed.

Lemma round64_nonneg (y : Q) : (0 <= y)%Q -> (0 <= round64 y)%Q.
Proof.
  intro H. unfold round64. destruct (Qeq_bool y 0); [lra|]. cbv zeta.
  set (e := exponent (Qabs y)). pose proof (pow2_pos e) as Hu.
  apply Qmult_le_0_compat; [|lra].
  change 0%Q with (inject_Z 0). rewrite <- Zle_Qle.
  rewrite <- (rne_Z 0). apply rne_mono.
  apply Qle_shift_div_l; [exact Hu|]. change (inject_Z 0) with 0%Q. lra.
Qed.

Lemma exponent_le (x y : Q) :
  (0 < x)%Q -> (x <= y)%Q -> exponent x <= exponent y.
Proof. intros Hx Hxy. pose proof (binade_le x y Hx Hxy). unfold exponent. lia. Qed.

(** A positive number is rounded within its binade. *)
Lemma round64_upper (x : Q) :
  (0 < x)%Q -> (round64 x <= pow2 (exponent x + 53))%Q.
Proof.
  intro Hx. rewrite (round64_pos x Hx). set (e := exponent x).
  pose proof (pow2_pos e) as Hu.
  destruct (binade_spec x Hx) as [_ Hb].
  assert (H1 : (x <= pow2 (e + 53))%Q).
  { apply Qlt_le_weak. eapply Qlt_le_trans; [exact Hb|].
    apply pow2_le. unfold e, exponent. lia. }
  assert (H2 : (x / pow2 e <= inject_Z (2 ^ 53))%Q).
  { rewrite <- pow2_Z by lia. rewrite Z.add_comm, pow2_add in H1.
    apply Qle_shift_div_r; [exact Hu|exact H1]. }
  apply rne_mono in H2. rewrite rne_Z in H2.
  rewrite Z.add_comm, pow2_add, (pow2_Z 53) by lia.
  apply Qmult_le_compat_r; [|lra]. now rewrite <- Zle_Qle.
Qed.

Lemma round64_lower (y : Q) :
  (0 < y)%Q -> -1022 <= binade y -> (pow2 (binade y) <= round64 y)%Q.
Proof.
  intros Hy Hn. rewrite (round64_pos y Hy).
  assert (He : exponent y = binade y - 52) by (unfold exponent; lia).
  rewrite He. set (e := binade y - 52). pose proof (pow2_pos e) as Hu.
  destruct (binade_spec y Hy) as [Hb _].
  replace (binade y) with (52 + e) in Hb |- * by (unfold e; lia).
  rewrite pow2_add in Hb |- *.
  assert (H2 : (inject_Z (2 ^ 52) <= y / pow2 e)%Q).
  { rewrite <- pow2_Z by lia. apply Qle_shift_div_l; [exact Hu|exact Hb]. }
  apply rne_mono in H2. rewrite rne_Z in H2.
  rewrite (pow2_Z 52) by lia.
  apply Qmult_le_compat_r; [|lra]. now rewrite <- Zle_Qle.
Qed.

(** Rounding is monotone. *)
Lemma round64_mono (x y : Q) :
  (0 <= x)%Q -> (x <= y)%Q -> (round64 x <= round64 y)%Q.
Proof.
  intros H0 Hxy.
  destruct (Qeq_bool x 0) eqn:E.
  - unfold round64 at 1. rewrite E. apply round64_nonneg. lra.
  - apply Qeq_bool_neq in E. assert (Hx : (0 < x)%Q) by lra.
    assert (Hy : (0 < y)%Q) by lra.
    pose proof (exponent_le x y Hx Hxy) as He.
    destruct (Z.eq_dec (exponent x) (exponent y)) as [Ee|Ne].
    + rewrite (round64_pos x Hx), (round64_pos y Hy), Ee.
      pose proof (pow2_pos (exponent y)) as Hu.
      apply Qmult_le_compat_r; [|lra].
      rewrite <- Zle_Qle. apply rne_mono. now apply div_le.
    + eapply Qle_trans; [apply (round64_upper x Hx)|].
      assert (Hb : -1022 <= binade y /\ exponent y = binade y - 52).
      { unfold exponent in *. lia. }
      destruct Hb as [Hb1 Hb2].
      eapply Qle_trans; [|apply (round64_lower y Hy Hb1)].
      apply pow2_le. lia.
Qed.

Lemma is_double_round64 (x : Q) : is_double x = true -> (round64 x == x)%Q.
Proof.
  unfold is_double. intro H. apply andb_prop in H. destruct H as [H _].
  now apply Qeq_bool_eq.
Qed.

(** Adding a non-negative number never takes a non-negative one down. *)
Lemma fadd_ge (x d : Q) : (0 <= x)%Q -> (0 <= d)%Q -> (x <= fadd x d)%Q.
Proof.
  intros Hx Hd. unfold fadd. cbv zeta.
  destruct (is_double x) eqn:Ex.
  - rewrite <- (is_double_round64 x Ex) at 1.
    apply round64_mono; lra.
  - apply Qle_bool_iff in Hd. rewrite Hd. apply Q.le_max_l.
Qed.

(** The rounding error: half a unit in the last place, which is [2^-53] of
    the number above the subnormal numbers and [2^-1075] among them. *)
Lemma round64_error (y : Q) :
  (Qabs (round64 y - y)
   <= Qmax (Qabs y * pow2 (-53)) (pow2 (-1075)))%Q.
Proof.
  unfold round64. destruct (Qeq_bool y 0) eqn:E0.
  - apply Qeq_bool_eq in E0. eapply Qle_trans; [|apply Q.le_max_r].
    rewrite E0. apply Qlt_le_weak, pow2_pos.
  - apply Qeq_bool_neq in E0. cbv zeta.
    assert (Hy : (0 < Qabs y)%Q).
    { pose proof (Qabs_nonneg y) as H.
      destruct (Qeq_dec (Qabs y) 0) as [Z0|N0]; [|lra].
      exfalso. apply E0. destruct y as [n d]. unfold Qeq in *. cbn in *. lia. }
    set (e := exponent (Qabs y)). pose proof (pow2_pos e) as Hu.
    pose proof (rne_near (y / pow2 e)) as H.
    assert (E : (inject_Z (rne (y / pow2 e)) * pow2 e - y
                 == (inject_Z (rne (y / pow2 e)) - y / pow2 e) * pow2 e)%Q).
    { field. intro Z0. lra. }
    rewrite E, Qabs_Qmult, (Qabs_pos (pow2 e)) by lra.
    assert (Hh : (Qabs (inject_Z (rne (y / pow2 e)) - y / pow2 e) * pow2 e
                  <= (1 # 2) * pow2 e)%Q).
    { apply Qmult_le_compat_r; [exact H|lra]. }
    eapply Qle_trans; [exact Hh|]. clear Hh E H.
    destruct (binade_spec (Qabs y) Hy) as [Hb _].
    destruct (Z_le_gt_dec (-1022) (binade (Qabs y))) as [Hn|Hs].
    + eapply Qle_trans; [|apply Q.le_max_l].
      assert (He : e = binade (Qabs y) + -52) by (unfold e, exponent; lia).
      rewrite He, pow2_add.
      assert (E53 : (pow2 (-53) == (1 # 2) * pow2 (-52))%Q) by reflexivity.
      rewrite E53. pose proof (pow2_pos (-52)) as H52.
      rewrite (Qmult_comm (1 # 2)), <- !Qmult_assoc.
      apply Qmult_le_compat_r; [exact Hb|].
      apply Qmult_le_0_compat; lra.
    + eapply Qle_trans; [|apply Q.le_max_r].
      assert (He : e = -1074) by (unfold e, exponent; lia).
      rewrite He. apply Qle_lteq. right. reflexivity.
Qed.

Lemma fadd_error (x y : Q) :
  (Qabs (fadd x y - (x + y))
   <= Qmax (Qabs (x + y) * pow2 (-53)) (pow2 (-1075)))%Q.
Proof.
  pose proof (round64_error (x + y)) as H.
  set (bound := Qmax (Qabs (x + y) * pow2 (-53)) (pow2 (-1075))) in *.
  unfold fadd. cbv zeta. destruct (is_double x); [exact H|].
  set (r := round64 (x + y)) in *.
  apply Qabs_Qle_condition in H. apply Qabs_Qle_condition.
  destruct (Qle_bool 0 y) eqn:Ey.
  - apply Qle_bool_iff in Ey.
    destruct (Q.max_spec x r) as [[L E]|[L E]]; rewrite E; lra.
  - assert (Hy : (y < 0)%Q).
    { apply Qnot_le_lt. intro Hle. apply Qle_bool_iff in Hle. congruence. }
    destruct (Q.min_spec x r) as [[L E]|[L E]]; rewrite E; lra.
Qed.

Lemma rne_below (q : Q) (n : Z) :
  (q < inject_Z n + (1 # 2))%Q -> rne q <= n.
Proof.
  intro H. pose proof (Qfloor_le q) as Hf. pose proof (rne_bounds q) as Hb.
  assert (Hn : Qfloor q <= n).
  { apply Z.lt_succ_r. rewrite Zlt_Qlt, <- Z.add_1_r, inject_Z_plus.
    change (inject_Z 1) with 1%Q. lra. }
  destruct (Z.eq_dec (Qfloor q) n) as [E|N]; [|lia].
  unfold rne. rewrite E.
  destruct (Qcompare_spec (q - inject_Z n) (1 # 2)) as [H1|H1|H1];
    [exfalso; lra|lia|exfalso; lra].
Qed.

Lemma binade_lt (y : Q) (k : Z) :
  (0 < y)%Q -> (y < pow2 k)%Q -> binade y < k.
Proof.
  intros Hy H. destruct (binade_spec y Hy) as [Hb _].
  apply pow2_lt_inv. lra.
Qed.

Lemma pow2_1024 : (pow2 1024 == MAX_VALUE + pow2 971)%Q.
Proof. reflexivity. Qed.

(** A positive number that is nearer to the largest double than to
    [2^1024] is rounded to a finite double. *)
Lemma round64_finite (y : Q) :
  (0 < y)%Q -> (y < MAX_VALUE + pow2 970)%Q -> (round64 y <= MAX_VALUE)%Q.
Proof.
  intros Hy H.
  assert (H970 : (pow2 971 == pow2 970 + pow2 970)%Q) by reflexivity.
  pose proof (pow2_pos 970) as Hp.
  assert (Hb : binade y < 1024).
  { apply binade_lt; [exact Hy|]. rewrite pow2_1024, H970. lra. }
  destruct (Z_lt_le_dec (exponent y) 971) as [Hl|Hg].
  - eapply Qle_trans; [apply (round64_upper y Hy)|].
    eapply Qle_trans; [apply (pow2_le _ 1023); lia|].
    unfold MAX_VALUE. rewrite (pow2_Z 1023), <- Zle_Qle by lia.
    apply Z.leb_le. reflexivity.
  - assert (He : exponent y = 971) by (unfold exponent in *; lia).
    rewrite (round64_pos y Hy), He. pose proof (pow2_pos 971) as Hu.
    assert (Hq : (y / pow2 971 < inject_Z (2 ^ 53 - 1) + (1 # 2))%Q).
    { apply Qlt_shift_div_r; [exact Hu|].
      assert (E : ((inject_Z (2 ^ 53 - 1) + (1 # 2)) * pow2 971
                   == MAX_VALUE + pow2 970)%Q) by reflexivity.
      now rewrite E. }
    apply rne_below in Hq.
    assert (E : (MAX_VALUE == inject_Z (2 ^ 53 - 1) * pow2 971)%Q)
      by reflexivity.
    rewrite E. apply Qmult_le_compat_r; [|lra]. now rewrite <- Zle_Qle.
Qed.

Lemma double_le_MAX_VALUE (x : Q) : is_double x = true -> (x <= MAX_VALUE)%Q.
Proof.
  intro H. pose proof (is_double_round64 x H) as Hr.
  unfold is_double in H. apply andb_prop in H. destruct H as [_ H].
  apply negb_true_iff in H.
  assert (Hx : (Qabs x < pow2 1024)%Q).
  { apply Qnot_le_lt. intro Hle. apply Qle_bool_iff in Hle. congruence. }
  assert (Hm : (0 < MAX_VALUE)%Q) by reflexivity.
  destruct (Qlt_le_dec 0 x) as [Hp|Hn]; [|lra].
  rewrite Qabs_pos in Hx by lra.
  assert (Hb : binade x < 1024) by now apply binade_lt.
  destruct (Z_lt_le_dec (exponent x) 971) as [Hl|Hg].
  - rewrite <- Hr. eapply Qle_trans; [apply (round64_upper x Hp)|].
    eapply Qle_trans; [apply (pow2_le _ 1023); lia|].
    unfold MAX_VALUE. rewrite (pow2_Z 1023), <- Zle_Qle by lia.
    apply Z.leb_le. reflexivity.
  - assert (He : exponent x = 971) by (unfold exponent in *; lia).
    rewrite (round64_pos x Hp), He in Hr. pose proof (pow2_pos 971) as Hu.
    set (n := rne (x / pow2 971)) in *.
    assert (Hn : n < 2 ^ 53).
    { rewrite Zlt_Qlt.
      apply (Qmult_lt_r _ _ (pow2 971) Hu).
      assert (E : (inject_Z (2 ^ 53) * pow2 971 == pow2 1024)%Q)
        by reflexivity.
      rewrite E, Hr. exact Hx. }
    assert (E : (MAX_VALUE == inject_Z (2 ^ 53 - 1) * pow2 971)%Q)
      by reflexivity.
    rewrite E, <- Hr. apply Qmult_le_compat_r; [|lra].
    rewrite <- Zle_Qle. lia.
Qed.

(** Adding less than [2^970] to a non-negative double does not reach
    [2^1024]: the sum is no [Infinity]. *)
Lemma fadd_finite (x d : Q) :
  is_double x = true -> (0 <= x)%Q -> (0 <= d)%Q -> (d < pow2 970)%Q ->
  (fadd x d < pow2 1024)%Q.
Proof.
  intros Hx H0 Hd0 Hd. pose proof (double_le_MAX_VALUE x Hx) as Hm.
  pose proof (pow2_pos 971) as Hp'.
  unfold fadd. cbv zeta. rewrite Hx.
  destruct (Qeq_bool (x + d) 0) eqn:E0.
  - unfold round64. rewrite E0. apply pow2_pos.
  - apply Qeq_bool_neq in E0.
    eapply Qle_lt_trans; [apply round64_finite; lra|].
    rewrite pow2_1024. lra.
Qed.

End Binary64Facts.

(** The doubles that some decimals denote, the sum [0.1 + 0.2], ties, which
    go to the even neighbour, and the subnormal numbers. *)
Example round64_examples :
  Binary64.round64 (1 # 2) = (4503599627370496 # 9007199254740992)%Q
  /\ Binary64.round64 (1 # 10)
     = (7205759403792794 # 72057594037927936)%Q
  /\ Binary64.fadd (Binary64.round64 (1 # 10)) (Binary64.round64 (2 # 10))
     = (5404319552844596 # 18014398509481984)%Q
  /\ (Binary64.round64 9007199254740993 == 9007199254740992)%Q
  /\ (Binary64.round64 9007199254740995 == 9007199254740996)%Q
  /\ (Binary64.round64 (Binary64.pow2 (-1075)) == 0)%Q
  /\ (Binary64.round64 (3 * Binary64.pow2 (-1075))
      == Binary64.pow2 (-1073))%Q
  /\ Binary64.is_double Binary64.MAX_VALUE = true
  /\ Binary64.is_double (Binary64.pow2 (-1074)) = true
  /\ Binary64.is_double (1 # 10) = false
  /\ Binary64.is_double (Binary64.pow2 1024) = false.
Proof. vm_compute. repeat split. Qed.

(** [round64] and [fadd] against the standard library's specification of
    IEEE 754: quotients of a length by a sample rate; integers times a
    power of two, down to the subnormal numbers and with ties; sums of two
    doubles, also of mixed sign, of subnormal numbers, and one that the
    largest double absorbs. *)
Example agrees_with_SpecFloat :
  forallb
    (fun nd : Z * Z =>
       Qeq_bool (Binary64.SFvalue (Binary64.SFquotient (fst nd) (snd nd)))
         (Binary64.round64 (inject_Z (fst nd) / inject_Z (snd nd))))
    [(1, 10); (2, 10); (3, 10); (7, 10); (-1, 3); (2400, 24000);
     (4800, 24000); (16800, 24000); (3, 24000); (4294967295, 8000);
     (1, 44100); (123457, 48000)]
  = true
  /\ forallb
       (fun me : Z * Z =>
          Qeq_bool
            (Binary64.SFvalue
               (binary_normalize 53 1024 (fst me) (snd me) false))
            (Binary64.round64 (inject_Z (fst me) * Binary64.pow2 (snd me))))
       [(2 ^ 53 + 1, 0); (2 ^ 53 + 3, 0); (2 ^ 54 + 2, 0); (1, -1074);
        (1, -1075); (3, -1075); (2 ^ 53 - 1, -1075); (2 ^ 53 + 1, -1076);
        (-5, -1077); (2 ^ 53 - 1, 971); (12345678901234567890, -80)]
     = true
  /\ forallb
       (fun q : (Z * Z) * (Z * Z) =>
          let x := Binary64.SFquotient (fst (fst q)) (snd (fst q)) in
          let y := Binary64.SFquotient (fst (snd q)) (snd (snd q)) in
          Qeq_bool (Binary64.SFvalue (SFadd 53 1024 x y))
            (Binary64.fadd (Binary64.SFvalue x) (Binary64.SFvalue y)))
       [((1, 10), (2, 10)); ((1, 10), (7, 10)); ((1, 2), (3, 10));
        ((3, 10), (1, 10)); ((8, 10), (2, 10)); ((1, 3), (-1, 10));
        ((-1, 3), (-2, 7)); ((123457, 48000), (1, 44100));
        ((2 ^ 53, 1), (1, 1)); ((2 ^ 53 + 2, 1), (1, 1))]
     = true
  /\ forallb
       (fun q : (Z * Z) * (Z * Z) =>
          let x := binary_normalize 53 1024 (fst (fst q)) (snd (fst q))
                     false in
          let y := binary_normalize 53 1024 (fst (snd q)) (snd (snd q))
                     false in
          Qeq_bool (Binary64.SFvalue (SFadd 53 1024 x y))
            (Binary64.fadd (Binary64.SFvalue x) (Binary64.SFvalue y)))
       [((1, -1074), (3, -1074)); ((5, -1070), (-1, -1074));
        ((2 ^ 52, -1074), (2 ^ 52 - 1, -1074));
        ((2 ^ 53 - 1, 971), (4294967295, -13)); ((3, -1022), (1, -1074))]
     = true.
Proof. vm_compute. repeat split. Qed.

(** ** The radix-64 functions on examples *)

Example btoa_Man : Base64.btoa [77; 97; 110] = Ok "TWFu"%string.
Proof. reflexivity. Qed.
Example btoa_Ma : Base64.btoa [77; 97] = Ok "TWE="%string.
Proof. reflexivity. Qed.
Example btoa_M : Base64.btoa [77] = Ok "TQ=="%string.
Proof. reflexivity. Qed.
Example atob_TWE : Base64.atob "TW E=" = Ok [77; 97].
Proof. reflexivity. Qed.
Example atob_bad : Base64.atob "!" = Throw InvalidCharacterError.
Proof. reflexivity. Qed.
Example atob_odd : Base64.atob "AA==" = Ok [0].
Proof. reflexivity. Qed.
Example atob_three_pads : Base64.atob "A===" = Throw InvalidCharacterError.
Proof. reflexivity. Qed.

(** ** Radix-64 round trip *)

Section ListInd3.
Context {A : Type} (P : list A -> Prop).
Hypothesis P0 : P [].
Hypothesis P1 : forall a, P [a].
Hypothesis P2 : forall a b, P [a; b].
Hypothesis P3 : forall a b c l, P l -> P (a :: b :: c :: l).

Lemma list_ind3 : forall l, P l.
Proof.
  assert (H : forall l, P l /\ (forall a, P (a :: l))
                        /\ (forall a b, P (a :: b :: l))).
  { induction l as [|x l (IH0 & IH1 & IH2)]; [now auto|].
    repeat split; auto. }
  intro l. apply H.
Qed.
End ListInd3.

Module Base64Facts.
Import Base64.

Lemma b64val_b64char_nat (n : nat) :
  (n < 64)%nat -> b64val (nth n alphabet pad) = Some (Z.of_nat n).
Proof.
  intro H.
  do 64 (destruct n as [|n]; [reflexivity|]).
  lia.
Qed.

Lemma b64val_b64char (v : Z) : is_sextet v -> b64val (b64char v) = Some v.
Proof.
  intros [H0 H1]. unfold b64char.
  rewrite b64val_b64char_nat by lia.
  f_equal. lia.
Qed.

Lemma b64char_not_pad (v : Z) : is_sextet v -> Ascii.eqb (b64char v) pad = false.
Proof.
  intro H. destruct (Ascii.eqb_spec (b64char v) pad) as [E|]; [|reflexivity].
  apply b64val_b64char in H. rewrite E in H. discriminate.
Qed.

Lemma b64char_visible (v : Z) : is_ascii_whitespace (b64char v) = false.
Proof.
  unfold b64char.
  destruct (nth_in_or_default (Z.to_nat v) alphabet pad) as [H|H].
  - revert H. generalize (nth (Z.to_nat v) alphabet pad). intros c H.
    assert (F : List.Forall (fun c => is_ascii_whitespace c = false) alphabet).
    { repeat constructor. }
    rewrite List.Forall_forall in F. now apply F.
  - now rewrite H.
Qed.

Lemma sextets_range (l : list Z) :
  List.Forall is_byte l -> List.Forall is_sextet (sextets l).
Proof.
  induction l as [| a | a b | a b c l IH] using list_ind3; intro H; cbn [sextets].
  - constructor.
  - inversion_clear H as [|? ? Ha _]. unfold is_byte, is_sextet in *.
    repeat constructor;
      try (apply Z.div_pos; lia); try (apply Z.div_lt_upper_bound; lia);
      pose proof (Z.mod_pos_bound a 4); lia.
  - inversion_clear H as [|? ? Ha H']. inversion_clear H' as [|? ? Hb _].
    unfold is_byte, is_sextet in *.
    pose proof (Z.mod_pos_bound a 4). pose proof (Z.mod_pos_bound b 16).
    assert (0 <= a / 4 < 64) by (split; [apply Z.div_pos|apply Z.div_lt_upper_bound]; lia).
    assert (0 <= b / 16 < 16) by (split; [apply Z.div_pos|apply Z.div_lt_upper_bound]; lia).
    repeat constructor; lia.
  - inversion_clear H as [|? ? Ha H']. inversion_clear H' as [|? ? Hb H''].
    inversion_clear H'' as [|? ? Hc Hl].
    unfold is_byte, is_sextet in *.
    pose proof (Z.mod_pos_bound a 4). pose proof (Z.mod_pos_bound b 16).
    pose proof (Z.mod_pos_bound c 64).
    assert (0 <= a / 4 < 64) by (split; [apply Z.div_pos|apply Z.div_lt_upper_bound]; lia).
    assert (0 <= b / 16 < 16) by (split; [apply Z.div_pos|apply Z.div_lt_upper_bound]; lia).
    assert (0 <= c / 64 < 4) by (split; [apply Z.div_pos|apply Z.div_lt_upper_bound]; lia).
    repeat (constructor; [lia|]). now apply IH.
Qed.

Lemma octets_sextets (l : list Z) :
  List.Forall is_byte l -> octets (sextets l) = l.
Proof.
  induction l as [| a | a b | a b c l IH] using list_ind3; intro H;
    cbn [sextets octets].
  - reflexivity.
  - inversion_clear H as [|? ? Ha _]. unfold is_byte in *.
    f_equal. Z.div_mod_to_equations. lia.
  - inversion_clear H as [|? ? Ha H']. inversion_clear H' as [|? ? Hb _].
    unfold is_byte in *.
    f_equal; [|f_equal]; Z.div_mod_to_equations; lia.
  - inversion_clear H as [|? ? Ha H']. inversion_clear H' as [|? ? Hb H''].
    inversion_clear H'' as [|? ? Hc Hl]. unfold is_byte in *.
    rewrite (IH Hl).
    f_equal; [|f_equal; [|f_equal]]; Z.div_mod_to_equations; lia.
Qed.

Lemma values_b64char (v : list Z) :
  List.Forall is_sextet v -> values (map b64char v) = Some v.
Proof.
  induction 1 as [|x v Hx _ IH]; cbn [map values]; [reflexivity|].
  now rewrite (b64val_b64char x Hx), IH.
Qed.

(** The text produced by [btoa] has a length that is a multiple of 4, and
    its unpadded part never has length 1 modulo 4. *)
Lemma sextets_length (l : list Z) :
  length (sextets l)
  = (4 * (length l / 3) + match length l mod 3 with
                          | 0 => 0 | 1 => 2 | _ => 3 end)%nat.
Proof.
  induction l as [| a | a b | a b c l IH] using list_ind3; try reflexivity.
  cbn [sextets length]. rewrite IH.
  replace (S (S (S (length l)))) with (length l + 1 * 3)%nat by lia.
  rewrite Nat.div_add, Nat.Div0.mod_add by lia. lia.
Qed.

Lemma padding_length (n : nat) :
  length (padding n) = match (n mod 3)%nat with
                       | 0 => 0 | 1 => 2 | _ => 1 end%nat.
Proof.
  unfold padding. rewrite repeat_length.
  pose proof (Nat.mod_upper_bound n 3 ltac:(lia)) as H.
  destruct (n mod 3)%nat as [|[|[|k]]]; try reflexivity; lia.
Qed.

Lemma strip_padding_app (s : list ascii) (k : nat) :
  List.Forall (fun c => Ascii.eqb c pad = false) s -> (k <= 2)%nat ->
  strip_padding (s ++ repeat pad k) = s.
Proof.
  intros Hs Hk. induction Hs as [|c s Hc Hs IH].
  - destruct k as [|[|[|k]]]; try reflexivity; lia.
  - cbn [app strip_padding]. rewrite Hc, IH. cbn [andb]. clear IH.
    destruct (s ++ repeat pad k) as [|c1 [|c2 r]] eqn:E; try reflexivity.
    apply app_eq_nil in E. now rewrite (proj1 E).
Qed.

Lemma filter_all {A} (f : A -> bool) (l : list A) :
  List.Forall (fun x => f x = true) l -> List.filter f l = l.
Proof.
  induction 1 as [|x l Hx _ IH]; cbn [List.filter]; [reflexivity|].
  now rewrite Hx, IH.
Qed.

Lemma forallb_is_byte (l : list Z) :
  forallb is_byteb l = true <-> List.Forall is_byte l.
Proof.
  rewrite forallb_forall, List.Forall_forall. unfold is_byteb, is_byte.
  split; intros H x Hx; specialize (H x Hx); lia.
Qed.

(** [atob] inverts [btoa] on every sequence of bytes. *)
Theorem atob_btoa (l : list Z) :
  List.Forall is_byte l ->
  exists s, btoa l = Ok s /\ atob s = Ok l.
Proof.
  intro Hl. unfold btoa.
  rewrite (proj2 (forallb_is_byte l) Hl).
  eexists; split; [reflexivity|].
  pose proof (sextets_range l Hl) as Hr.
  unfold atob. rewrite list_ascii_of_string_of_list_ascii.
  rewrite filter_all.
  2:{ apply List.Forall_app; split.
      - apply List.Forall_map, List.Forall_forall. intros v _.
        now rewrite b64char_visible.
      - apply List.Forall_forall. intros c Hc.
        apply repeat_spec in Hc. now subst c. }
  assert (L4 : (length (map b64char (sextets l) ++ padding (length l)) mod 4
                = 0)%nat).
  { rewrite length_app, length_map, sextets_length, padding_length.
    pose proof (Nat.mod_upper_bound (length l) 3 ltac:(lia)).
    destruct (length l mod 3)%nat as [|[|[|k]]]; try lia.
    - rewrite Nat.add_0_r, Nat.add_0_r, Nat.mul_comm. apply Nat.Div0.mod_mul.
    - replace (4 * (length l / 3) + 2 + 2)%nat
        with ((length l / 3 + 1) * 4)%nat by lia.
      apply Nat.Div0.mod_mul.
    - replace (4 * (length l / 3) + 3 + 1)%nat
        with ((length l / 3 + 1) * 4)%nat by lia.
      apply Nat.Div0.mod_mul. }
  rewrite L4. cbn [Nat.eqb].
  assert (SP : strip_padding (map b64char (sextets l) ++ padding (length l))
               = map b64char (sextets l)).
  { apply strip_padding_app.
    - apply List.Forall_map. eapply List.Forall_impl; [|exact Hr].
      intros v Hv. now apply b64char_not_pad.
    - pose proof (Nat.mod_upper_bound (3 - length l mod 3) 3 ltac:(lia)). lia. }
  rewrite SP, length_map.
  assert (L1 : (length (sextets l) mod 4 =? 1)%nat = false).
  { apply Nat.eqb_neq. rewrite sextets_length.
    pose proof (Nat.mod_upper_bound (length l) 3 ltac:(lia)).
    rewrite Nat.add_comm, Nat.mul_comm, Nat.Div0.mod_add.
    destruct (length l mod 3)%nat as [|[|[|k]]]; cbn; lia. }
  rewrite L1, (values_b64char _ Hr), (octets_sextets l Hl). reflexivity.
Qed.

End Base64Facts.

Example encode_three :
  onaudioprocess [Num (1 # 2); Num (-1 # 4); Num 1]
  = Ok {| media_data := "AEAA4ACA"; media_mimeType := "audio/pcm;rate=16000" |}.
Proof. reflexivity. Qed.

Example decode_three :
  match decode "AEAA4ACA" with
  | Ok bytes => option_map channelsData
                  (match decodeAudioData bytes std_ctx 24000 1 with
                   | Ok b => Some b | Throw _ => None end)
  | Throw _ => None
  end = Some [[Num (16384 # 32768); Num (-8192 # 32768); Num (-32768 # 32768)]].
Proof. reflexivity. Qed.

(** ** Loops that fill an array *)

Lemma for_loop_S {S : Type} (n : nat) (body : nat -> S -> S) (s : S) :
  for_loop (Datatypes.S n) body s = body n (for_loop n body s).
Proof.
  unfold for_loop. rewrite seq_S, fold_left_app. reflexivity.
Qed.

(** Storing [g i] at every index [i < n] of an array: indices outside the
    array are ignored. *)
Lemma for_loop_insert {A : Type} (g : nat -> A) (n : nat) (a : list A) :
  for_loop n (fun i a => <[i := g i]> a) a
  = map g (seq 0 (Nat.min n (length a))) ++ drop n a.
Proof.
  induction n as [|n IH]; [now rewrite drop_0|].
  rewrite for_loop_S, IH.
  destruct (Nat.lt_ge_cases n (length a)) as [Hlt|Hge].
  - rewrite (Nat.min_l n), (Nat.min_l (S n)) by lia.
    destruct (lookup_lt_is_Some_2 a n Hlt) as [x Hx].
    rewrite (drop_S a x n Hx), seq_S, map_app, <- app_assoc. cbn [map app].
    rewrite insert_app_r_alt by (rewrite length_map, length_seq; lia).
    rewrite length_map, length_seq, Nat.sub_diag. reflexivity.
  - rewrite (Nat.min_r n), (Nat.min_r (S n)) by lia.
    rewrite !drop_ge by lia.
    rewrite list_insert_ge; [reflexivity|].
    rewrite length_app, length_map, length_seq. cbn. lia.
Qed.

Lemma for_loop_fill {A : Type} (g : nat -> A) (n : nat) (a : list A) :
  (length a <= n)%nat ->
  for_loop n (fun i a => <[i := g i]> a) a = map g (seq 0 (length a)).
Proof.
  intro H. rewrite for_loop_insert, Nat.min_r, drop_ge, app_nil_r by lia.
  reflexivity.
Qed.

(** Appending [g i] for every [i < n]. *)
Lemma for_loop_snoc {A : Type} (g : nat -> A) (n : nat) (a : list A) :
  for_loop n (fun i a => a ++ [g i]) a = a ++ map g (seq 0 n).
Proof.
  induction n as [|n IH]; [now rewrite app_nil_r|].
  rewrite for_loop_S, IH, seq_S, map_app, app_assoc. reflexivity.
Qed.

(** ** Closed forms of the helpers *)

Lemma map_nth_seq {A : Type} (l : list A) (d : A) :
  map (fun i => nth i l d) (seq 0 (length l)) = l.
Proof.
  induction l as [|x l IH] using rev_ind; [reflexivity|].
  rewrite length_app, Nat.add_comm. cbn [length Nat.add].
  rewrite seq_S, map_app. cbn [map Nat.add].
  rewrite app_nth2, Nat.sub_diag by lia. cbn [nth]. f_equal.
  rewrite <- IH at 2. apply map_ext_in. intros i Hi.
  apply in_seq in Hi. apply app_nth1. lia.
Qed.

Lemma map_id_on {A : Type} (f : A -> A) (l : list A) :
  List.Forall (fun x => f x = x) l -> map f l = l.
Proof.
  induction 1 as [|x l Hx _ IH]; cbn [map]; [reflexivity|].
  now rewrite Hx, IH.
Qed.

Lemma u8_set_loop (f : nat -> Z) (n len : nat) (b : ArrayBuffer) :
  (n <= len)%nat ->
  for_loop n (fun i bytes => u8_set bytes i (f i))
    {| u8_buffer := b; u8_byteOffset := 0; u8_byteLength := len |}
  = {| u8_buffer := for_loop n (fun i b => <[i := f i mod 256]> b) b;
       u8_byteOffset := 0; u8_byteLength := len |}.
Proof.
  induction n as [|n IH]; intro H; [reflexivity|].
  rewrite !for_loop_S, IH by lia. unfold u8_set.
  cbn [u8_byteLength u8_buffer u8_byteOffset Nat.add].
  destruct (Nat.ltb_spec n len); [reflexivity|lia].
Qed.

(** [decode] stores the bytes of the decoded text in a fresh array. *)
Lemma decode_atob (base64 : string) (l : list Z) :
  Base64.atob base64 = Ok l -> List.Forall Base64.is_byte l ->
  decode base64 = Ok (Uint8Array_of_buffer l).
Proof.
  intros Ha Hl. unfold decode. rewrite Ha. f_equal.
  unfold Uint8Array_new. rewrite u8_set_loop by lia.
  unfold Uint8Array_of_buffer. f_equal.
  rewrite (for_loop_fill (fun i => nth i l 0 mod 256))
    by (rewrite repeat_length; lia).
  rewrite repeat_length.
  rewrite <- (map_map (fun i => nth i l 0) (fun v => v mod 256)).
  rewrite map_nth_seq. apply map_id_on.
  eapply List.Forall_impl; [|exact Hl].
  intros v Hv. apply Z.mod_small. exact Hv.
Qed.

(** [encode] of a view of a whole buffer of bytes is [btoa] of the bytes. *)
Lemma encode_of_buffer (b : ArrayBuffer) :
  List.Forall Base64.is_byte b ->
  encode (Uint8Array_of_buffer b) = Base64.btoa b.
Proof.
  intro Hb. unfold encode. cbn [Uint8Array_of_buffer u8_byteLength].
  rewrite for_loop_snoc. cbn [app]. f_equal.
  rewrite <- (map_nth_seq b 0) at 2.
  apply map_ext_in. intros i Hi. apply in_seq in Hi.
  unfold u8_get, Uint8Array_of_buffer.
  cbn [u8_byteLength u8_buffer u8_byteOffset Nat.add].
  destruct (Nat.ltb_spec i (length b)); [|lia].
  destruct (lookup_lt_is_Some_2 b i ltac:(lia)) as [x Hx].
  rewrite Hx. cbn [fromCharCode].
  rewrite (nth_lookup_Some b i 0 x Hx).
  apply Z.mod_small.
  assert (Hin : List.In x b) by (apply list_elem_of_In; eapply list_elem_of_lookup_2; eauto).
  rewrite List.Forall_forall in Hb. specialize (Hb x Hin).
  unfold Base64.is_byte in Hb. lia.
Qed.

Lemma wrap16_range (n : Z) : is_int16 (wrap16 n).
Proof.
  unfold wrap16, is_int16. pose proof (Z.mod_pos_bound n 65536).
  destruct (Z.geb_spec (n mod 65536) 32768); lia.
Qed.

Lemma wrap16_small (v : Z) : is_int16 v -> wrap16 v = v.
Proof.
  unfold wrap16, is_int16. intro H.
  destruct (Z.geb_spec (v mod 65536) 32768);
    Z.div_mod_to_equations; lia.
Qed.

Lemma ToInt16_range (x : number) : is_int16 (ToInt16 x).
Proof.
  destruct x; cbn; try apply wrap16_range; unfold is_int16; lia.
Qed.

Lemma wrap16_le16 (v : Z) :
  is_int16 v -> wrap16 (v mod 256 + 256 * ((v / 256) mod 256)) = v.
Proof.
  unfold wrap16, is_int16. intro H.
  destruct (Z.geb_spec ((v mod 256 + 256 * ((v / 256) mod 256)) mod 65536) 32768);
    Z.div_mod_to_equations; lia.
Qed.

Lemma le16_bytes (vs : list Z) : List.Forall Base64.is_byte (flat_map le16 vs).
Proof.
  induction vs as [|v vs IH]; cbn [flat_map]; [constructor|].
  apply List.Forall_app; split; [|exact IH].
  unfold le16, Base64.is_byte.
  repeat constructor; apply Z.mod_pos_bound; lia.
Qed.

Lemma le16_length (vs : list Z) :
  length (flat_map le16 vs) = (2 * length vs)%nat.
Proof.
  induction vs as [|v vs IH]; cbn [flat_map]; [reflexivity|].
  rewrite length_app, IH. cbn [le16 length]. lia.
Qed.

Lemma le16_lookup (vs : list Z) (i : nat) (v : Z) :
  vs !! i = Some v ->
  flat_map le16 vs !! (2 * i)%nat = Some (v mod 256)
  /\ flat_map le16 vs !! (2 * i + 1)%nat = Some ((v / 256) mod 256).
Proof.
  revert i. induction vs as [|w vs IH]; intros i H; [discriminate|].
  destruct i as [|i].
  - cbn in H. injection H as ->. split; reflexivity.
  - cbn in H. destruct (IH i H) as [H0 H1].
    replace (2 * S i)%nat with (S (S (2 * i))) by lia.
    replace (S (S (2 * i)) + 1)%nat with (S (S (2 * i + 1))) by lia.
    split; assumption.
Qed.

(** Reading back the samples stored as bytes. *)
Lemma i16_get_le16 (vs : list Z) (i : nat) :
  List.Forall is_int16 vs ->
  i16_get {| i16_buffer := flat_map le16 vs |} i = vs !! i.
Proof.
  intro Hvs. unfold i16_get. cbn [i16_buffer].
  destruct (vs !! i) as [v|] eqn:E.
  - destruct (le16_lookup vs i v E) as [-> ->].
    f_equal. apply wrap16_le16.
    rewrite List.Forall_forall in Hvs. apply Hvs.
    apply list_elem_of_In. eapply list_elem_of_lookup_2; eauto.
  - apply lookup_ge_None in E.
    rewrite (proj2 (lookup_ge_None _ _)); [reflexivity|].
    rewrite le16_length. lia.
Qed.

(** The stores of the capture loop. *)
Lemma i16_set_loop (g : nat -> number) (k n : nat) :
  (k <= n)%nat ->
  i16_buffer (for_loop k (fun i a => i16_set a i (g i)) (Int16Array_new n))
  = flat_map le16 (map (fun i => ToInt16 (g i)) (seq 0 k))
    ++ repeat 0 (2 * (n - k)).
Proof.
  induction k as [|k IH]; intro H.
  - cbn. now rewrite Nat.sub_0_r.
  - rewrite for_loop_S. unfold i16_set at 1.
    assert (L : i16_length
                  (for_loop k (fun i a => i16_set a i (g i)) (Int16Array_new n))
                = n).
    { unfold i16_length. rewrite IH by lia.
      rewrite length_app, le16_length, length_map, length_seq, repeat_length.
      replace (2 * k + 2 * (n - k))%nat with (n * 2)%nat by lia.
      apply Nat.div_mul. lia. }
    rewrite L. destruct (Nat.ltb_spec k n); [|lia].
    cbn [i16_buffer]. rewrite IH by lia.
    replace (2 * (n - k))%nat with (S (S (2 * (n - S k)))) by lia.
    cbn [repeat].
    assert (Lp : length (flat_map le16 (map (fun i => ToInt16 (g i)) (seq 0 k)))
                 = (2 * k)%nat).
    { now rewrite le16_length, length_map, length_seq. }
    rewrite !insert_app_r_alt by (rewrite ?length_insert, ?length_app; lia).
    rewrite Lp.
    replace (2 * k + 1 - 2 * k)%nat with 1%nat by lia.
    rewrite Nat.sub_diag. cbn [insert list_insert].
    rewrite seq_S, map_app, flat_map_app. cbn [map flat_map Nat.add].
    rewrite <- app_assoc. reflexivity.
Qed.

(** *** The decoding loops *)

Lemma truncate_ratio (a c : nat) :
  (0 < c)%nat ->
  truncate (inject_Z (Z.of_nat a) / inject_Z (Z.of_nat c)) = Z.of_nat (a / c).
Proof.
  intro Hc. destruct c as [|c]; [lia|].
  unfold truncate, Qdiv, Qinv, inject_Z. cbn [Qnum Qden Z.of_nat Qmult].
  rewrite Z.mul_1_r, Pos.mul_1_l, Z.quot_div_nonneg by lia.
  change (Z.pos (Pos.of_succ_nat c)) with (Z.of_nat (S c)).
  symmetry. apply Nat2Z.inj_div.
Qed.

Lemma iterations_ratio (a c : nat) :
  (0 < c)%nat ->
  (a / c <= iterations (inject_Z (Z.of_nat a) / inject_Z (Z.of_nat c)))%nat.
Proof.
  intro Hc. unfold iterations.
  set (q := (inject_Z (Z.of_nat a) / inject_Z (Z.of_nat c))%Q).
  assert (H : Z.of_nat (a / c) <= Qceiling q).
  { rewrite <- (truncate_ratio a c Hc). fold q.
    assert (Hq : (0 <= q)%Q).
    { unfold q. apply Qle_shift_div_l.
      - change 0%Q with (inject_Z 0). rewrite <- Zlt_Qlt. lia.
      - rewrite Qmult_0_l. change 0%Q with (inject_Z 0). rewrite <- Zle_Qle. lia. }
    assert (Ht : truncate q = Qfloor q).
    { unfold truncate, Qfloor. destruct q as [n d]. cbn [Qnum Qden].
      apply Z.quot_div_nonneg; [|lia].
      unfold Qle in Hq. cbn in Hq. lia. }
    rewrite Ht. rewrite Zle_Qle.
    eapply Qle_trans; [apply Qfloor_le|apply Qle_ceiling]. }
  lia.
Qed.

Lemma frameCapacity_le (n c : nat) : (frameCapacity n c <= n / c)%nat.
Proof.
  unfold frameCapacity.
  pose proof (Z.mod_le (Z.of_nat (n / c)) 4294967296 ltac:(lia) ltac:(lia)).
  lia.
Qed.

Lemma frameCapacity_small (n c : nat) :
  Z.of_nat (n / c) < 4294967296 -> frameCapacity n c = (n / c)%nat.
Proof.
  intro H. unfold frameCapacity. rewrite Z.mod_small by lia. lia.
Qed.

Lemma channel_loop (h : nat -> list number -> list number)
    (hs : nat -> list number) (zeros : list number) (r : Q) (ch len k : nat) :
  (forall c, h c zeros = hs c) -> (k <= ch)%nat ->
  for_loop k
    (fun channel buffer =>
       setChannelData buffer channel (h channel (getChannelData buffer channel)))
    {| sampleRate := r; numberOfChannels := ch; frames := len;
       channelsData := repeat zeros ch |}
  = {| sampleRate := r; numberOfChannels := ch; frames := len;
       channelsData := map hs (seq 0 k) ++ repeat zeros (ch - k) |}.
Proof.
  intros Hh. induction k as [|k IH]; intro Hk.
  - cbn. now rewrite Nat.sub_0_r.
  - rewrite for_loop_S, IH by lia.
    unfold setChannelData, getChannelData.
    cbn [sampleRate numberOfChannels frames channelsData].
    f_equal.
    rewrite app_nth2 by (rewrite length_map, length_seq; lia).
    rewrite length_map, length_seq, Nat.sub_diag.
    replace (ch - k)%nat with (S (ch - S k)) by lia.
    cbn [repeat nth]. rewrite Hh.
    rewrite insert_app_r_alt by (rewrite length_map, length_seq; lia).
    rewrite length_map, length_seq, Nat.sub_diag. cbn [insert list_insert].
    rewrite seq_S, map_app, <- app_assoc. reflexivity.
Qed.

(** Closed form of [decodeAudioData]. *)
Theorem decodeAudioData_closed (data : Uint8Array) (ctx : AudioContext)
    (rate : Q) (numChannels : nat) :
  decodeAudioData data ctx rate numChannels
  = if negb (length (u8_buffer data) mod 2 =? 0)%nat then Throw RangeError
    else
      let d := {| i16_buffer := u8_buffer data |} in
      let len := frameCapacity (i16_length d) numChannels in
      if (1 <=? numChannels)%nat && (numChannels <=? maxChannels ctx)%nat
         && (1 <=? len)%nat && supportsRate ctx rate
      then Ok {| sampleRate := rate; numberOfChannels := numChannels;
                 frames := len;
                 channelsData :=
                   map (decodedChannel d numChannels len) (seq 0 numChannels) |}
      else Throw NotSupportedError.
Proof.
  unfold decodeAudioData, Int16Array_of_buffer.
  destruct (length (u8_buffer data) mod 2 =? 0)%nat; [|reflexivity].
  cbn [negb]. cbv zeta.
  destruct numChannels as [|n]; [reflexivity|].
  set (ch := S n). set (d := {| i16_buffer := u8_buffer data |}).
  unfold createBuffer.
  rewrite (truncate_ratio (i16_length d) ch) by (unfold ch; lia).
  fold (frameCapacity (i16_length d) ch).
  set (len := frameCapacity (i16_length d) ch).
  destruct ((1 <=? ch)%nat && (ch <=? maxChannels ctx)%nat
            && (1 <=? len)%nat && supportsRate ctx rate); [|reflexivity].
  f_equal.
  rewrite (channel_loop
             (fun channel channelData =>
                for_loop
                  (iterations (inject_Z (Z.of_nat (i16_length d))
                               / inject_Z (Z.of_nat ch)))
                  (fun i channelData =>
                     <[i := div_32768 (i16_get d (i * ch + channel))]>
                       channelData)
                  channelData)
             (decodedChannel d ch len) (repeat (Num 0) len)
             rate ch len ch); [|intro c|lia].
  - rewrite Nat.sub_diag, app_nil_r. reflexivity.
  - rewrite (for_loop_fill
               (fun i => div_32768 (i16_get d (i * ch + c)))).
    + rewrite repeat_length. reflexivity.
    + rewrite repeat_length. unfold len.
      pose proof (frameCapacity_le (i16_length d) ch).
      pose proof (iterations_ratio (i16_length d) ch ltac:(unfold ch; lia)).
      lia.
Qed.

(** ** The outbound encoder *)

Lemma string_of_list_ascii_length (l : list ascii) :
  String.length (string_of_list_ascii l) = length l.
Proof.
  induction l as [|c l IH]; cbn; [reflexivity|now rewrite IH].
Qed.

Lemma btoa_length (l : list Z) (s : string) :
  Base64.btoa l = Ok s -> String.length s = (4 * ((length l + 2) / 3))%nat.
Proof.
  unfold Base64.btoa. destruct (forallb Base64.is_byteb l); [|discriminate].
  intro H. injection H as <-.
  rewrite string_of_list_ascii_length, length_app, length_map.
  rewrite Base64Facts.sextets_length, Base64Facts.padding_length.
  pose proof (Nat.div_mod_eq (length l) 3) as E.
  pose proof (Nat.mod_upper_bound (length l) 3 ltac:(lia)) as B.
  set (m := (length l mod 3)%nat) in *. set (k := (length l / 3)%nat) in *.
  replace (length l + 2)%nat with (m + 2 + k * 3)%nat by lia.
  rewrite Nat.div_add by lia.
  destruct m as [|[|[|m]]]; cbn; lia.
Qed.

(** The PCM bytes that the capture loop leaves in the buffer. *)
Lemma capture_loop (input : list number) :
  i16_buffer
    (for_loop (length input)
       (fun i int16 => i16_set int16 i (times_32768 (nth i input NaN)))
       (Int16Array_new (length input)))
  = flat_map le16 (map pcm input).
Proof.
  rewrite (i16_set_loop (fun i => times_32768 (nth i input NaN))) by lia.
  rewrite Nat.sub_diag, app_nil_r. f_equal.
  rewrite <- (map_nth_seq input NaN) at 2. rewrite map_map. reflexivity.
Qed.

Lemma onaudioprocess_closed (input : list number) :
  exists text,
    onaudioprocess input
    = Ok {| media_data := text; media_mimeType := "audio/pcm;rate=16000" |}
    /\ Base64.btoa (flat_map le16 (map pcm input)) = Ok text
    /\ Base64.atob text = Ok (flat_map le16 (map pcm input)).
Proof.
  destruct (Base64Facts.atob_btoa (flat_map le16 (map pcm input))
              (le16_bytes _)) as (text & Hb & Ha).
  exists text. unfold onaudioprocess.
  rewrite capture_loop, encode_of_buffer by apply le16_bytes.
  rewrite Hb. auto.
Qed.

(** C7.  For every buffer of [n] float samples the outbound encoder yields
    radix-64 text without line breaks ([4 * ceil(2n/3)] characters) that
    stands for exactly [2n] bytes; bytes [2i] and [2i+1] are the low and the
    high byte of the 16-bit value of sample [i], which is the sample times
    32768, truncated and reduced modulo [2^16] into the signed range, with no
    clipping. *)
Theorem onaudioprocess_pcm16 (input : list number) :
  exists text bytes,
    onaudioprocess input
    = Ok {| media_data := text; media_mimeType := "audio/pcm;rate=16000" |}
    /\ String.length text = (4 * ((2 * length input + 2) / 3))%nat
    /\ decode text = Ok (Uint8Array_of_buffer bytes)
    /\ length bytes = (2 * length input)%nat
    /\ forall i x, input !! i = Some x ->
         bytes !! (2 * i)%nat = Some (pcm x mod 256)
         /\ bytes !! (2 * i + 1)%nat = Some ((pcm x / 256) mod 256)
         /\ is_int16 (pcm x)
         /\ match x with
            | Num q => (pcm x - truncate (q * 32768)) mod 65536 = 0
            | _ => pcm x = 0
            end.
Proof.
  destruct (onaudioprocess_closed input) as (text & Hon & Hb & Ha).
  exists text, (flat_map le16 (map pcm input)).
  split; [exact Hon|]. split.
  { rewrite (btoa_length _ _ Hb), le16_length, length_map. reflexivity. }
  split; [apply decode_atob; [exact Ha|apply le16_bytes]|].
  split; [now rewrite le16_length, length_map|].
  intros i x Hx.
  assert (Hm : map pcm input !! i = Some (pcm x)) by (now rewrite list_lookup_fmap, Hx).
  destruct (le16_lookup _ _ _ Hm) as [H0 H1].
  repeat split; try assumption; try apply ToInt16_range.
  destruct x as [q| | |]; try reflexivity.
  unfold pcm, times_32768, ToInt16, wrap16.
  set (t := truncate (q * 32768)).
  destruct (Z.geb_spec (t mod 65536) 32768);
    Z.div_mod_to_equations; lia.
Qed.

(** Samples outside [[-1, 1)] wrap around instead of being clipped. *)
Example pcm_wraps : pcm (Num (3 # 2)) = -16384 /\ pcm (Num 1) = -32768.
Proof. split; reflexivity. Qed.

(** ** Encode, then decode *)

Lemma supportsRate_24000 (ctx : AudioContext) : supportsRate ctx 24000 = true.
Proof. reflexivity. Qed.

(** Decoding the PCM bytes of [vs] as one channel gives the samples divided
    by 32768. *)
Lemma decodeAudioData_pcm (ctx : AudioContext) (vs : list Z) :
  List.Forall is_int16 vs ->
  (1 <= length vs)%nat -> Z.of_nat (length vs) < 4294967296 ->
  decodeAudioData (Uint8Array_of_buffer (flat_map le16 vs)) ctx 24000 1
  = Ok {| sampleRate := 24000; numberOfChannels := 1; frames := length vs;
          channelsData := [map (fun v => Num (normalised v)) vs] |}.
Proof.
  intros Hvs H1 H2. rewrite decodeAudioData_closed.
  cbn [Uint8Array_of_buffer u8_buffer].
  rewrite le16_length.
  replace (2 * length vs)%nat with (length vs * 2)%nat by lia.
  rewrite Nat.Div0.mod_mul. cbn [Nat.eqb negb]. cbv zeta.
  unfold i16_length. cbn [i16_buffer].
  rewrite le16_length.
  replace (2 * length vs)%nat with (length vs * 2)%nat by lia.
  rewrite Nat.div_mul by lia.
  rewrite frameCapacity_small by (rewrite Nat.div_1_r; lia).
  rewrite Nat.div_1_r, supportsRate_24000.
  destruct (Nat.leb_spec 1 (length vs)); [|lia].
  cbn [Nat.leb maxChannels Nat.add andb seq map]. do 2 f_equal.
  apply (f_equal (fun c => [c])).
  unfold decodedChannel.
  rewrite <- (map_nth_seq vs 0) at 2. rewrite map_map.
  apply map_ext_in. intros i Hi. apply in_seq in Hi.
  rewrite i16_get_le16 by exact Hvs.
  replace (i * 1 + 0)%nat with i by lia.
  destruct (lookup_lt_is_Some_2 vs i ltac:(lia)) as [v Hv].
  rewrite Hv, (nth_lookup_Some vs i 0 v Hv). reflexivity.
Qed.

Lemma pcm_range (input : list number) : List.Forall is_int16 (map pcm input).
Proof.
  apply List.Forall_map, List.Forall_forall. intros x _. apply ToInt16_range.
Qed.

(** Closed form of the round trip. *)
Lemma roundTrip_closed (ctx : AudioContext) (input : list number) :
  (1 <= length input)%nat -> Z.of_nat (length input) < 4294967296 ->
  roundTrip ctx input
  = Ok {| sampleRate := 24000; numberOfChannels := 1; frames := length input;
          channelsData := [map (fun x => Num (normalised (pcm x))) input] |}.
Proof.
  intros H1 H2. unfold roundTrip.
  destruct (onaudioprocess_closed input) as (text & -> & _ & Ha).
  cbn [media_data].
  rewrite (decode_atob _ _ Ha (le16_bytes _)).
  rewrite decodeAudioData_pcm by (rewrite ?length_map; auto using pcm_range).
  rewrite length_map, map_map. reflexivity.
Qed.

(** Truncation of a sample in [[-1, 1)] scaled by 32768 stays in the 16-bit
    range and is less than one unit away from the scaled sample. *)
Lemma truncate_scaled (q : Q) :
  (-1 <= q)%Q -> (q < 1)%Q ->
  is_int16 (truncate (q * 32768))
  /\ (Qabs (q - normalised (truncate (q * 32768))) <= 1 # 32768)%Q.
Proof.
  intros Hlo Hhi. destruct q as [n d].
  unfold Qle in Hlo. unfold Qlt in Hhi. cbn in Hlo, Hhi.
  unfold truncate, Qmult. cbn [Qnum Qden].
  rewrite Pos.mul_1_r.
  set (t := Z.quot (n * 32768) (Z.pos d)).
  assert (Ht : n * 32768 = Z.pos d * t + Z.rem (n * 32768) (Z.pos d))
    by apply Z.quot_rem'.
  set (r := Z.rem (n * 32768) (Z.pos d)) in *.
  assert (Hr : Z.abs r < Z.pos d).
  { pose proof (Z.rem_bound_abs (n * 32768) (Z.pos d) ltac:(lia)). lia. }
  assert (Hs : 0 <= r * (n * 32768)).
  { pose proof (Z.rem_sign_mul (n * 32768) (Z.pos d) ltac:(lia)). fold r in H.
    lia. }
  assert (Hrange : is_int16 t).
  { unfold is_int16. split; nia. }
  split; [exact Hrange|].
  apply Qabs_Qle_condition.
  unfold normalised, Qdiv, Qinv, Qminus, Qopp, Qplus, Qmult, Qle, inject_Z.
  cbn [Qnum Qden].
  split; cbn; nia.
Qed.

(** C1, as amended.  For every buffer of 1 to 100,000 samples with values in
    [[-1, 1)], encoding then decoding gives one channel with as many samples,
    each within [1/32768] of the original. *)
Theorem roundTrip_within_quantum (ctx : AudioContext) (samples : list Q) :
  1 <= Z.of_nat (length samples) <= 100000 ->
  List.Forall (fun q => -1 <= q /\ q < 1)%Q samples ->
  exists buffer decoded,
    roundTrip ctx (map Num samples) = Ok buffer
    /\ channelsData buffer = [map Num decoded]
    /\ frames buffer = length samples
    /\ Forall2 within_quantum samples decoded.
Proof.
  intros [H1 H2] Hs.
  eexists. exists (map (fun q => normalised (pcm (Num q))) samples).
  rewrite roundTrip_closed by (rewrite length_map; lia).
  split; [reflexivity|]. cbn [channelsData frames].
  split; [now rewrite !map_map|].
  split; [apply length_map|].
  clear H1 H2.
  induction Hs as [|q samples [Hlo Hhi] _ IH]; cbn [map]; constructor.
  - destruct (truncate_scaled q Hlo Hhi) as [Hr Hq].
    unfold within_quantum, pcm, times_32768, ToInt16.
    now rewrite (wrap16_small _ Hr).
  - apply IH.
Qed.

Lemma roundTrip_within_quantum_witness :
  1 <= Z.of_nat (length fourSamples) <= 100000
  /\ List.Forall (fun q => -1 <= q /\ q < 1)%Q fourSamples
  /\ exists buffer decoded,
       roundTrip std_ctx (map Num fourSamples) = Ok buffer
       /\ channelsData buffer = [map Num decoded]
       /\ frames buffer = length fourSamples
       /\ Forall2 within_quantum fourSamples decoded.
Proof.
  assert (H1 : 1 <= Z.of_nat (length fourSamples) <= 100000)
    by (cbn [length fourSamples]; lia).
  assert (H2 : List.Forall (fun q => -1 <= q /\ q < 1)%Q fourSamples)
    by (repeat constructor; unfold Qle, Qlt; cbn; lia).
  split; [exact H1|]. split; [exact H2|].
  exact (roundTrip_within_quantum std_ctx fourSamples H1 H2).
Defined.

(** C1 fails at full scale: the sample [1.0] lies in [[-1, 1]], is stored as
    [-32768] and comes back as [-1.0], two units away. *)
Lemma roundTrip_full_scale :
  1 <= Z.of_nat (length [1%Q]) <= 100000
  /\ List.Forall (fun q => -1 <= q /\ q <= 1)%Q [1%Q]
  /\ roundTrip std_ctx (map Num [1%Q])
     = Ok {| sampleRate := 24000; numberOfChannels := 1; frames := 1;
             channelsData := [map Num [normalised (-32768)]] |}
  /\ ~ Forall2 within_quantum [1%Q] [normalised (-32768)].
Proof.
  split; [cbn; lia|].
  split; [repeat constructor; unfold Qle; cbn; lia|].
  split; [reflexivity|].
  intro H. inversion H as [|? ? ? ? Hq _]; subst.
  unfold within_quantum in Hq. vm_compute in Hq. apply Hq. reflexivity.
Qed.

(** ** Outcomes of [decodeAudioData] *)

(** C8, as amended.  A buffer of odd byte length makes [decodeAudioData]
    raise [RangeError].  A buffer of even byte length that holds at least one
    frame for a channel count from 1 to 32, at a rate from 8000 to 96000 Hz,
    is decoded without an exception, whether or not the channel count
    divides the sample count: the result has [samples / channels] frames
    (rounded down, so the samples of an incomplete last frame are dropped),
    each channel de-interleaved and divided by 32768. *)
Theorem decodeAudioData_outcome (data : Uint8Array) (ctx : AudioContext)
    (rate : Q) (numChannels : nat) :
  ((length (u8_buffer data) mod 2 = 1)%nat ->
   decodeAudioData data ctx rate numChannels = Throw RangeError)
  /\ ((length (u8_buffer data) mod 2 = 0)%nat ->
      (1 <= numChannels <= 32)%nat ->
      (8000 <= rate)%Q -> (rate <= 96000)%Q ->
      1 <= Z.of_nat (length (u8_buffer data) / 2 / numChannels) < 4294967296 ->
      exists buffer,
        decodeAudioData data ctx rate numChannels = Ok buffer
        /\ frames buffer = (length (u8_buffer data) / 2 / numChannels)%nat
        /\ numberOfChannels buffer = numChannels
        /\ channelsData buffer
           = map (decodedChannel {| i16_buffer := u8_buffer data |}
                    numChannels (frames buffer))
               (seq 0 numChannels)).
Proof.
  rewrite decodeAudioData_closed. split.
  - intros ->. reflexivity.
  - intros -> [Hc1 Hc2] Hr1 Hr2 [Hf1 Hf2]. cbn [Nat.eqb negb]. cbv zeta.
    unfold i16_length. cbn [i16_buffer].
    rewrite frameCapacity_small by lia.
    assert (Hrate : supportsRate ctx rate = true).
    { unfold supportsRate.
      rewrite (proj2 (Qle_bool_iff 8000 rate) Hr1).
      rewrite (proj2 (Qle_bool_iff rate 96000) Hr2). reflexivity. }
    rewrite Hrate.
    destruct (Nat.leb_spec 1 numChannels); [|lia].
    destruct (Nat.leb_spec numChannels (maxChannels ctx));
      [|unfold maxChannels in *; lia].
    destruct (Nat.leb_spec 1 (length (u8_buffer data) / 2 / numChannels)); [|lia].
    cbn [andb]. eexists. split; [reflexivity|]. cbn. auto.
Qed.

Lemma decodeAudioData_outcome_witness :
  (length (u8_buffer threeBytes) mod 2 = 1)%nat
  /\ decodeAudioData threeBytes std_ctx 24000 1 = Throw RangeError
  /\ (length (u8_buffer threeSamples) mod 2 = 0)%nat
  /\ (1 <= 2 <= 32)%nat
  /\ (8000 <= 24000)%Q /\ (24000 <= 96000)%Q
  /\ 1 <= Z.of_nat (length (u8_buffer threeSamples) / 2 / 2) < 4294967296
  /\ exists buffer,
       decodeAudioData threeSamples std_ctx 24000 2 = Ok buffer
       /\ frames buffer = (length (u8_buffer threeSamples) / 2 / 2)%nat
       /\ numberOfChannels buffer = 2%nat
       /\ channelsData buffer
          = map (decodedChannel {| i16_buffer := u8_buffer threeSamples |}
                   2 (frames buffer))
              (seq 0 2).
Proof.
  assert (H1 : (length (u8_buffer threeBytes) mod 2 = 1)%nat) by reflexivity.
  assert (H2 : (length (u8_buffer threeSamples) mod 2 = 0)%nat) by reflexivity.
  assert (H3 : (1 <= 2 <= 32)%nat) by lia.
  assert (H4 : (8000 <= 24000)%Q) by (unfold Qle; cbn; lia).
  assert (H5 : (24000 <= 96000)%Q) by (unfold Qle; cbn; lia).
  assert (H6 : 1 <= Z.of_nat (length (u8_buffer threeSamples) / 2 / 2)
               < 4294967296) by (cbn; lia).
  split; [exact H1|].
  split; [exact (proj1 (decodeAudioData_outcome threeBytes std_ctx 24000 1) H1)|].
  repeat (split; [assumption|]).
  exact (proj2 (decodeAudioData_outcome threeSamples std_ctx 24000 2)
           H2 H3 H4 H5 H6).
Defined.

(** Three samples in two channels: one frame, the third sample is dropped. *)
Example decodeAudioData_truncates :
  decodeAudioData threeSamples std_ctx 24000 2
  = Ok {| sampleRate := 24000; numberOfChannels := 2; frames := 1;
          channelsData := [[Num (16384 # 32768)]; [Num (-8192 # 32768)]] |}.
Proof. reflexivity. Qed.

(** C8 fails on both counts: an odd byte length raises [RangeError] instead
    of giving a truncated result, and the empty buffer, whose byte length is
    even and a multiple of [2 * channelCount], raises [NotSupportedError]. *)
Lemma decodeAudioData_raises :
  (length (u8_buffer threeBytes) mod 2 = 1)%nat
  /\ is_ok (decodeAudioData threeBytes std_ctx 24000 1) = false
  /\ (length (u8_buffer (Uint8Array_new 0)) mod (2 * 1) = 0)%nat
  /\ is_ok (decodeAudioData (Uint8Array_new 0) std_ctx 24000 1) = false.
Proof. repeat split. Qed.

(** ** Views of part of a buffer *)

(** C10.  [decodeAudioData] reads the whole buffer under its argument, not
    the bytes of the view: the outcome is that of a view of the whole buffer,
    and the frame count of the result comes from the byte length of the
    whole buffer, divided by 2 and by the channel count. *)
Theorem decodeAudioData_whole_buffer (data : Uint8Array) (ctx : AudioContext)
    (rate : Q) (numChannels : nat) :
  decodeAudioData data ctx rate numChannels
  = decodeAudioData (Uint8Array_of_buffer (u8_buffer data)) ctx rate numChannels
  /\ forall buffer,
       decodeAudioData data ctx rate numChannels = Ok buffer ->
       frames buffer
       = frameCapacity (length (u8_buffer data) / 2) numChannels
       /\ (Z.of_nat (length (u8_buffer data) / 2 / numChannels) < 4294967296 ->
           frames buffer = (length (u8_buffer data) / 2 / numChannels)%nat)
       /\ channelsData buffer
          = map (decodedChannel {| i16_buffer := u8_buffer data |}
                   numChannels (frames buffer))
              (seq 0 numChannels).
Proof.
  split; [reflexivity|].
  intro buffer. rewrite decodeAudioData_closed.
  destruct (negb (length (u8_buffer data) mod 2 =? 0)%nat); [discriminate|].
  cbv zeta. unfold i16_length. cbn [i16_buffer].
  destruct (_ && _ && _ && _); [|discriminate].
  intro H. injection H as <-. cbn [frames channelsData].
  repeat split. intro Hs. now apply frameCapacity_small.
Qed.

Lemma decodeAudioData_whole_buffer_witness :
  decodeAudioData partialView std_ctx 24000 1
  = Ok {| sampleRate := 24000; numberOfChannels := 1; frames := 4;
          channelsData := [[Num (16384 # 32768); Num (-8192 # 32768);
                            Num (-32768 # 32768); Num (32767 # 32768)]] |}
  /\ frames {| sampleRate := 24000; numberOfChannels := 1; frames := 4;
               channelsData := [[Num (16384 # 32768); Num (-8192 # 32768);
                                 Num (-32768 # 32768); Num (32767 # 32768)]] |}
     = (length (u8_buffer partialView) / 2 / 1)%nat.
Proof.
  assert (H : decodeAudioData partialView std_ctx 24000 1
              = Ok {| sampleRate := 24000; numberOfChannels := 1; frames := 4;
                      channelsData := [[Num (16384 # 32768); Num (-8192 # 32768);
                                        Num (-32768 # 32768);
                                        Num (32767 # 32768)]] |})
    by reflexivity.
  split; [exact H|].
  apply (proj2 (decodeAudioData_whole_buffer partialView std_ctx 24000 1) _ H).
  cbn. lia.
Defined.

(** ** The playback scheduler *)

Lemma schedule_closed (currentTime : Q) (buffer : AudioBuffer) (a : Anchor) :
  (0 <= currentTime)%Q ->
  schedule currentTime buffer a
  = (Ok (Qmax (nextStartTimeRef a) currentTime), scheduled currentTime buffer a).
Proof.
  intro H0.
  assert (Hw : Qle_bool 0 (Qmax (nextStartTimeRef a) currentTime) = true).
  { apply Qle_bool_iff. eapply Qle_trans; [exact H0|]. apply Q.le_max_r. }
  unfold schedule, scheduled, bind, gets, modify, ret, throw.
  cbn [nextStartTimeRef setNextStartTime setNodes setSources nodes sourcesRef
       isActive isConnecting audioContextRef streamRef].
  rewrite Hw.
  cbn [nextStartTimeRef setNextStartTime setNodes setSources nodes sourcesRef
       isActive isConnecting audioContextRef streamRef].
  rewrite insert_app_r_alt by lia.
  rewrite Nat.sub_diag. reflexivity.
Qed.

Lemma Qmax_late (cursor currentTime : Q) :
  (cursor < currentTime)%Q -> Qmax cursor currentTime = currentTime.
Proof.
  intro H. unfold Qmax, GenericMinMax.gmax.
  rewrite (proj1 (Qlt_alt cursor currentTime) H). reflexivity.
Qed.


Lemma scheduleAll_cons (t : Q) (b : AudioBuffer)
    (rest : list (Q * AudioBuffer)) (a : Anchor) :
  scheduleAll ((t, b) :: rest) a
  = match schedule t b a with
    | (Ok when, a1) =>
        match scheduleAll rest a1 with
        | (Ok whens, a2) => (Ok (when :: whens), a2)
        | (Throw e, a2) => (Throw e, a2)
        end
    | (Throw e, a1) => (Throw e, a1)
    end.
Proof. reflexivity. Qed.






(** ** Any arrivals: start times and nodes *)

Lemma scheduleAll_startTimes (arrivals : list (Q * AudioBuffer)) (a : Anchor) :
  List.Forall (fun tb => 0 <= fst tb)%Q arrivals ->
  fst (scheduleAll arrivals a) = Ok (startTimes (nextStartTimeRef a) arrivals).
Proof.
  revert a. induction arrivals as [|[t b] rest IH]; intros a H; [reflexivity|].
  inversion_clear H as [|? ? H0 Hrest]. cbn [fst] in H0.
  rewrite scheduleAll_cons, (schedule_closed t b a H0).
  specialize (IH (scheduled t b a) Hrest).
  cbn [scheduled nextStartTimeRef] in IH.
  destruct (scheduleAll rest (scheduled t b a)) as [[whens|e] a'];
    cbn [fst] in *; [|discriminate].
  injection IH as ->. reflexivity.
Qed.

Lemma startTimes_length (cursor : Q) (arrivals : list (Q * AudioBuffer)) :
  length (startTimes cursor arrivals) = length arrivals.
Proof.
  revert cursor. induction arrivals as [|[t b] rest IH]; intro cursor;
    cbn [startTimes length]; [reflexivity|]. now rewrite IH.
Qed.

Lemma startTimes_spaced (arrivals : list (Q * AudioBuffer)) (cursor : Q)
    (i : nat) (s t : Q) (b : AudioBuffer) :
  startTimes cursor arrivals !! i = Some s ->
  arrivals !! i = Some (t, b) ->
  (t <= s)%Q
  /\ (i = 0%nat -> (cursor <= s)%Q)
  /\ forall s', startTimes cursor arrivals !! S i = Some s' ->
       (Binary64.fadd s (duration b) <= s')%Q.
Proof.
  revert cursor i. induction arrivals as [|[t0 b0] rest IH]; intros cursor i Hs Ha;
    [discriminate|].
  destruct i as [|i].
  - cbn in Hs, Ha. injection Hs as <-. injection Ha as -> ->.
    split; [apply Q.le_max_r|]. split; [intros _; apply Q.le_max_l|].
    intros s' Hs'. cbn [startTimes] in Hs'.
    destruct rest as [|[t1 b1] rest]; [discriminate|].
    cbn in Hs'. injection Hs' as <-. apply Q.le_max_l.
  - cbn [startTimes] in *. cbn in Hs, Ha.
    destruct (IH _ i Hs Ha) as (H1 & _ & H3).
    split; [exact H1|]. split; [discriminate|]. exact H3.
Qed.

(** What is in the state stays there while more buffers are scheduled. *)
Lemma scheduleAll_keeps (arrivals : list (Q * AudioBuffer)) (a : Anchor)
    (j : nat) :
  List.Forall (fun tb => 0 <= fst tb)%Q arrivals ->
  (forall n, nodes a !! j = Some n ->
             nodes (snd (scheduleAll arrivals a)) !! j = Some n)
  /\ (List.In j (sourcesRef a) ->
      List.In j (sourcesRef (snd (scheduleAll arrivals a)))).
Proof.
  revert a. induction arrivals as [|[t b] rest IH]; intros a H;
    [split; auto|].
  inversion_clear H as [|? ? H0 Hrest]. cbn [fst] in H0.
  rewrite scheduleAll_cons, (schedule_closed t b a H0).
  destruct (IH (scheduled t b a) Hrest) as [IHn IHs].
  destruct (scheduleAll rest (scheduled t b a)) as [[whens|e] a'];
    cbn [fst snd] in *.
  - split.
    + intros n Hn. apply IHn. cbn [scheduled nodes].
      now apply lookup_app_l_Some.
    + intro Hin. apply IHs. cbn [scheduled sourcesRef].
      destruct (bool_decide _); [exact Hin|]. apply List.in_or_app. now left.
  - split.
    + intros n Hn. apply IHn. cbn [scheduled nodes].
      now apply lookup_app_l_Some.
    + intro Hin. apply IHs. cbn [scheduled sourcesRef].
      destruct (bool_decide _); [exact Hin|]. apply List.in_or_app. now left.
Qed.

(** Buffer [i] of the arrivals becomes node [length (nodes a) + i], started
    at its start time, and a member of the set of sources. *)
Lemma scheduleAll_nodes (arrivals : list (Q * AudioBuffer)) (a : Anchor)
    (i : nat) (s t : Q) (b : AudioBuffer) :
  List.Forall (fun tb => 0 <= fst tb)%Q arrivals ->
  startTimes (nextStartTimeRef a) arrivals !! i = Some s ->
  arrivals !! i = Some (t, b) ->
  nodes (snd (scheduleAll arrivals a)) !! (length (nodes a) + i)%nat
  = Some {| node_buffer := b; node_started := Some s; node_stopped := false |}
  /\ List.In (length (nodes a) + i)%nat
       (sourcesRef (snd (scheduleAll arrivals a))).
Proof.
  revert a i. induction arrivals as [|[t0 b0] rest IH]; intros a i H Hs Ha;
    [discriminate|].
  inversion_clear H as [|? ? H0 Hrest]. cbn [fst] in H0.
  rewrite scheduleAll_cons, (schedule_closed t0 b0 a H0).
  pose proof (scheduleAll_keeps rest (scheduled t0 b0 a) (length (nodes a))
                Hrest) as [Kn Ks].
  specialize (IH (scheduled t0 b0 a)).
  assert (Hlen : length (nodes (scheduled t0 b0 a)) = S (length (nodes a))).
  { cbn [scheduled nodes]. rewrite length_app. cbn. lia. }
  rewrite Hlen in IH. cbn [scheduled nextStartTimeRef] in IH.
  assert (Final :
    nodes (snd (scheduleAll rest (scheduled t0 b0 a)))
      !! (length (nodes a) + i)%nat
    = Some {| node_buffer := b; node_started := Some s;
              node_stopped := false |}
    /\ List.In (length (nodes a) + i)%nat
         (sourcesRef (snd (scheduleAll rest (scheduled t0 b0 a))))).
  { destruct i as [|i].
    - cbn in Hs, Ha. injection Hs as <-. injection Ha as -> ->.
      rewrite Nat.add_0_r. split.
      + apply Kn. cbn [scheduled nodes].
        rewrite lookup_app_r, Nat.sub_diag by lia. reflexivity.
      + apply Ks. cbn [scheduled sourcesRef].
        destruct (bool_decide _) eqn:Eb.
        * apply bool_decide_eq_true in Eb. now apply list_elem_of_In.
        * apply List.in_or_app. right. now left.
    - cbn in Hs, Ha. rewrite Nat.add_succ_r.
      exact (IH i Hrest Hs Ha). }
  destruct (scheduleAll rest (scheduled t0 b0 a)) as [[whens|e] a'];
    exact Final.
Qed.

(** ** Buffers that arrive ahead of the clock *)




(** The sums are the machine's.  Three buffers of 2400, 4800 and 2400 frames
    (0.1 s, 0.2 s and 0.1 s) that arrive at clock 0 with the cursor at 0
    start at 0, 0.1 and 0.30000000000000004, the double that [0.1 + 0.2]
    gives, which is neither the double nearest to 0.3 nor the exact sum of
    the two durations; the cursor ends at 0.4. *)
Example tenths_start :
  fst (scheduleAll tenths initialAnchor)
  = Ok [0%Q; (7205759403792794 # 72057594037927936)%Q;
        (5404319552844596 # 18014398509481984)%Q]
  /\ ~ (5404319552844596 # 18014398509481984
        == Binary64.round64 (3 # 10))%Q
  /\ ~ (5404319552844596 # 18014398509481984
        == duration (silence 2400) + duration (silence 4800))%Q
  /\ (nextStartTimeRef (snd (scheduleAll tenths initialAnchor))
      == Binary64.round64 (4 # 10))%Q.
Proof. vm_compute. repeat split; discriminate. Qed.

(** C3.  A buffer is never started before the reading of the output clock at
    which it is scheduled, and one that arrives after the cursor has passed
    starts exactly at that reading. *)
Theorem late_arrival_clamped (a : Anchor) (currentTime : Q)
    (buffer : AudioBuffer) :
  (0 <= currentTime)%Q ->
  exists when,
    fst (schedule currentTime buffer a) = Ok when
    /\ nodes (snd (schedule currentTime buffer a)) !! length (nodes a)
       = Some {| node_buffer := buffer; node_started := Some when;
                 node_stopped := false |}
    /\ (currentTime <= when)%Q
    /\ ((nextStartTimeRef a < currentTime)%Q -> when = currentTime).
Proof.
  intro H0. rewrite (schedule_closed currentTime buffer a H0).
  eexists. split; [reflexivity|]. cbn [snd scheduled nodes].
  split; [|split].
  - rewrite lookup_app_r, Nat.sub_diag by lia. reflexivity.
  - apply Q.le_max_r.
  - apply Qmax_late.
Qed.

Lemma late_arrival_clamped_witness :
  (0 <= 5)%Q
  /\ (nextStartTimeRef cursorPassed < 5)%Q
  /\ exists when,
       fst (schedule 5 (silence 2400) cursorPassed) = Ok when
       /\ nodes (snd (schedule 5 (silence 2400) cursorPassed))
          !! length (nodes cursorPassed)
          = Some {| node_buffer := silence 2400; node_started := Some when;
                    node_stopped := false |}
       /\ (5 <= when)%Q
       /\ ((nextStartTimeRef cursorPassed < 5)%Q -> when = 5%Q).
Proof.
  assert (H0 : (0 <= 5)%Q) by (unfold Qle; cbn; lia).
  assert (H1 : (nextStartTimeRef cursorPassed < 5)%Q) by reflexivity.
  split; [exact H0|]. split; [exact H1|].
  exact (late_arrival_clamped cursorPassed 5 (silence 2400) H0).
Defined.

(** ** Stopping the sources *)

Lemma stopSource_started (s : nat) (a : Anchor) (n : SourceNode) (t : Q) :
  nodes a !! s = Some n -> node_started n = Some t ->
  stopSource s a = (Ok tt, setNodes (<[s := markStopped n]> (nodes a)) a).
Proof.
  intros Hn Ht. unfold stopSource, bind, gets, lift, modify, stopNode.
  rewrite Hn. unfold markStopped.
  destruct (node_started n); [reflexivity|discriminate].
Qed.

Lemma startedIn_insert (ns : list SourceNode) (s s' : nat) (n : SourceNode) :
  ns !! s = Some n -> startedIn ns s' ->
  startedIn (<[s := markStopped n]> ns) s'.
Proof.
  intros Hn (n' & t & Hn' & Ht). unfold startedIn.
  destruct (Nat.eq_dec s s') as [->|Hne].
  - exists (markStopped n), t.
    rewrite list_lookup_insert_eq by (eapply lookup_lt_Some; eauto).
    split; [reflexivity|]. cbn. congruence.
  - exists n', t. now rewrite list_lookup_insert_ne.
Qed.

Lemma stopAll_nil (ns : list SourceNode) : stopAll [] ns = ns.
Proof.
  unfold stopAll. apply list_eq. intro i.
  rewrite list_lookup_imap. destruct (ns !! i); reflexivity.
Qed.

Lemma stopAll_cons (s : nat) (l : list nat) (ns : list SourceNode)
    (n : SourceNode) :
  ns !! s = Some n ->
  stopAll l (<[s := markStopped n]> ns) = stopAll (s :: l) ns.
Proof.
  intro Hn. unfold stopAll. apply list_eq. intro i.
  rewrite !list_lookup_imap.
  destruct (Nat.eq_dec s i) as [->|Hne].
  - rewrite list_lookup_insert_eq by (eapply lookup_lt_Some; eauto).
    rewrite Hn. cbn.
    rewrite (bool_decide_eq_true_2 (i ∈ i :: l)) by (left).
    destruct (bool_decide (i ∈ l)); reflexivity.
  - rewrite list_lookup_insert_ne by exact Hne.
    destruct (ns !! i) as [n'|]; [|reflexivity]. cbn.
    assert (E : bool_decide (i ∈ s :: l) = bool_decide (i ∈ l)).
    { apply bool_decide_ext. rewrite elem_of_cons. intuition congruence. }
    now rewrite E.
Qed.

Lemma setNodes_same (a : Anchor) : setNodes (nodes a) a = a.
Proof. destruct a. reflexivity. Qed.

(** Stopping started sources never throws. *)
Lemma forEach_stopSource (l : list nat) (a : Anchor) :
  List.Forall (startedIn (nodes a)) l ->
  forEach l stopSource a = (Ok tt, setNodes (stopAll l (nodes a)) a).
Proof.
  revert a. induction l as [|s l IH]; intros a H.
  - cbn. now rewrite stopAll_nil, setNodes_same.
  - inversion_clear H as [|? ? (n & t & Hn & Ht) Hl].
    cbn [forEach]. unfold bind.
    rewrite (stopSource_started s a n t Hn Ht).
    rewrite IH.
    + cbn [nodes setNodes]. now rewrite (stopAll_cons s l _ n Hn).
    + cbn [nodes setNodes]. eapply List.Forall_impl; [|exact Hl].
      intros s'. now apply startedIn_insert.
Qed.

(** In any state, stopping the sources changes nothing but the nodes. *)
Lemma forEach_stopSource_frame (l : list nat) (a : Anchor) :
  exists ns, snd (forEach l stopSource a) = setNodes ns a.
Proof.
  revert a. induction l as [|s l IH]; intro a.
  - exists (nodes a). cbn. now rewrite setNodes_same.
  - cbn [forEach]. unfold bind.
    assert (Hs : exists ns, snd (stopSource s a) = setNodes ns a).
    { unfold stopSource, bind, gets, lift, modify, throw.
      destruct (nodes a !! s) as [n|]; [|exists (nodes a); cbn; now rewrite setNodes_same].
      destruct (stopNode n); cbn; [eauto|].
      exists (nodes a). now rewrite setNodes_same. }
    destruct Hs as [ns1 Hs1].
    destruct (stopSource s a) as [[[]|e] a1]; cbn [snd] in *; subst a1.
    + destruct (IH (setNodes ns1 a)) as [ns2 H2]. exists ns2.
      now rewrite H2.
    + eauto.
Qed.

Lemma stopAllSources_frame (a : Anchor) :
  forall r a', stopAllSources a = (Ok r, a') ->
  exists ns, a' = setSources [] (setNodes ns a).
Proof.
  intros r a'. unfold stopAllSources, bind, gets, modify.
  destruct (forEach_stopSource_frame (sourcesRef a) a) as [ns Hns].
  destruct (forEach (sourcesRef a) stopSource a) as [[[]|e] a1];
    cbn [snd] in Hns; subst a1; [|discriminate].
  intro H. injection H as _ <-. eauto.
Qed.

Lemma stopAllSources_started (a : Anchor) :
  sourcesStarted a ->
  stopAllSources a
  = (Ok tt, setSources [] (setNodes (stopAll (sourcesRef a) (nodes a)) a)).
Proof.
  intro H. unfold stopAllSources, bind, gets, modify.
  now rewrite (forEach_stopSource _ a H).
Qed.

Lemma stopAnchor_closed (a : Anchor) :
  sourcesStarted a -> stopAnchor a = (Ok tt, tornDown a).
Proof.
  intro H. unfold stopAnchor, bind, modify.
  rewrite stopAllSources_started by exact H. reflexivity.
Qed.

(** A message with decodable audio and no interruption schedules the
    decoded buffer and does nothing else. *)
Lemma onmessage_schedules (a : Anchor) (ctx : AudioContext) (currentTime : Q)
    (msg : LiveServerMessage) (base64 : string) (bytes : Uint8Array)
    (buffer : AudioBuffer) :
  inlineAudio msg = Ok (Some base64) -> base64 <> EmptyString ->
  decode base64 = Ok bytes -> audioContextRef a = Some ctx ->
  decodeAudioData bytes ctx 24000 1 = Ok buffer ->
  isInterrupted msg = false -> (0 <= currentTime)%Q ->
  onmessage currentTime msg a = (Ok tt, scheduled currentTime buffer a).
Proof.
  intros Hp Hne Hd Hctx Hb Hi H0.
  unfold onmessage, playInlineAudio, bind, lift, gets, ret.
  rewrite Hp, Hi.
  destruct base64 as [|c base64]; [congruence|]. cbn [truthy].
  rewrite Hd, Hctx, Hb, (schedule_closed currentTime buffer a H0).
  reflexivity.
Qed.

(** ** Interruption *)

Lemma Qmax_zero (later : Q) : (0 <= later)%Q -> (Qmax 0 later == later)%Q.
Proof. intro H. now apply Q.max_r. Qed.

(** C4, as amended.  After the handler has processed to its end a message
    that carries the interrupted signal (with or without audio in the same
    message), the set of sources is empty and the cursor is 0, so a buffer
    scheduled next starts at the reading of the output clock. *)
Theorem interruption_flushes (a : Anchor) (currentTime : Q)
    (msg : LiveServerMessage) :
  isInterrupted msg = true ->
  fst (onmessage currentTime msg a) = Ok tt ->
  sourcesRef (snd (onmessage currentTime msg a)) = []
  /\ nextStartTimeRef (snd (onmessage currentTime msg a)) = 0%Q
  /\ forall (later : Q) (buffer : AudioBuffer),
       (0 <= later)%Q ->
       exists when,
         fst (schedule later buffer (snd (onmessage currentTime msg a)))
         = Ok when
         /\ (when == later)%Q.
Proof.
  intros Hi. unfold onmessage, bind. rewrite Hi.
  destruct (playInlineAudio currentTime msg a) as [[[]|e] a1];
    [|discriminate].
  destruct (stopAllSources a1) as [[[]|e] a2] eqn:E; [|discriminate].
  destruct (stopAllSources_frame a1 _ _ E) as [ns ->].
  intros _. cbn [modify fst snd sourcesRef nextStartTimeRef setNextStartTime
                 setSources setNodes].
  repeat split.
  intros later buffer Hl. rewrite (schedule_closed later buffer _ Hl).
  eexists. split; [reflexivity|].
  cbn [nextStartTimeRef setNextStartTime]. now apply Qmax_zero.
Qed.

Example playing_state :
  sessionState playing = ACTIVE
  /\ sourcesRef playing = [0%nat]
  /\ nextStartTimeRef playing = Binary64.round64 (3 # 24000)
  /\ map node_started (nodes playing) = [Some 0%Q].
Proof. vm_compute. repeat split. Qed.

Lemma interruption_flushes_witness :
  isInterrupted (audioMessage "AEAA4ACA" true) = true
  /\ fst (onmessage (1 # 1024) (audioMessage "AEAA4ACA" true) playing) = Ok tt
  /\ sourcesRef
       (snd (onmessage (1 # 1024) (audioMessage "AEAA4ACA" true) playing)) = []
  /\ nextStartTimeRef
       (snd (onmessage (1 # 1024) (audioMessage "AEAA4ACA" true) playing))
     = 0%Q
  /\ forall (later : Q) (buffer : AudioBuffer),
       (0 <= later)%Q ->
       exists when,
         fst (schedule later buffer
                (snd (onmessage (1 # 1024) (audioMessage "AEAA4ACA" true)
                        playing)))
         = Ok when
         /\ (when == later)%Q.
Proof.
  assert (H1 : isInterrupted (audioMessage "AEAA4ACA" true) = true)
    by reflexivity.
  assert (H2 : fst (onmessage (1 # 1024) (audioMessage "AEAA4ACA" true) playing)
               = Ok tt) by reflexivity.
  split; [exact H1|]. split; [exact H2|].
  exact (interruption_flushes playing (1 # 1024)
           (audioMessage "AEAA4ACA" true) H1 H2).
Defined.

(** C4 fails when the audio of the interrupting message cannot be decoded:
    the exception leaves the handler before the interruption is looked at,
    and the scheduled source stays in the set with the cursor unchanged. *)
Lemma interruption_lost :
  isInterrupted (audioMessage "!" true) = true
  /\ fst (onmessage (1 # 1024) (audioMessage "!" true) playing)
     = Throw InvalidCharacterError
  /\ sourcesRef (snd (onmessage (1 # 1024) (audioMessage "!" true) playing))
     = [0%nat]
  /\ ~ (sourcesRef
          (snd (onmessage (1 # 1024) (audioMessage "!" true) playing)) = []
        /\ nextStartTimeRef
             (snd (onmessage (1 # 1024) (audioMessage "!" true) playing))
           = 0%Q).
Proof.
  repeat split. intros [H _]. discriminate H.
Qed.

(** The same happens with audio of odd byte length and with a model turn
    that has no parts. *)
Example interruption_lost_odd :
  fst (onmessage (1 # 1024) (audioMessage "AA==" true) playing)
  = Throw RangeError
  /\ sourcesRef (snd (onmessage (1 # 1024) (audioMessage "AA==" true) playing))
     = [0%nat].
Proof. split; reflexivity. Qed.

Example interruption_lost_no_parts :
  fst (onmessage (1 # 1024)
         {| serverContent :=
              Some {| modelTurn := Some {| parts := None |};
                      interrupted := Some true |} |} playing)
  = Throw TypeError.
Proof. reflexivity. Qed.

(** ** Reachable states *)

Lemma startedIn_app (ns more : list SourceNode) (s : nat) :
  startedIn ns s -> startedIn (ns ++ more) s.
Proof.
  intros (n & t & Hn & Ht). exists n, t. split; [|exact Ht].
  now apply lookup_app_l_Some.
Qed.

Lemma schedule_sourcesStarted (t : Q) (b : AudioBuffer) (a : Anchor) :
  sourcesStarted a -> sourcesStarted (snd (schedule t b a)).
Proof.
  intro H. unfold sourcesStarted in *.
  unfold schedule, bind, gets, modify, ret, throw.
  cbn [nextStartTimeRef setNextStartTime setNodes setSources nodes sourcesRef
       isActive isConnecting audioContextRef streamRef].
  destruct (Qle_bool 0 (Qmax (nextStartTimeRef a) t));
    cbn [snd nextStartTimeRef setNextStartTime setNodes setSources nodes
         sourcesRef].
  - rewrite insert_app_r_alt, Nat.sub_diag by lia. cbn [insert list_insert].
    assert (Hold : List.Forall
                     (startedIn (nodes a ++ [{| node_buffer := b;
                                                node_started := Some (Qmax (nextStartTimeRef a) t);
                                                node_stopped := false |}]))
                     (sourcesRef a)).
    { eapply List.Forall_impl; [|exact H]. intros s. apply startedIn_app. }
    destruct (bool_decide (length (nodes a) ∈ sourcesRef a)); [exact Hold|].
    apply List.Forall_app. split; [exact Hold|].
    constructor; [|constructor].
    exists {| node_buffer := b;
              node_started := Some (Qmax (nextStartTimeRef a) t);
              node_stopped := false |}, (Qmax (nextStartTimeRef a) t).
    split; [|reflexivity].
    rewrite lookup_app_r, Nat.sub_diag by lia. reflexivity.
  - eapply List.Forall_impl; [|exact H]. intros s. apply startedIn_app.
Qed.

Lemma playInlineAudio_sourcesStarted (t : Q) (msg : LiveServerMessage)
    (a : Anchor) :
  sourcesStarted a -> sourcesStarted (snd (playInlineAudio t msg a)).
Proof.
  intro H. unfold playInlineAudio, bind, lift, gets, throw, ret.
  destruct (inlineAudio msg) as [p|e]; [|exact H].
  destruct (truthy p) as [s|]; [|exact H].
  destruct (decode s) as [bytes|e]; [|exact H].
  destruct (audioContextRef a) as [ctx|]; [|exact H].
  destruct (decodeAudioData bytes ctx 24000 1) as [b|e]; [|exact H].
  pose proof (schedule_sourcesStarted t b a H) as Hs.
  destruct (schedule t b a) as [[w|e] a1]; exact Hs.
Qed.

Lemma stopAnchor_sourcesStarted (a : Anchor) :
  sourcesStarted a -> sourcesStarted (snd (stopAnchor a)).
Proof.
  intro H. rewrite (stopAnchor_closed a H). constructor.
Qed.

Lemma handle_sourcesStarted (e : event) (a : Anchor) :
  sourcesStarted a -> sourcesStarted (snd (handle e a)).
Proof.
  intro H. destruct e as [ctx media| |t msg| | |s]; cbn [handle].
  - unfold onClick, bind, gets.
    destruct (isConnecting a); [exact H|].
    destruct (isActive a); [now apply stopAnchor_sourcesStarted|].
    unfold startAnchor, bind, gets, modify, ret.
    destruct a as [act con [c|] nx src str ns]; destruct media; exact H.
  - exact H.
  - unfold onmessage, bind.
    pose proof (playInlineAudio_sourcesStarted t msg a H) as H1.
    destruct (playInlineAudio t msg a) as [[[]|e] a1]; cbn [snd] in *;
      [|exact H1].
    destruct (isInterrupted msg); [|exact H1].
    rewrite (stopAllSources_started a1 H1). constructor.
  - now apply stopAnchor_sourcesStarted.
  - now apply stopAnchor_sourcesStarted.
  - unfold onended, modify, sourcesStarted in *. cbn [snd sourcesRef setSources nodes].
    apply List.Forall_forall. intros x Hx. apply List.filter_In in Hx.
    rewrite List.Forall_forall in H. now apply H.
Qed.

Lemma reachable_sourcesStarted (a : Anchor) :
  reachable a -> sourcesStarted a.
Proof.
  induction 1 as [|a e _ IH]; [constructor|].
  now apply handle_sourcesStarted.
Qed.

Lemma run_reachable (events : list event) (a : Anchor) :
  reachable a -> reachable (run events a).
Proof.
  revert a. induction events as [|e events IH]; intros a H; [exact H|].
  apply IH. now constructor.
Qed.

(** The message handler runs to its end whenever the audio of the message,
    if there is some, can be extracted and decoded. *)
Lemma onmessage_completes (a : Anchor) (ctx : AudioContext) (currentTime : Q)
    (msg : LiveServerMessage) (payload : option string) :
  sourcesStarted a -> audioContextRef a = Some ctx -> (0 <= currentTime)%Q ->
  inlineAudio msg = Ok payload ->
  (forall base64, truthy payload = Some base64 ->
     exists bytes buffer,
       decode base64 = Ok bytes
       /\ decodeAudioData bytes ctx 24000 1 = Ok buffer) ->
  fst (onmessage currentTime msg a) = Ok tt.
Proof.
  intros Hs Hctx H0 Hp Hd.
  pose proof (playInlineAudio_sourcesStarted currentTime msg a Hs) as H1.
  assert (Hplay : fst (playInlineAudio currentTime msg a) = Ok tt).
  { unfold playInlineAudio, bind, lift, gets, throw, ret. rewrite Hp.
    destruct (truthy payload) as [s|]; [|reflexivity].
    destruct (Hd s eq_refl) as (bytes & buffer & -> & Hb).
    rewrite Hctx, Hb, (schedule_closed currentTime buffer a H0). reflexivity. }
  unfold onmessage, bind.
  destruct (playInlineAudio currentTime msg a) as [[[]|e] a1];
    cbn [fst snd] in *; [|discriminate].
  destruct (isInterrupted msg); [|reflexivity].
  rewrite (stopAllSources_started a1 H1). reflexivity.
Qed.

(** ** Teardown *)

(** What [stopAnchor] does achieve from a reachable state: no exception,
    the assistant is no longer active, every track is ended, every source of
    the set has been stopped and the set is empty.  The connecting flag and
    the cursor are left as they were. *)
Lemma stopAnchor_reachable (a : Anchor) :
  reachable a ->
  stopAnchor a = (Ok tt, tornDown a)
  /\ (forall s, s ∈ sourcesRef a ->
        exists n, nodes (tornDown a) !! s = Some n /\ node_stopped n = true)
  /\ (forall tracks, streamRef (tornDown a) = Some tracks ->
        List.Forall (fun t => t = ended) tracks).
Proof.
  intro Hr. pose proof (reachable_sourcesStarted a Hr) as Hs.
  split; [now apply stopAnchor_closed|]. split.
  - intros s Hin. unfold sourcesStarted in Hs.
    rewrite List.Forall_forall in Hs.
    destruct (Hs s (proj1 (list_elem_of_In _ _) Hin)) as (n & t & Hn & _).
    exists (markStopped n). split; [|reflexivity].
    cbn [tornDown nodes]. unfold stopAll.
    rewrite list_lookup_imap, Hn. cbn.
    now rewrite (bool_decide_eq_true_2 _ Hin).
  - intros tracks. cbn [tornDown streamRef].
    destruct (streamRef a) as [ts|]; [|discriminate].
    cbn. intro H. injection H as <-.
    apply List.Forall_map, List.Forall_forall. reflexivity.
Qed.

(** Teardown is idempotent and faultless from every reachable state; it
    gives [IDLE] when no connection attempt is pending. *)
Lemma stopAnchor_twice (a : Anchor) :
  reachable a ->
  fst (stopAnchor a) = Ok tt
  /\ fst (stopAnchor (snd (stopAnchor a))) = Ok tt
  /\ snd (stopAnchor (snd (stopAnchor a))) = snd (stopAnchor a)
  /\ (isConnecting a = false ->
      sessionState (snd (stopAnchor (snd (stopAnchor a)))) = IDLE).
Proof.
  intro Hr. pose proof (reachable_sourcesStarted a Hr) as Hs.
  rewrite (stopAnchor_closed a Hs). cbn [fst snd].
  assert (Hs' : sourcesStarted (tornDown a)) by constructor.
  rewrite (stopAnchor_closed _ Hs'). cbn [fst snd].
  assert (E : tornDown (tornDown a) = tornDown a).
  { unfold tornDown at 1. cbn [tornDown isConnecting audioContextRef
                               nextStartTimeRef sourcesRef streamRef nodes].
    rewrite stopAll_nil. unfold tornDown. f_equal.
    destruct (streamRef a) as [ts|]; [|reflexivity].
    cbn. now rewrite map_map. }
  rewrite E. repeat split.
  intro Hc. unfold sessionState. cbn. now rewrite Hc.
Qed.

(** [stopAnchor] never writes the cursor. *)
Lemma stopAnchor_keeps_cursor (a : Anchor) :
  nextStartTimeRef (snd (stopAnchor a)) = nextStartTimeRef a.
Proof.
  unfold stopAnchor, stopAllSources, bind, modify, gets.
  set (a1 := setStream _ (setIsActive false a)).
  destruct (forEach_stopSource_frame (sourcesRef a1) a1) as [ns Hns].
  destruct (forEach (sourcesRef a1) stopSource a1) as [[[]|e] a2];
    cbn [snd] in *; subst a2; reflexivity.
Qed.

(** C5 on a session with a scheduled buffer, for each of the three ways to
    tear down: the sources are stopped, the tracks are ended, the set is
    empty, and the cursor still holds the end of the scheduled audio
    ([3/24000] s, as a double) instead of being reset. *)
Theorem teardown_keeps_cursor :
  List.Forall
    (fun e =>
       sessionState (run [e] playing) = IDLE
       /\ sourcesRef (run [e] playing) = []
       /\ map node_stopped (nodes (run [e] playing)) = [true]
       /\ streamRef (run [e] playing) = Some [ended]
       /\ nextStartTimeRef (run [e] playing) = Binary64.round64 (3 # 24000)
       /\ ~ (nextStartTimeRef (run [e] playing) == 0)%Q)
    [Click std_ctx (Ok [live]); Closed; Failed].
Proof.
  repeat constructor; try (vm_compute; reflexivity);
    vm_compute; intro H; discriminate H.
Qed.

(** The stale cursor delays the audio of the next session: a buffer that
    arrives at clock 0 of a session opened after the teardown starts at
    [3/24000] (as a double) instead of 0. *)
Example stale_cursor_delays :
  fst (schedule 0 (silence 2400)
         (run [Closed; Click std_ctx (Ok [live]); Opened] playing))
  = Ok (Binary64.round64 (3 # 24000)).
Proof. vm_compute. reflexivity. Qed.

(** ** The session states *)

(** C6 on a session that is still connecting: two calls of [stopAnchor] in
    a row (a connection failure reports an error and then a close) raise
    nothing, and the session is left in [CONNECTING], not in [IDLE]. *)
Theorem stopAnchor_twice_connecting :
  reachable connecting
  /\ sessionState connecting = CONNECTING
  /\ fst (stopAnchor connecting) = Ok tt
  /\ fst (stopAnchor (snd (stopAnchor connecting))) = Ok tt
  /\ sessionState (snd (stopAnchor (snd (stopAnchor connecting)))) = CONNECTING
  /\ sessionState (run [Failed; Closed] connecting) = CONNECTING.
Proof.
  split; [apply run_reachable; constructor|]. repeat split.
Qed.

(** Transitions to [IDLE] that the handlers do make. *)
Lemma stop_from_active (a : Anchor) (e : event) :
  reachable a -> sessionState a = ACTIVE ->
  (exists ctx media, e = Click ctx media) \/ e = Closed \/ e = Failed ->
  sessionState (snd (handle e a)) = IDLE.
Proof.
  intros Hr Ha He. pose proof (reachable_sourcesStarted a Hr) as Hs.
  unfold sessionState in Ha.
  destruct (isConnecting a) eqn:Hc; [discriminate|].
  destruct (isActive a) eqn:Hact; [|discriminate].
  assert (Hstop : sessionState (snd (stopAnchor a)) = IDLE).
  { rewrite (stopAnchor_closed a Hs). unfold sessionState. cbn. now rewrite Hc. }
  destruct He as [(ctx & media & ->)|[->| ->]]; cbn [handle]; try exact Hstop.
  unfold onClick, bind, gets. rewrite Hc, Hact. exact Hstop.
Qed.

Lemma capture_refused (a : Anchor) (ctx : AudioContext) (e : exn) :
  sessionState a = IDLE ->
  sessionState (snd (handle (Click ctx (Throw e)) a)) = IDLE
  /\ isActive (snd (handle (Click ctx (Throw e)) a)) = false.
Proof.
  unfold sessionState. intro Ha.
  destruct (isConnecting a) eqn:Hc; [discriminate|].
  destruct (isActive a) eqn:Hact; [discriminate|].
  cbn [handle]. unfold onClick, bind, gets. rewrite Hc, Hact.
  unfold startAnchor, bind, gets, modify, ret.
  destruct a as [act con [c|] nx src str ns]; cbn in *; subst; split; reflexivity.
Qed.

(** C9 on a remote error that arrives while the session is connecting: the
    state stays [CONNECTING] (the button stays disabled), also after the
    close that follows; the same holds for a remote close. *)
Theorem error_while_connecting :
  sessionState connecting = CONNECTING
  /\ sessionState (run [Failed] connecting) = CONNECTING
  /\ sessionState (run [Closed] connecting) = CONNECTING
  /\ sessionState (run [Failed; Closed] connecting) = CONNECTING
  /\ sessionState
       (run [Failed; Click std_ctx (Ok [live])] connecting) = CONNECTING.
Proof. repeat split. Qed.

(** * Further properties *)

(** ** More on [decode] and [encode] *)

Lemma u8_bytes_wf (a : Uint8Array) :
  u8_wf a ->
  length (u8_bytes a) = u8_byteLength a
  /\ List.Forall Base64.is_byte (u8_bytes a)
  /\ forall i, (i < u8_byteLength a)%nat -> u8_get a i = u8_bytes a !! i.
Proof.
  intros [Hlen Hb]. unfold u8_bytes. split; [|split].
  - rewrite length_take, length_drop. lia.
  - apply List.Forall_forall. intros x Hx.
    rewrite List.Forall_forall in Hb. apply Hb.
    apply list_elem_of_In in Hx. apply list_elem_of_In.
    apply elem_of_take in Hx. destruct Hx as (i & Hi & _).
    rewrite lookup_drop in Hi. eapply list_elem_of_lookup_2; eauto.
  - intros i Hi. unfold u8_get.
    destruct (Nat.ltb_spec i (u8_byteLength a)); [|lia].
    now rewrite lookup_take_lt, lookup_drop by lia.
Qed.

Lemma encode_bytes (a : Uint8Array) :
  u8_wf a -> encode a = Base64.btoa (u8_bytes a).
Proof.
  intro Hwf. destruct (u8_bytes_wf a Hwf) as (Hlen & Hb & Hget).
  unfold encode. rewrite for_loop_snoc. cbn [app]. f_equal.
  rewrite <- (map_nth_seq (u8_bytes a) 0) at 1. rewrite Hlen.
  apply map_ext_in. intros i Hi. apply in_seq in Hi.
  rewrite Hget by lia.
  destruct (lookup_lt_is_Some_2 (u8_bytes a) i ltac:(lia)) as [x Hx].
  rewrite Hx, (nth_lookup_Some _ i 0 x Hx). cbn [fromCharCode].
  apply Z.mod_small.
  assert (Hin : List.In x (u8_bytes a))
    by (apply list_elem_of_In; eapply list_elem_of_lookup_2; eauto).
  rewrite List.Forall_forall in Hb. specialize (Hb x Hin).
  unfold Base64.is_byte in Hb. lia.
Qed.

(** X1.  [decode] inverts [encode]: for every view that lies inside a buffer
    of bytes, also one that shows only part of its buffer, [encode] returns
    text, and [decode] of that text is a fresh array that holds exactly the
    bytes the view shows. *)
Theorem decode_encode (a : Uint8Array) :
  u8_wf a ->
  exists text,
    encode a = Ok text
    /\ decode text = Ok (Uint8Array_of_buffer (u8_bytes a)).
Proof.
  intro Hwf. destruct (u8_bytes_wf a Hwf) as (_ & Hb & _).
  destruct (Base64Facts.atob_btoa (u8_bytes a) Hb) as (text & Hbt & Hat).
  exists text. rewrite (encode_bytes a Hwf). split; [exact Hbt|].
  now apply decode_atob.
Qed.

Lemma decode_encode_witness :
  u8_wf middleView
  /\ exists text,
       encode middleView = Ok text
       /\ decode text = Ok (Uint8Array_of_buffer (u8_bytes middleView)).
Proof.
  assert (H : u8_wf middleView).
  { split; [cbn; lia|]. repeat constructor; unfold Base64.is_byte; lia. }
  split; [exact H|]. exact (decode_encode middleView H).
Defined.

Example encode_middleView : encode middleView = Ok "TWFu"%string.
Proof. reflexivity. Qed.

Lemma btoa_charset (l : list Z) (s : string) :
  Base64.btoa l = Ok s ->
  List.Forall (fun c => c = Base64.pad \/ List.In c Base64.alphabet)
    (list_ascii_of_string s).
Proof.
  unfold Base64.btoa. destruct (forallb Base64.is_byteb l); [|discriminate].
  intro H. injection H as <-. rewrite list_ascii_of_string_of_list_ascii.
  apply List.Forall_app. split.
  - apply List.Forall_map, List.Forall_forall. intros v _.
    unfold Base64.b64char.
    destruct (nth_in_or_default (Z.to_nat v) Base64.alphabet Base64.pad);
      auto.
  - apply List.Forall_forall. intros c Hc. left.
    now apply repeat_spec in Hc.
Qed.

(** X2.  [encode] never throws on a view that lies inside a buffer of bytes:
    it returns text of exactly [4 * ceil(n / 3)] characters for a view of [n]
    bytes, made only of the 64 alphabet characters and [=], and the empty
    text for an empty view. *)
Theorem encode_text (a : Uint8Array) :
  u8_wf a ->
  exists text,
    encode a = Ok text
    /\ String.length text = (4 * ((u8_byteLength a + 2) / 3))%nat
    /\ List.Forall (fun c => c = Base64.pad \/ List.In c Base64.alphabet)
         (list_ascii_of_string text)
    /\ (u8_byteLength a = 0%nat -> text = EmptyString).
Proof.
  intro Hwf. destruct (u8_bytes_wf a Hwf) as (Hlen & Hb & _).
  destruct (Base64Facts.atob_btoa (u8_bytes a) Hb) as (text & Hbt & _).
  exists text. rewrite (encode_bytes a Hwf).
  split; [exact Hbt|]. split; [|split].
  - rewrite (btoa_length _ _ Hbt), Hlen. reflexivity.
  - exact (btoa_charset _ _ Hbt).
  - intro H0. rewrite H0 in Hlen.
    destruct (u8_bytes a); [|discriminate].
    cbn in Hbt. congruence.
Qed.

Lemma encode_text_witness :
  u8_wf middleView
  /\ exists text,
       encode middleView = Ok text
       /\ String.length text = (4 * ((u8_byteLength middleView + 2) / 3))%nat
       /\ List.Forall (fun c => c = Base64.pad \/ List.In c Base64.alphabet)
            (list_ascii_of_string text)
       /\ (u8_byteLength middleView = 0%nat -> text = EmptyString).
Proof.
  assert (H : u8_wf middleView).
  { split; [cbn; lia|]. repeat constructor; unfold Base64.is_byte; lia. }
  split; [exact H|]. exact (encode_text middleView H).
Defined.

Section ListInd4.
Context {A : Type} (P : list A -> Prop).
Hypothesis Q0 : P [].
Hypothesis Q1 : forall a, P [a].
Hypothesis Q2 : forall a b, P [a; b].
Hypothesis Q3 : forall a b c, P [a; b; c].
Hypothesis Q4 : forall a b c d l, P l -> P (a :: b :: c :: d :: l).

Lemma list_ind4 : forall l, P l.
Proof.
  assert (H : forall l, P l /\ (forall a, P (a :: l))
                        /\ (forall a b, P (a :: b :: l))
                        /\ (forall a b c, P (a :: b :: c :: l))).
  { induction l as [|x l (IH0 & IH1 & IH2 & IH3)]; [now auto|].
    repeat split; auto. }
  intro l. apply H.
Qed.
End ListInd4.

Lemma index_of_range (c : ascii) (l : list ascii) (i v : Z) :
  Base64.index_of c l i = Some v -> i <= v < i + Z.of_nat (length l).
Proof.
  revert i. induction l as [|d l IH]; intros i H; [discriminate|].
  cbn [Base64.index_of] in H. cbn [length].
  destruct (Ascii.eqb c d).
  - injection H as <-. lia.
  - apply IH in H. lia.
Qed.

Lemma values_range (d : list ascii) (v : list Z) :
  Base64.values d = Some v -> List.Forall Base64.is_sextet v.
Proof.
  revert v. induction d as [|c d IH]; intros v H; cbn [Base64.values] in H.
  - injection H as <-. constructor.
  - destruct (Base64.b64val c) as [x|] eqn:Ex; [|discriminate].
    destruct (Base64.values d) as [vs|]; [|discriminate].
    injection H as <-. constructor; [|now apply IH].
    apply index_of_range in Ex. unfold Base64.is_sextet.
    change (Z.of_nat (length Base64.alphabet)) with 64 in Ex. lia.
Qed.

Lemma octets_bytes (v : list Z) :
  List.Forall Base64.is_sextet v -> List.Forall Base64.is_byte (Base64.octets v).
Proof.
  induction v as [| a | a b | a b c | a b c d l IH] using list_ind4;
    intro H; cbn [Base64.octets]; try constructor.
  - inversion_clear H as [|? ? Ha H']. inversion_clear H' as [|? ? Hb _].
    unfold Base64.is_sextet, Base64.is_byte in *.
    repeat constructor; Z.div_mod_to_equations; lia.
  - constructor.
  - inversion_clear H as [|? ? Ha H']. inversion_clear H' as [|? ? Hb H''].
    inversion_clear H'' as [|? ? Hc _].
    unfold Base64.is_sextet, Base64.is_byte in *. cbv zeta.
    Z.div_mod_to_equations; lia.
  - inversion_clear H as [|? ? Ha H']. inversion_clear H' as [|? ? Hb H''].
    inversion_clear H'' as [|? ? Hc _].
    unfold Base64.is_sextet, Base64.is_byte in *. cbv zeta.
    repeat constructor; Z.div_mod_to_equations; lia.
  - inversion_clear H as [|? ? Ha H']. inversion_clear H' as [|? ? Hb H''].
    inversion_clear H'' as [|? ? Hc H3]. inversion_clear H3 as [|? ? Hd Hl].
    unfold Base64.is_sextet, Base64.is_byte in *. cbv zeta.
    Z.div_mod_to_equations; lia.
  - inversion_clear H as [|? ? Ha H']. inversion_clear H' as [|? ? Hb H''].
    inversion_clear H'' as [|? ? Hc H3]. inversion_clear H3 as [|? ? Hd Hl].
    unfold Base64.is_sextet, Base64.is_byte in *. cbv zeta.
    repeat (constructor; [Z.div_mod_to_equations; lia|]). now apply IH.
Qed.

Lemma atob_bytes (s : string) (l : list Z) :
  Base64.atob s = Ok l -> List.Forall Base64.is_byte l.
Proof.
  unfold Base64.atob. cbv zeta.
  destruct (_ =? 1)%nat; [discriminate|].
  destruct (Base64.values _) as [v|] eqn:Ev; [|discriminate].
  intro H. injection H as <-.
  apply octets_bytes. eapply values_range; eauto.
Qed.

(** X3.  Whatever [decode] returns is a fresh array that shows the whole of
    its buffer (offset 0, length of the buffer) and holds the bytes that the
    text stands for, each from 0 to 255; so [decodeAudioData], which reads
    the buffer, sees exactly the decoded bytes. *)
Theorem decode_shape (base64 : string) (bytes : Uint8Array) :
  decode base64 = Ok bytes ->
  u8_byteOffset bytes = 0%nat
  /\ u8_byteLength bytes = length (u8_buffer bytes)
  /\ List.Forall Base64.is_byte (u8_buffer bytes)
  /\ Base64.atob base64 = Ok (u8_buffer bytes)
  /\ u8_bytes bytes = u8_buffer bytes.
Proof.
  intro H. destruct (Base64.atob base64) as [l|e] eqn:Ea.
  - pose proof (atob_bytes _ _ Ea) as Hb.
    rewrite (decode_atob _ _ Ea Hb) in H. injection H as <-.
    cbn [Uint8Array_of_buffer u8_byteOffset u8_byteLength u8_buffer].
    repeat split; try assumption.
    unfold u8_bytes. cbn. now rewrite drop_0, take_ge.
  - unfold decode in H. rewrite Ea in H. discriminate.
Qed.

Lemma decode_shape_witness :
  decode "TW E=" = Ok (Uint8Array_of_buffer [77; 97])
  /\ u8_byteOffset (Uint8Array_of_buffer [77; 97]) = 0%nat
  /\ u8_byteLength (Uint8Array_of_buffer [77; 97])
     = length (u8_buffer (Uint8Array_of_buffer [77; 97]))
  /\ List.Forall Base64.is_byte (u8_buffer (Uint8Array_of_buffer [77; 97]))
  /\ Base64.atob "TW E=" = Ok (u8_buffer (Uint8Array_of_buffer [77; 97]))
  /\ u8_bytes (Uint8Array_of_buffer [77; 97])
     = u8_buffer (Uint8Array_of_buffer [77; 97]).
Proof.
  assert (H : decode "TW E=" = Ok (Uint8Array_of_buffer [77; 97]))
    by reflexivity.
  split; [exact H|]. exact (decode_shape _ _ H).
Defined.

Lemma strip_padding_keeps (c : ascii) (d : list ascii) :
  List.In c d -> Ascii.eqb c Base64.pad = false ->
  List.In c (Base64.strip_padding d).
Proof.
  intros Hin Hc. induction d as [|x d IH]; [contradiction|].
  cbn [Base64.strip_padding].
  destruct Hin as [->|Hin].
  - destruct d as [|y [|z d]]; rewrite ?Hc; cbn [andb]; now left.
  - specialize (IH Hin).
    destruct d as [|y [|z d]]; [contradiction| |now right].
    destruct Hin as [->|[]]. rewrite Hc, Bool.andb_false_r.
    right. exact IH.
Qed.

Lemma values_invalid (c : ascii) (d : list ascii) :
  List.In c d -> Base64.b64val c = None -> Base64.values d = None.
Proof.
  intros Hin Hc. induction d as [|x d IH]; [contradiction|].
  cbn [Base64.values]. destruct Hin as [->|Hin].
  - now rewrite Hc.
  - rewrite (IH Hin). now destruct (Base64.b64val x).
Qed.

(** X4.  [decode] raises [InvalidCharacterError] on every text that contains
    a character which is neither white space, nor [=], nor one of the 64
    alphabet characters, wherever it stands in the text. *)
Theorem decode_rejects (base64 : string) (c : ascii) :
  List.In c (list_ascii_of_string base64) ->
  Base64.is_ascii_whitespace c = false ->
  c <> Base64.pad ->
  Base64.b64val c = None ->
  decode base64 = Throw InvalidCharacterError.
Proof.
  intros Hin Hws Hpad Hval.
  assert (Ha : Base64.atob base64 = Throw InvalidCharacterError).
  { unfold Base64.atob. cbv zeta.
    set (d := List.filter _ _).
    assert (Hd : List.In c d).
    { unfold d. apply List.filter_In. split; [exact Hin|]. now rewrite Hws. }
    assert (Hd' : List.In c (if (length d mod 4 =? 0)%nat
                             then Base64.strip_padding d else d)).
    { destruct (_ =? 0)%nat; [|exact Hd].
      apply strip_padding_keeps; [exact Hd|].
      now apply Ascii.eqb_neq. }
    destruct (_ =? 1)%nat; [reflexivity|].
    now rewrite (values_invalid c _ Hd' Hval). }
  unfold decode. now rewrite Ha.
Qed.

Lemma decode_rejects_witness :
  List.In "!"%char (list_ascii_of_string "AE!A")
  /\ Base64.is_ascii_whitespace "!"%char = false
  /\ "!"%char <> Base64.pad
  /\ Base64.b64val "!"%char = None
  /\ decode "AE!A" = Throw InvalidCharacterError.
Proof.
  assert (H1 : List.In "!"%char (list_ascii_of_string "AE!A"))
    by (cbn; auto).
  assert (H2 : Base64.is_ascii_whitespace "!"%char = false) by reflexivity.
  assert (H3 : "!"%char <> Base64.pad) by discriminate.
  assert (H4 : Base64.b64val "!"%char = None) by reflexivity.
  repeat (split; [assumption|]).
  exact (decode_rejects "AE!A" "!"%char H1 H2 H3 H4).
Defined.

(** ** More on [decodeAudioData] *)

Lemma decodeAudioData_inv (data : Uint8Array) (ctx : AudioContext)
    (rate : Q) (numChannels : nat) (buffer : AudioBuffer) :
  decodeAudioData data ctx rate numChannels = Ok buffer ->
  (length (u8_buffer data) mod 2 = 0)%nat
  /\ (1 <= numChannels <= maxChannels ctx)%nat
  /\ (1 <= frames buffer)%nat
  /\ (frames buffer <= length (u8_buffer data) / 2 / numChannels)%nat
  /\ supportsRate ctx rate = true
  /\ buffer
     = {| sampleRate := rate; numberOfChannels := numChannels;
          frames := frameCapacity (length (u8_buffer data) / 2) numChannels;
          channelsData :=
            map (decodedChannel {| i16_buffer := u8_buffer data |} numChannels
                   (frameCapacity (length (u8_buffer data) / 2) numChannels))
              (seq 0 numChannels) |}.
Proof.
  rewrite decodeAudioData_closed.
  destruct (Nat.eqb_spec (length (u8_buffer data) mod 2) 0) as [He|];
    [|discriminate].
  cbn [negb]. cbv zeta. unfold i16_length. cbn [i16_buffer].
  destruct (Nat.leb_spec 1 numChannels); [|discriminate].
  destruct (Nat.leb_spec numChannels (maxChannels ctx)); [|discriminate].
  destruct (Nat.leb_spec 1 (frameCapacity (length (u8_buffer data) / 2)
                              numChannels)); [|discriminate].
  destruct (supportsRate ctx rate); [|discriminate].
  cbn [andb]. intro Hb. injection Hb as <-. cbn [frames].
  pose proof (frameCapacity_le (length (u8_buffer data) / 2) numChannels).
  repeat split; auto.
Qed.

Lemma i16_get_in_range (b : list Z) (i : nat) :
  (length b mod 2 = 0)%nat -> (i < length b / 2)%nat ->
  exists k, i16_get {| i16_buffer := b |} i = Some k /\ is_int16 k.
Proof.
  intros He Hi. unfold i16_get. cbn [i16_buffer].
  pose proof (Nat.div_mod_eq (length b) 2) as E. rewrite He in E.
  destruct (lookup_lt_is_Some_2 b (2 * i) ltac:(lia)) as [lo ->].
  destruct (lookup_lt_is_Some_2 b (2 * i + 1) ltac:(lia)) as [hi ->].
  eexists. split; [reflexivity|apply wrap16_range].
Qed.

Lemma normalised_range (k : Z) :
  is_int16 k -> (-1 <= normalised k)%Q /\ (normalised k < 1)%Q.
Proof.
  unfold is_int16, normalised, Qdiv, Qinv, Qmult, Qle, Qlt, inject_Z.
  cbn. lia.
Qed.

(** X5.  Every sample of every channel of a buffer that [decodeAudioData]
    returns is a finite number [k / 32768] for a 16-bit integer [k]: it lies
    in [[-1, 1)], never is not-a-number, and never reaches 1. *)
Theorem decodeAudioData_samples (data : Uint8Array) (ctx : AudioContext)
    (rate : Q) (numChannels : nat) (buffer : AudioBuffer) :
  decodeAudioData data ctx rate numChannels = Ok buffer ->
  forall (c i : nat) (channel : list number) (x : number),
    channelsData buffer !! c = Some channel -> channel !! i = Some x ->
    exists k,
      is_int16 k /\ x = Num (normalised k)
      /\ (-1 <= normalised k)%Q /\ (normalised k < 1)%Q.
Proof.
  intros H c i channel x Hc Hx.
  destruct (decodeAudioData_inv _ _ _ _ _ H) as (He & Hch & _ & _ & _ & ->).
  cbn [channelsData] in Hc.
  pose proof (frameCapacity_le (length (u8_buffer data) / 2) numChannels) as Hcap.
  set (len := frameCapacity (length (u8_buffer data) / 2) numChannels) in *.
  apply list_lookup_fmap_Some in Hc. destruct Hc as (c' & -> & Hc').
  apply lookup_seq in Hc'. destruct Hc' as [-> Hclt]. cbn [Nat.add] in Hx.
  unfold decodedChannel in Hx.
  apply list_lookup_fmap_Some in Hx. destruct Hx as (i' & -> & Hi').
  apply lookup_seq in Hi'. destruct Hi' as [-> Hilt]. cbn [Nat.add].
  assert (Hidx : (i * numChannels + c < length (u8_buffer data) / 2)%nat).
  { pose proof (Nat.Div0.mul_div_le (length (u8_buffer data) / 2) numChannels).
    nia. }
  destruct (i16_get_in_range _ _ He Hidx) as (k & -> & Hk).
  exists k. cbn [div_32768]. fold (normalised k).
  destruct (normalised_range k Hk). auto.
Qed.

Lemma decodeAudioData_samples_witness :
  decodeAudioData sixBytes std_ctx 24000 1
  = Ok {| sampleRate := 24000; numberOfChannels := 1; frames := 3;
          channelsData := [[Num (16384 # 32768); Num (-8192 # 32768);
                            Num (-32768 # 32768)]] |}
  /\ exists k,
       is_int16 k /\ Num (-32768 # 32768) = Num (normalised k)
       /\ (-1 <= normalised k)%Q /\ (normalised k < 1)%Q.
Proof.
  assert (H : decodeAudioData sixBytes std_ctx 24000 1
              = Ok {| sampleRate := 24000; numberOfChannels := 1; frames := 3;
                      channelsData := [[Num (16384 # 32768);
                                        Num (-8192 # 32768);
                                        Num (-32768 # 32768)]] |})
    by reflexivity.
  split; [exact H|].
  exact (decodeAudioData_samples _ _ _ _ _ H 0%nat 2%nat _ _ eq_refl eq_refl).
Defined.

(** X6.  A buffer that [decodeAudioData] returns is rectangular: it has the
    requested rate and channel count, at least one frame, every channel
    holds exactly [frames] samples, and together the channels never hold
    more samples than the input has. *)
Theorem decodeAudioData_rectangular (data : Uint8Array) (ctx : AudioContext)
    (rate : Q) (numChannels : nat) (buffer : AudioBuffer) :
  decodeAudioData data ctx rate numChannels = Ok buffer ->
  sampleRate buffer = rate
  /\ numberOfChannels buffer = numChannels
  /\ length (channelsData buffer) = numChannels
  /\ List.Forall (fun channel => length channel = frames buffer)
       (channelsData buffer)
  /\ (1 <= frames buffer)%nat
  /\ (frames buffer * numChannels <= length (u8_buffer data) / 2)%nat.
Proof.
  intro H.
  destruct (decodeAudioData_inv _ _ _ _ _ H) as (_ & _ & H1 & Hle & _ & E).
  rewrite E in *. cbn [sampleRate numberOfChannels channelsData frames] in *.
  repeat split; try assumption.
  - now rewrite length_map, length_seq.
  - apply List.Forall_map, List.Forall_forall. intros c _.
    unfold decodedChannel. now rewrite length_map, length_seq.
  - pose proof (Nat.Div0.mul_div_le (length (u8_buffer data) / 2) numChannels).
    nia.
Qed.

Lemma decodeAudioData_rectangular_witness :
  decodeAudioData sixBytes std_ctx 24000 2
  = Ok {| sampleRate := 24000; numberOfChannels := 2; frames := 1;
          channelsData := [[Num (16384 # 32768)]; [Num (-8192 # 32768)]] |}
  /\ (1 * 2 <= length (u8_buffer sixBytes) / 2)%nat.
Proof.
  assert (H : decodeAudioData sixBytes std_ctx 24000 2
              = Ok {| sampleRate := 24000; numberOfChannels := 2; frames := 1;
                      channelsData := [[Num (16384 # 32768)];
                                       [Num (-8192 # 32768)]] |})
    by reflexivity.
  split; [exact H|].
  exact (proj2 (proj2 (proj2 (proj2 (proj2
           (decodeAudioData_rectangular _ _ _ _ _ H)))))).
Defined.

(** X7.  When the channel count divides the sample count (and the frame
    count fits 32 bits), de-interleaving loses nothing: input sample number
    [j] is found, divided by 32768, in channel [j mod numChannels] at frame
    [j / numChannels]. *)
Theorem decodeAudioData_deinterleaves (data : Uint8Array) (ctx : AudioContext)
    (rate : Q) (numChannels : nat) (buffer : AudioBuffer) :
  decodeAudioData data ctx rate numChannels = Ok buffer ->
  (length (u8_buffer data) / 2 mod numChannels = 0)%nat ->
  Z.of_nat (length (u8_buffer data) / 2 / numChannels) < 4294967296 ->
  forall j, (j < length (u8_buffer data) / 2)%nat ->
    exists channel k,
      channelsData buffer !! (j mod numChannels)%nat = Some channel
      /\ channel !! (j / numChannels)%nat = Some (Num (normalised k))
      /\ i16_get {| i16_buffer := u8_buffer data |} j = Some k.
Proof.
  intros H Hdiv Hsmall j Hj.
  destruct (decodeAudioData_inv _ _ _ _ _ H) as (He & Hch & _ & _ & _ & ->).
  cbn [channelsData].
  rewrite (frameCapacity_small _ _ Hsmall).
  set (n := (length (u8_buffer data) / 2)%nat) in *.
  assert (Hc : (j mod numChannels < numChannels)%nat)
    by (apply Nat.mod_upper_bound; lia).
  assert (Hi : (j / numChannels < n / numChannels)%nat).
  { pose proof (Nat.div_mod_eq n numChannels) as En. rewrite Hdiv in En.
    apply Nat.Div0.div_lt_upper_bound. lia. }
  destruct (i16_get_in_range _ _ He Hj) as (k & Hk & _).
  exists (decodedChannel {| i16_buffer := u8_buffer data |} numChannels
            (n / numChannels) (j mod numChannels)), k.
  split; [|split; [|exact Hk]].
  - rewrite list_lookup_fmap, lookup_seq_lt by exact Hc. reflexivity.
  - unfold decodedChannel.
    rewrite list_lookup_fmap, lookup_seq_lt by exact Hi.
    cbn [fmap option_fmap option_map Nat.add].
    replace (j / numChannels * numChannels + j mod numChannels)%nat with j
      by (pose proof (Nat.div_mod_eq j numChannels); lia).
    rewrite Hk. reflexivity.
Qed.

Lemma decodeAudioData_deinterleaves_witness :
  decodeAudioData eightBytes std_ctx 24000 2
  = Ok {| sampleRate := 24000; numberOfChannels := 2; frames := 2;
          channelsData := [[Num (16384 # 32768); Num (-32768 # 32768)];
                           [Num (-8192 # 32768); Num (32767 # 32768)]] |}
  /\ (length (u8_buffer eightBytes) / 2 mod 2 = 0)%nat
  /\ Z.of_nat (length (u8_buffer eightBytes) / 2 / 2) < 4294967296
  /\ (3 < length (u8_buffer eightBytes) / 2)%nat
  /\ exists channel k,
       [[Num (16384 # 32768); Num (-32768 # 32768)];
        [Num (-8192 # 32768); Num (32767 # 32768)]] !! (3 mod 2)%nat
       = Some channel
       /\ channel !! (3 / 2)%nat = Some (Num (normalised k))
       /\ i16_get {| i16_buffer := u8_buffer eightBytes |} 3 = Some k.
Proof.
  assert (H : decodeAudioData eightBytes std_ctx 24000 2
              = Ok {| sampleRate := 24000; numberOfChannels := 2; frames := 2;
                      channelsData := [[Num (16384 # 32768);
                                        Num (-32768 # 32768)];
                                       [Num (-8192 # 32768);
                                        Num (32767 # 32768)]] |})
    by reflexivity.
  assert (H1 : (length (u8_buffer eightBytes) / 2 mod 2 = 0)%nat)
    by reflexivity.
  assert (H2 : Z.of_nat (length (u8_buffer eightBytes) / 2 / 2) < 4294967296)
    by (cbn; lia).
  assert (H3 : (3 < length (u8_buffer eightBytes) / 2)%nat) by (cbn; lia).
  repeat (split; [assumption|]).
  exact (decodeAudioData_deinterleaves _ _ _ _ _ H H1 H2 3%nat H3).
Defined.

(** ** More on the message handler *)

Lemma sameSession_refl (a : Anchor) : sameSession a a.
Proof. repeat split. Qed.

Lemma sameSession_trans (a b c : Anchor) :
  sameSession a b -> sameSession b c -> sameSession a c.
Proof.
  unfold sameSession. intros (? & ? & ? & ?) (? & ? & ? & ?).
  repeat split; congruence.
Qed.

Lemma schedule_sameSession (t : Q) (b : AudioBuffer) (a : Anchor) :
  sameSession a (snd (schedule t b a)).
Proof.
  unfold schedule, bind, gets, modify, ret, throw.
  cbn [nextStartTimeRef setNextStartTime setNodes setSources nodes sourcesRef
       isActive isConnecting audioContextRef streamRef].
  destruct (Qle_bool 0 (Qmax (nextStartTimeRef a) t)); repeat split.
Qed.

Lemma playInlineAudio_sameSession (t : Q) (msg : LiveServerMessage)
    (a : Anchor) :
  sameSession a (snd (playInlineAudio t msg a)).
Proof.
  unfold playInlineAudio, bind, lift, gets, throw, ret.
  destruct (inlineAudio msg) as [p|e]; [|apply sameSession_refl].
  destruct (truthy p) as [s|]; [|apply sameSession_refl].
  destruct (decode s) as [bytes|e]; [|apply sameSession_refl].
  destruct (audioContextRef a) as [ctx|] eqn:Ec; [|apply sameSession_refl].
  destruct (decodeAudioData bytes ctx 24000 1) as [b|e];
    [|apply sameSession_refl].
  pose proof (schedule_sameSession t b a) as Hs.
  destruct (schedule t b a) as [[w|e] a1]; exact Hs.
Qed.

Lemma stopAllSources_sameSession (a : Anchor) :
  sameSession a (snd (stopAllSources a)).
Proof.
  unfold stopAllSources, bind, gets, modify.
  destruct (forEach_stopSource_frame (sourcesRef a) a) as [ns Hns].
  destruct (forEach (sourcesRef a) stopSource a) as [[[]|e] a1];
    cbn [snd] in *; subst a1; repeat split.
Qed.

Lemma onmessage_sameSession (t : Q) (msg : LiveServerMessage) (a : Anchor) :
  sameSession a (snd (onmessage t msg a)).
Proof.
  unfold onmessage, bind.
  pose proof (playInlineAudio_sameSession t msg a) as H1.
  destruct (playInlineAudio t msg a) as [[[]|e] a1]; cbn [snd] in *;
    [|exact H1].
  destruct (isInterrupted msg); [|exact H1].
  pose proof (stopAllSources_sameSession a1) as H2.
  destruct (stopAllSources a1) as [[[]|e] a2]; cbn [snd] in *.
  - eapply sameSession_trans; [exact H1|].
    eapply sameSession_trans; [exact H2|]. repeat split.
  - eapply sameSession_trans; eauto.
Qed.

Lemma sameSession_state (a a' : Anchor) :
  sameSession a a' -> sessionState a' = sessionState a.
Proof.
  intros (H1 & H2 & _). unfold sessionState. now rewrite H1, H2.
Qed.

(** X8.  Messages and the end of a playback never touch the session: after
    [onmessage] or [onended], whatever the message and whether or not the
    handler throws, the two state flags, the capture stream and the output
    context are what they were. *)
Theorem playback_keeps_session (a : Anchor) :
  (forall currentTime msg,
     sameSession a (snd (onmessage currentTime msg a))
     /\ sessionState (snd (onmessage currentTime msg a)) = sessionState a)
  /\ (forall source,
        sameSession a (snd (onended source a))
        /\ sessionState (snd (onended source a)) = sessionState a).
Proof.
  split.
  - intros t msg. pose proof (onmessage_sameSession t msg a) as Hs.
    split; [exact Hs|now apply sameSession_state].
  - intro s. assert (Hs : sameSession a (snd (onended s a))) by (repeat split).
    split; [exact Hs|now apply sameSession_state].
Qed.

Lemma schedule_cursor_le (t : Q) (b : AudioBuffer) (a : Anchor) :
  (0 <= duration b)%Q ->
  (nextStartTimeRef a <= nextStartTimeRef (snd (schedule t b a)))%Q.
Proof.
  intro Hd. unfold schedule, bind, gets, modify, ret, throw.
  cbn [nextStartTimeRef setNextStartTime setNodes setSources nodes sourcesRef
       isActive isConnecting audioContextRef streamRef].
  destruct (Qle_bool 0 (Qmax (nextStartTimeRef a) t)) eqn:Hw;
    cbn [snd nextStartTimeRef setNextStartTime setNodes setSources].
  - eapply Qle_trans; [apply Q.le_max_l|].
    apply Binary64Facts.fadd_ge; [|exact Hd]. now apply Qle_bool_iff.
  - apply Q.le_max_l.
Qed.

Lemma decoded_duration (bytes : Uint8Array) (ctx : AudioContext)
    (b : AudioBuffer) :
  decodeAudioData bytes ctx 24000 1 = Ok b ->
  duration b = Binary64.round64 (inject_Z (Z.of_nat (frames b)) / 24000)
  /\ (0 <= duration b)%Q.
Proof.
  intro H. destruct (decodeAudioData_inv _ _ _ _ _ H) as (_ & _ & _ & _ & _ & E).
  assert (Hr : sampleRate b = 24000%Q) by (rewrite E; reflexivity).
  unfold duration. rewrite Hr. split; [reflexivity|].
  apply Binary64Facts.round64_nonneg.
  unfold Qdiv, Qinv, Qmult, Qle, inject_Z. cbn. lia.
Qed.

(** The cursor of the component never becomes [Infinity]: a decoded buffer
    has fewer than [2^32] frames, and adding its duration to a non-negative
    double stays below [2^1024]. *)
Lemma decoded_cursor_finite (bytes : Uint8Array) (ctx : AudioContext)
    (b : AudioBuffer) (when : Q) :
  decodeAudioData bytes ctx 24000 1 = Ok b ->
  Binary64.is_double when = true -> (0 <= when)%Q ->
  (Binary64.fadd when (duration b) < Binary64.pow2 1024)%Q.
Proof.
  intros H Hw H0. destruct (decoded_duration _ _ _ H) as [Hd Hd0].
  destruct (decodeAudioData_inv _ _ _ _ _ H) as (_ & _ & _ & _ & _ & E).
  assert (Hf : Z.of_nat (frames b) < 4294967296).
  { rewrite E. cbn [frames]. unfold frameCapacity.
    rewrite Z2Nat.id by (apply Z.mod_pos_bound; lia).
    apply Z.mod_pos_bound. lia. }
  apply Binary64Facts.fadd_finite; [exact Hw|exact H0|exact Hd0|].
  rewrite Hd.
  eapply Qle_lt_trans;
    [apply (Binary64Facts.round64_mono _ (inject_Z 4294967296))|].
  - unfold Qdiv, Qinv, Qmult, Qle, inject_Z. cbn. lia.
  - unfold Qdiv, Qinv, Qmult, Qle, inject_Z. cbn. lia.
  - reflexivity.
Qed.

(** X9.  A message without the interrupted signal never moves the cursor
    backwards, whatever it carries and whether or not the handler throws;
    only an interruption sets the cursor back (to 0). *)
Theorem cursor_monotone (a : Anchor) (currentTime : Q)
    (msg : LiveServerMessage) :
  isInterrupted msg = false ->
  (nextStartTimeRef a
   <= nextStartTimeRef (snd (onmessage currentTime msg a)))%Q.
Proof.
  intro Hi. unfold onmessage, bind. rewrite Hi.
  assert (H : (nextStartTimeRef a
               <= nextStartTimeRef (snd (playInlineAudio currentTime msg a)))%Q).
  { unfold playInlineAudio, bind, lift, gets, throw, ret.
    destruct (inlineAudio msg) as [p|e]; [|apply Qle_refl].
    destruct (truthy p) as [s|]; [|apply Qle_refl].
    destruct (decode s) as [bytes|e]; [|apply Qle_refl].
    destruct (audioContextRef a) as [ctx|]; [|apply Qle_refl].
    destruct (decodeAudioData bytes ctx 24000 1) as [b|e] eqn:Eb;
      [|apply Qle_refl].
    pose proof (schedule_cursor_le currentTime b a
                  (proj2 (decoded_duration _ _ _ Eb))) as Hs.
    destruct (schedule currentTime b a) as [[w|e] a1]; exact Hs. }
  destruct (playInlineAudio currentTime msg a) as [[[]|e] a1]; exact H.
Qed.

Lemma cursor_monotone_witness :
  isInterrupted (audioMessage "AEAA4ACA" false) = false
  /\ (nextStartTimeRef playing
      <= nextStartTimeRef
           (snd (onmessage (1 # 1024) (audioMessage "AEAA4ACA" false)
                   playing)))%Q.
Proof.
  assert (H : isInterrupted (audioMessage "AEAA4ACA" false) = false)
    by reflexivity.
  split; [exact H|].
  exact (cursor_monotone playing (1 # 1024) (audioMessage "AEAA4ACA" false) H).
Defined.

(** X10.  A message handler that throws leaves no trace: from a reachable
    state and with a non-negative clock reading, if [onmessage] raises an
    exception then the component's state is exactly what it was (nothing is
    half scheduled, no source is stopped, the cursor is not moved). *)
Theorem failed_message_changes_nothing (a : Anchor) (currentTime : Q)
    (msg : LiveServerMessage) (e : exn) :
  reachable a -> (0 <= currentTime)%Q ->
  fst (onmessage currentTime msg a) = Throw e ->
  snd (onmessage currentTime msg a) = a.
Proof.
  intros Hr H0. pose proof (reachable_sourcesStarted a Hr) as Hs.
  pose proof (playInlineAudio_sourcesStarted currentTime msg a Hs) as H1.
  unfold onmessage, bind.
  assert (Hplay : forall e', fst (playInlineAudio currentTime msg a) = Throw e'
                             -> snd (playInlineAudio currentTime msg a) = a).
  { unfold playInlineAudio, bind, lift, gets, throw, ret.
    destruct (inlineAudio msg) as [p|e0]; [|reflexivity].
    destruct (truthy p) as [s|]; [|reflexivity].
    destruct (decode s) as [bytes|e0]; [|reflexivity].
    destruct (audioContextRef a) as [ctx|]; [|reflexivity].
    destruct (decodeAudioData bytes ctx 24000 1) as [b|e0]; [|reflexivity].
    rewrite (schedule_closed currentTime b a H0). discriminate. }
  destruct (playInlineAudio currentTime msg a) as [[[]|e0] a1];
    cbn [fst snd] in *.
  - destruct (isInterrupted msg); [|discriminate].
    rewrite (stopAllSources_started a1 H1). discriminate.
  - intros _. now apply (Hplay e0).
Qed.

Lemma failed_message_changes_nothing_witness :
  reachable playing /\ (0 <= 1 # 1024)%Q
  /\ fst (onmessage (1 # 1024) (audioMessage "AA==" true) playing)
     = Throw RangeError
  /\ snd (onmessage (1 # 1024) (audioMessage "AA==" true) playing) = playing.
Proof.
  assert (H1 : reachable playing) by (apply run_reachable; constructor).
  assert (H2 : (0 <= 1 # 1024)%Q) by (unfold Qle; cbn; lia).
  assert (H3 : fst (onmessage (1 # 1024) (audioMessage "AA==" true) playing)
               = Throw RangeError) by reflexivity.
  repeat (split; [assumption|]).
  exact (failed_message_changes_nothing playing (1 # 1024)
           (audioMessage "AA==" true) RangeError H1 H2 H3).
Defined.

(** ** More on the scheduler *)

(** X11.  Whatever the clock does, buffers are scheduled in order and never
    in the past: for any arrivals with non-negative clock readings, every
    buffer is scheduled without an exception and becomes a started node of
    the set of sources; it starts no earlier than the clock reading of its
    arrival (the first one no earlier than the cursor), and the next buffer
    starts no earlier than the cursor that this one left, which is its start
    plus its duration, rounded to a double.  So a buffer can begin before
    the exact end of the one before it by one rounding error at most:
    [2^-53] of the size of that end ([2^-1075] for a subnormal one). *)
Theorem scheduling_keeps_order (a : Anchor)
    (arrivals : list (Q * AudioBuffer)) :
  List.Forall (fun tb => 0 <= fst tb)%Q arrivals ->
  exists whens,
    fst (scheduleAll arrivals a) = Ok whens
    /\ length whens = length arrivals
    /\ forall i s t b,
         whens !! i = Some s -> arrivals !! i = Some (t, b) ->
         nodes (snd (scheduleAll arrivals a)) !! (length (nodes a) + i)%nat
         = Some {| node_buffer := b; node_started := Some s;
                   node_stopped := false |}
         /\ List.In (length (nodes a) + i)%nat
              (sourcesRef (snd (scheduleAll arrivals a)))
         /\ (t <= s)%Q
         /\ (i = 0%nat -> (nextStartTimeRef a <= s)%Q)
         /\ forall s',
              whens !! S i = Some s' ->
              (Binary64.fadd s (duration b) <= s')%Q
              /\ (s + duration b - s'
                  <= Qmax (Qabs (s + duration b) * Binary64.pow2 (-53))
                       (Binary64.pow2 (-1075)))%Q.
Proof.
  intro H. exists (startTimes (nextStartTimeRef a) arrivals).
  split; [now apply scheduleAll_startTimes|].
  split; [apply startTimes_length|].
  intros i s t b Hs Ha.
  destruct (scheduleAll_nodes arrivals a i s t b H Hs Ha) as [Hn Hin].
  destruct (startTimes_spaced arrivals _ i s t b Hs Ha) as (Ht & Hc & Hnext).
  split; [exact Hn|]. split; [exact Hin|]. split; [exact Ht|].
  split; [exact Hc|].
  intros s' Hs'. specialize (Hnext s' Hs'). split; [exact Hnext|].
  pose proof (Binary64Facts.fadd_error s (duration b)) as He.
  set (bound := Qmax (Qabs (s + duration b) * Binary64.pow2 (-53))
                  (Binary64.pow2 (-1075))) in *.
  apply Qabs_Qle_condition in He. destruct He as [He _]. lra.
Qed.

Lemma scheduling_keeps_order_witness :
  List.Forall (fun tb => 0 <= fst tb)%Q raggedArrivals
  /\ exists whens,
       fst (scheduleAll raggedArrivals initialAnchor) = Ok whens
       /\ length whens = length raggedArrivals
       /\ forall i s t b,
            whens !! i = Some s -> raggedArrivals !! i = Some (t, b) ->
            nodes (snd (scheduleAll raggedArrivals initialAnchor))
              !! (length (nodes initialAnchor) + i)%nat
            = Some {| node_buffer := b; node_started := Some s;
                      node_stopped := false |}
            /\ List.In (length (nodes initialAnchor) + i)%nat
                 (sourcesRef (snd (scheduleAll raggedArrivals initialAnchor)))
            /\ (t <= s)%Q
            /\ (i = 0%nat -> (nextStartTimeRef initialAnchor <= s)%Q)
            /\ forall s',
                 whens !! S i = Some s' ->
                 (Binary64.fadd s (duration b) <= s')%Q
                 /\ (s + duration b - s'
                     <= Qmax (Qabs (s + duration b) * Binary64.pow2 (-53))
                          (Binary64.pow2 (-1075)))%Q.
Proof.
  assert (H : List.Forall (fun tb => 0 <= fst tb)%Q raggedArrivals).
  { repeat constructor; vm_compute; discriminate. }
  split; [exact H|].
  exact (scheduling_keeps_order initialAnchor raggedArrivals H).
Defined.

(** The rounding error shows: a buffer of 16800 frames (0.7 s) that starts
    at clock 0.1 leaves the cursor at 0.7999999999999999; the next buffer
    starts there, a little before the exact end of the first one, and the
    third one, which arrives late, starts at the clock reading 5. *)
Example ragged_starts :
  fst (scheduleAll raggedArrivals initialAnchor)
  = Ok [Binary64.round64 (1 # 10);
        (7205759403792793 # 9007199254740992)%Q; 5%Q]
  /\ (7205759403792793 # 9007199254740992
      < Binary64.round64 (1 # 10) + duration (silence 16800))%Q
  /\ map node_started (nodes (snd (scheduleAll raggedArrivals initialAnchor)))
     = [Some (Binary64.round64 (1 # 10));
        Some (7205759403792793 # 9007199254740992)%Q; Some 5%Q]
  /\ sourcesRef (snd (scheduleAll raggedArrivals initialAnchor))
     = [0; 1; 2]%nat.
Proof. vm_compute. repeat split. Qed.

(** X12.  What the capture callback sends can be played back as it is: for
    a buffer of [n] samples ([1 <= n < 2^32]) the text that [onaudioprocess]
    produces, received in a message without interruption, is decoded and
    scheduled without an exception as one buffer of [n] frames holding each
    sample's 16-bit value divided by 32768, and the cursor moves to the later
    of cursor and clock plus the duration of [n / 24000] seconds, quotient
    and sum each rounded to the nearest double. *)
Theorem loopback (a : Anchor) (ctx : AudioContext) (currentTime : Q)
    (input : list number) :
  audioContextRef a = Some ctx -> (0 <= currentTime)%Q ->
  1 <= Z.of_nat (length input) < 4294967296 ->
  exists text buffer,
    onaudioprocess input
    = Ok {| media_data := text; media_mimeType := "audio/pcm;rate=16000" |}
    /\ buffer
       = {| sampleRate := 24000; numberOfChannels := 1;
            frames := length input;
            channelsData := [map (fun x => Num (normalised (pcm x))) input] |}
    /\ onmessage currentTime (audioMessage text false) a
       = (Ok tt, scheduled currentTime buffer a)
    /\ nextStartTimeRef (scheduled currentTime buffer a)
       = Binary64.fadd (Qmax (nextStartTimeRef a) currentTime)
           (Binary64.round64 (inject_Z (Z.of_nat (length input)) / 24000)).
Proof.
  intros Hctx H0 [H1 H2].
  destruct (onaudioprocess_closed input) as (text & Hon & Hb & Ha).
  exists text. eexists. split; [exact Hon|]. split; [reflexivity|].
  assert (Hne : text <> EmptyString).
  { intros ->. apply btoa_length in Hb. rewrite le16_length, length_map in Hb.
    cbn [String.length] in Hb.
    assert ((2 * length input + 2) / 3 = 0)%nat as Hz by lia.
    apply Nat.div_small_iff in Hz; lia. }
  split.
  - apply (onmessage_schedules a ctx currentTime (audioMessage text false) text
             (Uint8Array_of_buffer (flat_map le16 (map pcm input)))).
    + reflexivity.
    + exact Hne.
    + apply decode_atob; [exact Ha|apply le16_bytes].
    + exact Hctx.
    + rewrite decodeAudioData_pcm
        by (rewrite ?length_map; auto using pcm_range; lia).
      now rewrite length_map, map_map.
    + reflexivity.
    + exact H0.
  - cbn [scheduled nextStartTimeRef duration frames sampleRate]. reflexivity.
Qed.

Lemma loopback_witness :
  audioContextRef playing = Some std_ctx /\ (0 <= 1 # 1024)%Q
  /\ 1 <= Z.of_nat (length (map Num fourSamples)) < 4294967296
  /\ exists text buffer,
       onaudioprocess (map Num fourSamples)
       = Ok {| media_data := text; media_mimeType := "audio/pcm;rate=16000" |}
       /\ buffer
          = {| sampleRate := 24000; numberOfChannels := 1;
               frames := length (map Num fourSamples);
               channelsData :=
                 [map (fun x => Num (normalised (pcm x)))
                    (map Num fourSamples)] |}
       /\ onmessage (1 # 1024) (audioMessage text false) playing
          = (Ok tt, scheduled (1 # 1024) buffer playing)
       /\ nextStartTimeRef (scheduled (1 # 1024) buffer playing)
          = Binary64.fadd (Qmax (nextStartTimeRef playing) (1 # 1024))
              (Binary64.round64
                 (inject_Z (Z.of_nat (length (map Num fourSamples)))
                  / 24000)).
Proof.
  assert (H1 : audioContextRef playing = Some std_ctx) by reflexivity.
  assert (H2 : (0 <= 1 # 1024)%Q) by (unfold Qle; cbn; lia).
  assert (H3 : 1 <= Z.of_nat (length (map Num fourSamples)) < 4294967296)
    by (cbn; lia).
  repeat (split; [assumption|]).
  exact (loopback playing std_ctx (1 # 1024) (map Num fourSamples) H1 H2 H3).
Defined.

(** ** More on the set of sources *)

Lemma startedIn_lt (ns : list SourceNode) (s : nat) :
  startedIn ns s -> (s < length ns)%nat.
Proof. intros (n & t & Hn & _). eapply lookup_lt_Some; eauto. Qed.

Lemma filter_other (source : nat) (l : list nat) :
  ~ List.In source l ->
  List.filter (fun s => negb (s =? source)%nat) l = l.
Proof.
  intro H. apply Base64Facts.filter_all, List.Forall_forall.
  intros x Hx. destruct (Nat.eqb_spec x source) as [->|]; [contradiction|].
  reflexivity.
Qed.

(** X13.  The end of a playback undoes its registration: from a reachable
    state, after a buffer is scheduled and its source then ends, the set of
    sources is what it was before, and the ended source is not in it. *)
Theorem ended_source_leaves (a : Anchor) (currentTime : Q)
    (buffer : AudioBuffer) :
  reachable a -> (0 <= currentTime)%Q ->
  sourcesRef (scheduled currentTime buffer a)
  = sourcesRef a ++ [length (nodes a)]
  /\ sourcesRef (snd (onended (length (nodes a))
                        (scheduled currentTime buffer a)))
     = sourcesRef a
  /\ ~ List.In (length (nodes a))
       (sourcesRef (snd (onended (length (nodes a))
                           (scheduled currentTime buffer a)))).
Proof.
  intros Hr H0. pose proof (reachable_sourcesStarted a Hr) as Hs.
  assert (Hnew : ~ List.In (length (nodes a)) (sourcesRef a)).
  { intro Hin. unfold sourcesStarted in Hs. rewrite List.Forall_forall in Hs.
    apply Hs, startedIn_lt in Hin. lia. }
  assert (E : sourcesRef (scheduled currentTime buffer a)
              = sourcesRef a ++ [length (nodes a)]).
  { cbn [scheduled sourcesRef].
    rewrite bool_decide_eq_false_2; [reflexivity|].
    intro Hin. apply Hnew. now apply list_elem_of_In. }
  split; [exact E|].
  unfold onended, modify. cbn [snd]. cbn [setSources sourcesRef]. rewrite E.
  rewrite List.filter_app, (filter_other _ _ Hnew). cbn [List.filter].
  rewrite Nat.eqb_refl. cbn [negb]. rewrite app_nil_r.
  split; [reflexivity|exact Hnew].
Qed.

Lemma ended_source_leaves_witness :
  reachable playing /\ (0 <= 1 # 1024)%Q
  /\ sourcesRef (scheduled (1 # 1024) (silence 2400) playing)
     = sourcesRef playing ++ [length (nodes playing)]
  /\ sourcesRef (snd (onended (length (nodes playing))
                        (scheduled (1 # 1024) (silence 2400) playing)))
     = sourcesRef playing
  /\ ~ List.In (length (nodes playing))
       (sourcesRef (snd (onended (length (nodes playing))
                           (scheduled (1 # 1024) (silence 2400) playing)))).
Proof.
  assert (H1 : reachable playing) by (apply run_reachable; constructor).
  assert (H2 : (0 <= 1 # 1024)%Q) by (unfold Qle; cbn; lia).
  split; [exact H1|]. split; [exact H2|].
  exact (ended_source_leaves playing (1 # 1024) (silence 2400) H1 H2).
Defined.

Lemma stopAll_stopped (l : list nat) (ns : list SourceNode) (s : nat)
    (n : SourceNode) :
  ns !! s = Some n -> List.In s l ->
  stopAll l ns !! s = Some (markStopped n).
Proof.
  intros Hn Hin. unfold stopAll. rewrite list_lookup_imap, Hn. cbn.
  rewrite bool_decide_eq_true_2; [reflexivity|]. now apply list_elem_of_In.
Qed.

Lemma schedule_keeps_sources (t : Q) (b : AudioBuffer) (a : Anchor)
    (s : nat) (n : SourceNode) :
  List.In s (sourcesRef a) -> nodes a !! s = Some n ->
  List.In s (sourcesRef (snd (schedule t b a)))
  /\ nodes (snd (schedule t b a)) !! s = Some n.
Proof.
  intros Hin Hn. pose proof (lookup_lt_Some _ _ _ Hn) as Hlt.
  unfold schedule, bind, gets, modify, ret, throw.
  cbn [nextStartTimeRef setNextStartTime setNodes setSources nodes sourcesRef
       isActive isConnecting audioContextRef streamRef].
  destruct (Qle_bool 0 (Qmax (nextStartTimeRef a) t));
    cbn [snd nextStartTimeRef setNextStartTime setNodes setSources nodes
         sourcesRef].
  - split.
    + destruct (bool_decide _); [exact Hin|]. apply List.in_or_app. now left.
    + rewrite list_lookup_insert_ne by lia. now apply lookup_app_l_Some.
  - split; [exact Hin|now apply lookup_app_l_Some].
Qed.

Lemma playInlineAudio_keeps_sources (t : Q) (msg : LiveServerMessage)
    (a : Anchor) (s : nat) (n : SourceNode) :
  List.In s (sourcesRef a) -> nodes a !! s = Some n ->
  List.In s (sourcesRef (snd (playInlineAudio t msg a)))
  /\ nodes (snd (playInlineAudio t msg a)) !! s = Some n.
Proof.
  intros Hin Hn. unfold playInlineAudio, bind, lift, gets, throw, ret.
  destruct (inlineAudio msg) as [p|e]; [|auto].
  destruct (truthy p) as [x|]; [|auto].
  destruct (decode x) as [bytes|e]; [|auto].
  destruct (audioContextRef a) as [ctx|]; [|auto].
  destruct (decodeAudioData bytes ctx 24000 1) as [b|e]; [|auto].
  pose proof (schedule_keeps_sources t b a s n Hin Hn) as Hs.
  destruct (schedule t b a) as [[w|e] a1]; exact Hs.
Qed.

(** X14.  An interruption stops what was playing: from a reachable state,
    after the handler has processed a message with the interrupted signal,
    every source that was in the set is a stopped node with the buffer and
    the start time it had. *)
Theorem interruption_stops_sources (a : Anchor) (currentTime : Q)
    (msg : LiveServerMessage) :
  reachable a -> isInterrupted msg = true ->
  fst (onmessage currentTime msg a) = Ok tt ->
  forall s, List.In s (sourcesRef a) ->
    exists n,
      nodes a !! s = Some n
      /\ nodes (snd (onmessage currentTime msg a)) !! s
         = Some {| node_buffer := node_buffer n;
                   node_started := node_started n;
                   node_stopped := true |}.
Proof.
  intros Hr Hi Hok s Hin. pose proof (reachable_sourcesStarted a Hr) as Hs.
  assert (Hn : exists n, nodes a !! s = Some n).
  { unfold sourcesStarted in Hs. rewrite List.Forall_forall in Hs.
    destruct (Hs s Hin) as (n & _ & Hn & _). eauto. }
  destruct Hn as [n Hn]. exists n. split; [exact Hn|].
  pose proof (playInlineAudio_sourcesStarted currentTime msg a Hs) as H1.
  destruct (playInlineAudio_keeps_sources currentTime msg a s n Hin Hn)
    as [Hin1 Hn1].
  revert Hok. unfold onmessage, bind. rewrite Hi.
  destruct (playInlineAudio currentTime msg a) as [[[]|e] a1];
    cbn [fst snd] in *; [|discriminate].
  rewrite (stopAllSources_started a1 H1). intros _.
  cbn [modify snd nodes setNextStartTime setSources setNodes].
  now apply stopAll_stopped.
Qed.

Lemma interruption_stops_sources_witness :
  reachable playing
  /\ isInterrupted (audioMessage "AEAA4ACA" true) = true
  /\ fst (onmessage (1 # 1024) (audioMessage "AEAA4ACA" true) playing) = Ok tt
  /\ List.In 0%nat (sourcesRef playing)
  /\ exists n,
       nodes playing !! 0%nat = Some n
       /\ nodes (snd (onmessage (1 # 1024) (audioMessage "AEAA4ACA" true)
                        playing)) !! 0%nat
          = Some {| node_buffer := node_buffer n;
                    node_started := node_started n;
                    node_stopped := true |}.
Proof.
  assert (H1 : reachable playing) by (apply run_reachable; constructor).
  assert (H2 : isInterrupted (audioMessage "AEAA4ACA" true) = true)
    by reflexivity.
  assert (H3 : fst (onmessage (1 # 1024) (audioMessage "AEAA4ACA" true)
                      playing) = Ok tt) by reflexivity.
  assert (H4 : List.In 0%nat (sourcesRef playing)) by (left; reflexivity).
  repeat (split; [assumption|]).
  exact (interruption_stops_sources playing (1 # 1024)
           (audioMessage "AEAA4ACA" true) H1 H2 H3 0%nat H4).
Defined.

(** ** More on the session *)

Lemma stopAnchor_sameContext (a : Anchor) :
  audioContextRef (snd (stopAnchor a)) = audioContextRef a
  /\ isConnecting (snd (stopAnchor a)) = isConnecting a
  /\ isActive (snd (stopAnchor a)) = false.
Proof.
  unfold stopAnchor, bind, modify.
  set (a1 := setStream _ (setIsActive false a)).
  destruct (stopAllSources_sameSession a1) as (H1 & H2 & _ & H4).
  destruct (stopAllSources a1) as [[[]|e] a2]; cbn [snd] in *;
    rewrite H1, H2, H4; repeat split.
Qed.

Lemma startAnchor_flags (ctx : AudioContext) (media : result (list readyState))
    (a : Anchor) :
  isActive (snd (startAnchor ctx media a)) = isActive a
  /\ audioContextRef (snd (startAnchor ctx media a))
     = match audioContextRef a with Some c => Some c | None => Some ctx end.
Proof.
  unfold startAnchor, bind, gets, modify, ret.
  destruct a as [act con [c|] nx src str ns]; destruct media; split;
    reflexivity.
Qed.

(** X15.  The component is never at once active and connecting: in every
    reachable state at most one of the two flags is set, so the button never
    shows the spinner of a connection attempt over an active session. *)
Theorem never_active_and_connecting (a : Anchor) :
  reachable a -> isActive a && isConnecting a = false.
Proof.
  induction 1 as [|a e Hr IH]; [reflexivity|].
  destruct e as [ctx media| |t msg| | |s]; cbn [handle];
    unfold onclose, onerror.
  - unfold onClick, bind, gets.
    destruct (isConnecting a) eqn:Hc;
      [cbn [ret snd]; rewrite Hc; exact IH|].
    destruct (isActive a) eqn:Ha.
    + destruct (stopAnchor_sameContext a) as (_ & _ & ->). reflexivity.
    + rewrite (proj1 (startAnchor_flags ctx media a)), Ha. reflexivity.
  - reflexivity.
  - destruct (onmessage_sameSession t msg a) as (-> & -> & _). exact IH.
  - destruct (stopAnchor_sameContext a) as (_ & _ & ->). reflexivity.
  - destruct (stopAnchor_sameContext a) as (_ & _ & ->). reflexivity.
  - exact IH.
Qed.

Lemma never_active_and_connecting_witness :
  reachable (run [Closed; Click std_ctx (Ok [live])] playing)
  /\ isActive (run [Closed; Click std_ctx (Ok [live])] playing)
     && isConnecting (run [Closed; Click std_ctx (Ok [live])] playing)
     = false.
Proof.
  assert (H : reachable (run [Closed; Click std_ctx (Ok [live])] playing))
    by (do 2 apply run_reachable; constructor).
  split; [exact H|]. exact (never_active_and_connecting _ H).
Defined.

(** X16.  [stopAnchor] is faultless and idempotent on reachable states: it
    never throws (every source of the set has been started, so [stop] is
    allowed), and calling it again right away changes nothing. *)
Theorem stopAnchor_idempotent (a : Anchor) :
  reachable a ->
  fst (stopAnchor a) = Ok tt
  /\ stopAnchor (snd (stopAnchor a)) = (Ok tt, snd (stopAnchor a)).
Proof.
  intro Hr. destruct (stopAnchor_twice a Hr) as (H1 & H2 & H3 & _).
  split; [exact H1|].
  destruct (stopAnchor (snd (stopAnchor a))) as [r a2]; cbn [fst snd] in *.
  now subst.
Qed.

Lemma stopAnchor_idempotent_witness :
  reachable playing
  /\ fst (stopAnchor playing) = Ok tt
  /\ stopAnchor (snd (stopAnchor playing)) = (Ok tt, snd (stopAnchor playing)).
Proof.
  assert (H : reachable playing) by (apply run_reachable; constructor).
  split; [exact H|]. exact (stopAnchor_idempotent playing H).
Defined.

Lemma stopAll_other (l : list nat) (ns : list SourceNode) (s : nat) :
  ~ List.In s l -> stopAll l ns !! s = ns !! s.
Proof.
  intro Hn. unfold stopAll. rewrite list_lookup_imap.
  destruct (ns !! s) as [n|]; [|reflexivity]. cbn.
  rewrite bool_decide_eq_false_2; [reflexivity|].
  intro Hin. apply Hn. now apply list_elem_of_In.
Qed.

(** X17.  What a teardown does: from a reachable state [stopAnchor] leaves
    the assistant inactive, ends every track of the capture stream (the
    stream keeps its tracks), stops exactly the sources of the set (each
    keeps its buffer and start time, every other node is untouched), empties
    the set and keeps the output context. *)
Theorem stopAnchor_effect (a : Anchor) :
  reachable a ->
  isActive (snd (stopAnchor a)) = false
  /\ sourcesRef (snd (stopAnchor a)) = []
  /\ streamRef (snd (stopAnchor a))
     = option_map (map (fun _ => ended)) (streamRef a)
  /\ audioContextRef (snd (stopAnchor a)) = audioContextRef a
  /\ length (nodes (snd (stopAnchor a))) = length (nodes a)
  /\ (forall s, List.In s (sourcesRef a) ->
        exists n,
          nodes a !! s = Some n
          /\ nodes (snd (stopAnchor a)) !! s
             = Some {| node_buffer := node_buffer n;
                       node_started := node_started n;
                       node_stopped := true |})
  /\ (forall s, ~ List.In s (sourcesRef a) ->
        nodes (snd (stopAnchor a)) !! s = nodes a !! s).
Proof.
  intro Hr. pose proof (reachable_sourcesStarted a Hr) as Hs.
  rewrite (stopAnchor_closed a Hs).
  cbn [snd tornDown isActive sourcesRef streamRef audioContextRef nodes].
  repeat split.
  - unfold stopAll. apply length_imap.
  - intros s Hin. unfold sourcesStarted in Hs.
    rewrite List.Forall_forall in Hs.
    destruct (Hs s Hin) as (n & _ & Hn & _). exists n.
    split; [exact Hn|]. now apply stopAll_stopped.
  - intros s Hn. now apply stopAll_other.
Qed.

Lemma stopAnchor_effect_witness :
  reachable playing
  /\ isActive (snd (stopAnchor playing)) = false
  /\ sourcesRef (snd (stopAnchor playing)) = []
  /\ streamRef (snd (stopAnchor playing)) = Some [ended]
  /\ map node_stopped (nodes (snd (stopAnchor playing))) = [true].
Proof.
  assert (H : reachable playing) by (apply run_reachable; constructor).
  destruct (stopAnchor_effect playing H) as (H1 & H2 & H3 & _).
  repeat split; try assumption.
Defined.

Lemma handle_keeps_context (e : event) (a : Anchor) (ctx : AudioContext) :
  audioContextRef a = Some ctx ->
  audioContextRef (snd (handle e a)) = Some ctx.
Proof.
  intro H. destruct e as [c media| |t msg| | |s]; cbn [handle];
    unfold onclose, onerror.
  - unfold onClick, bind, gets.
    destruct (isConnecting a); [exact H|].
    destruct (isActive a).
    + now rewrite (proj1 (stopAnchor_sameContext a)).
    + now rewrite (proj2 (startAnchor_flags c media a)), H.
  - exact H.
  - destruct (onmessage_sameSession t msg a) as (_ & _ & _ & ->). exact H.
  - now rewrite (proj1 (stopAnchor_sameContext a)).
  - now rewrite (proj1 (stopAnchor_sameContext a)).
  - exact H.
Qed.

(** X18.  The output context is created once: as soon as the ref holds a
    context, it holds that same context after any sequence of events, so
    every later session plays on the clock of the first one. *)
Theorem context_created_once (events : list event) (a : Anchor)
    (ctx : AudioContext) :
  audioContextRef a = Some ctx ->
  audioContextRef (run events a) = Some ctx.
Proof.
  revert a. induction events as [|e events IH]; intros a H; [exact H|].
  cbn [run fold_left]. apply IH. now apply handle_keeps_context.
Qed.

Lemma context_created_once_witness :
  audioContextRef playing = Some std_ctx
  /\ audioContextRef
       (run [Closed; Click wide_ctx (Ok [live]); Opened] playing)
     = Some std_ctx.
Proof.
  assert (H : audioContextRef playing = Some std_ctx) by reflexivity.
  split; [exact H|].
  exact (context_created_once [Closed; Click wide_ctx (Ok [live]); Opened]
           playing std_ctx H).
Defined.

(** X19.  A teardown does not silence the session: [stopAnchor] leaves the
    connection and the message handler as they are, so from a reachable
    state with no connection attempt pending, audio that arrives after the
    teardown is decoded, scheduled and started while the session is [IDLE],
    and it is then the only source of the set. *)
Theorem audio_after_stop (a : Anchor) (ctx : AudioContext) (currentTime : Q)
    (msg : LiveServerMessage) (base64 : string) (bytes : Uint8Array)
    (buffer : AudioBuffer) :
  reachable a -> isConnecting a = false -> audioContextRef a = Some ctx ->
  inlineAudio msg = Ok (Some base64) -> base64 <> EmptyString ->
  decode base64 = Ok bytes ->
  decodeAudioData bytes ctx 24000 1 = Ok buffer ->
  isInterrupted msg = false -> (0 <= currentTime)%Q ->
  sessionState (snd (stopAnchor a)) = IDLE
  /\ onmessage currentTime msg (snd (stopAnchor a))
     = (Ok tt, scheduled currentTime buffer (snd (stopAnchor a)))
  /\ sessionState (scheduled currentTime buffer (snd (stopAnchor a))) = IDLE
  /\ sourcesRef (scheduled currentTime buffer (snd (stopAnchor a)))
     = [length (nodes a)]
  /\ nodes (scheduled currentTime buffer (snd (stopAnchor a)))
     !! length (nodes a)
     = Some {| node_buffer := buffer;
               node_started :=
                 Some (Qmax (nextStartTimeRef a) currentTime);
               node_stopped := false |}.
Proof.
  intros Hr Hc Hctx Hp Hne Hd Hb Hi H0.
  pose proof (reachable_sourcesStarted a Hr) as Hs.
  rewrite (stopAnchor_closed a Hs). cbn [snd].
  assert (Hidle : sessionState (tornDown a) = IDLE).
  { unfold sessionState. cbn. now rewrite Hc. }
  split; [exact Hidle|]. split.
  - apply (onmessage_schedules _ ctx currentTime msg base64 bytes buffer);
      auto.
  - split; [|split].
    + unfold sessionState. cbn. now rewrite Hc.
    + cbn [scheduled sourcesRef tornDown nodes]. unfold stopAll.
      rewrite length_imap. reflexivity.
    + cbn [scheduled nodes tornDown nextStartTimeRef]. unfold stopAll.
      rewrite lookup_app_r by (rewrite length_imap; lia).
      rewrite length_imap, Nat.sub_diag. reflexivity.
Qed.

Lemma audio_after_stop_witness :
  reachable playing /\ isConnecting playing = false
  /\ audioContextRef playing = Some std_ctx
  /\ inlineAudio (audioMessage "AEAA4ACA" false) = Ok (Some "AEAA4ACA"%string)
  /\ "AEAA4ACA"%string <> EmptyString
  /\ decode "AEAA4ACA" = Ok sixBytes
  /\ decodeAudioData sixBytes std_ctx 24000 1
     = Ok {| sampleRate := 24000; numberOfChannels := 1; frames := 3;
             channelsData := [[Num (16384 # 32768); Num (-8192 # 32768);
                               Num (-32768 # 32768)]] |}
  /\ isInterrupted (audioMessage "AEAA4ACA" false) = false
  /\ (0 <= 1 # 1024)%Q
  /\ sessionState (snd (stopAnchor playing)) = IDLE
  /\ sourcesRef
       (snd (onmessage (1 # 1024) (audioMessage "AEAA4ACA" false)
               (snd (stopAnchor playing))))
     = [length (nodes playing)].
Proof.
  assert (H1 : reachable playing) by (apply run_reachable; constructor).
  assert (H2 : isConnecting playing = false) by reflexivity.
  assert (H3 : audioContextRef playing = Some std_ctx) by reflexivity.
  assert (H4 : inlineAudio (audioMessage "AEAA4ACA" false)
               = Ok (Some "AEAA4ACA"%string)) by reflexivity.
  assert (H5 : "AEAA4ACA"%string <> EmptyString) by discriminate.
  assert (H6 : decode "AEAA4ACA" = Ok sixBytes) by reflexivity.
  assert (H7 : decodeAudioData sixBytes std_ctx 24000 1
               = Ok {| sampleRate := 24000; numberOfChannels := 1; frames := 3;
                       channelsData := [[Num (16384 # 32768);
                                         Num (-8192 # 32768);
                                         Num (-32768 # 32768)]] |})
    by reflexivity.
  assert (H8 : isInterrupted (audioMessage "AEAA4ACA" false) = false)
    by reflexivity.
  assert (H9 : (0 <= 1 # 1024)%Q) by (unfold Qle; cbn; lia).
  repeat (split; [assumption|]).
  destruct (audio_after_stop playing std_ctx (1 # 1024)
              (audioMessage "AEAA4ACA" false) "AEAA4ACA" sixBytes _
              H1 H2 H3 H4 H5 H6 H7 H8 H9) as (Ha & Hb & _ & Hd & _).
  split; [exact Ha|]. rewrite Hb. exact Hd.
Defined.

(** ** Narration: [generateNewsAudio] and [handlePlayAudio] *)

Example narrating_state :
  audioPlaying narrating = Some "a"%string
  /\ audioSourceRef narrating = Some 0%nat
  /\ map node_started (playerNodes narrating) = [Some 0%Q]
  /\ map (fun n => frames (node_buffer n)) (playerNodes narrating) = [3%nat].
Proof. repeat split. Qed.

Lemma decodeAudioData_empty (ctx : AudioContext) (rate : Q) (ch : nat) :
  decodeAudioData (Uint8Array_new 0) ctx rate ch = Throw NotSupportedError.
Proof.
  rewrite decodeAudioData_closed. cbn [Uint8Array_new u8_buffer repeat length].
  cbn [Nat.modulo Nat.eqb negb]. cbv zeta.
  unfold i16_length, frameCapacity. cbn [i16_buffer length].
  replace (0 / 2)%nat with 0%nat by reflexivity.
  assert (E : (0 / ch)%nat = 0%nat) by apply Nat.Div0.div_0_l.
  rewrite E. cbn [Z.of_nat]. rewrite Z.mod_0_l by lia. cbn [Z.to_nat Nat.leb].
  now rewrite Bool.andb_false_r.
Qed.

(** X20.  A narration without audio ends quietly: when the response of the
    model carries no inline audio (or an empty one), [generateNewsAudio]
    returns an empty array, [decodeAudioData] refuses it, and the [catch]
    block of [handlePlayAudio] clears the playing mark; no source is created
    and the current one is left alone. *)
Theorem narration_without_audio (p : Player) (platformCtx : AudioContext)
    (response : GenerateContentResponse) :
  truthy (responseAudio response) = None ->
  generateNewsAudio (Ok response) = Ok (Uint8Array_new 0)
  /\ audioPlaying
       (handlePlayAudio_resume platformCtx (generateNewsAudio (Ok response)) p)
     = None
  /\ playerNodes
       (handlePlayAudio_resume platformCtx (generateNewsAudio (Ok response)) p)
     = playerNodes p
  /\ audioSourceRef
       (handlePlayAudio_resume platformCtx (generateNewsAudio (Ok response)) p)
     = audioSourceRef p.
Proof.
  intro H.
  assert (E : generateNewsAudio (Ok response) = Ok (Uint8Array_new 0)).
  { unfold generateNewsAudio. rewrite H. reflexivity. }
  rewrite E. split; [reflexivity|].
  unfold handlePlayAudio_resume. rewrite decodeAudioData_empty.
  repeat split.
Qed.

Lemma narration_without_audio_witness :
  truthy (responseAudio (audioResponse "")) = None
  /\ generateNewsAudio (Ok (audioResponse "")) = Ok (Uint8Array_new 0)
  /\ audioPlaying
       (handlePlayAudio_resume std_ctx
          (generateNewsAudio (Ok (audioResponse ""))) narrating)
     = None
  /\ playerNodes
       (handlePlayAudio_resume std_ctx
          (generateNewsAudio (Ok (audioResponse ""))) narrating)
     = playerNodes narrating
  /\ audioSourceRef
       (handlePlayAudio_resume std_ctx
          (generateNewsAudio (Ok (audioResponse ""))) narrating)
     = audioSourceRef narrating.
Proof.
  assert (H : truthy (responseAudio (audioResponse "")) = None) by reflexivity.
  split; [exact H|].
  exact (narration_without_audio narrating std_ctx (audioResponse "") H).
Defined.

Lemma resume_playerSourceStarted (ctx : AudioContext)
    (audio : result Uint8Array) (p : Player) :
  playerSourceStarted p ->
  playerSourceStarted (handlePlayAudio_resume ctx audio p).
Proof.
  intro H. unfold handlePlayAudio_resume.
  destruct audio as [bytes|e]; [|exact H].
  destruct (decodeAudioData bytes _ 24000 1) as [b|e]; [|exact H].
  intros s Hs. cbn in Hs. injection Hs as <-.
  cbn [playerNodes].
  exists {| node_buffer := b; node_started := Some 0%Q; node_stopped := false |},
    0%Q.
  split; [|reflexivity].
  rewrite lookup_app_r, Nat.sub_diag by lia. reflexivity.
Qed.

Lemma click_playerSourceStarted (articleId : string) (p : Player) :
  playerSourceStarted p ->
  playerSourceStarted (playerStep (PlayClick articleId) p).
Proof.
  intro H. cbn [playerStep]. unfold handlePlayAudio.
  destruct (isPlaying articleId p); [|exact H].
  destruct (audioSourceRef p) as [s|] eqn:Es; [|exact H].
  destruct (H s Es) as (n & t & Hn & Ht).
  rewrite Hn. unfold stopNode. rewrite Ht.
  intros s' Hs'. cbn in Hs'. rewrite ?Es in Hs'. injection Hs' as <-.
  cbn [playerNodes setAudioPlaying].
  eexists _, t.
  rewrite list_lookup_insert_eq by (eapply lookup_lt_Some; eauto).
  split; reflexivity.
Qed.

Lemma playerReachable_sourceStarted (p : Player) :
  playerReachable p -> playerSourceStarted p.
Proof.
  induction 1 as [|p e _ IH]; [intros s Hs; discriminate|].
  destruct e as [id|ctx outcome|].
  - now apply click_playerSourceStarted.
  - now apply resume_playerSourceStarted.
  - exact IH.
Qed.

(** X21.  The play button never throws: in every reachable state of the
    narration a click is handled without an exception.  On the article that
    is marked as playing it stops the source of the ref, clears the mark and
    asks for nothing; on any other article it marks that article, asks for
    its audio and leaves every source as it is. *)
Theorem handlePlayAudio_toggles (articleId : string) (p : Player) :
  playerReachable p ->
  exists pending p',
    handlePlayAudio articleId p = Ok (pending, p')
    /\ (isPlaying articleId p = true ->
        pending = false /\ audioPlaying p' = None
        /\ forall s, audioSourceRef p = Some s ->
             exists n, playerNodes p !! s = Some n
                       /\ playerNodes p' !! s
                          = Some {| node_buffer := node_buffer n;
                                    node_started := node_started n;
                                    node_stopped := true |})
    /\ (isPlaying articleId p = false ->
        pending = true /\ audioPlaying p' = Some articleId
        /\ playerNodes p' = playerNodes p
        /\ audioSourceRef p' = audioSourceRef p).
Proof.
  intro Hr. pose proof (playerReachable_sourceStarted p Hr) as Hs.
  unfold handlePlayAudio.
  destruct (isPlaying articleId p).
  - destruct (audioSourceRef p) as [s|] eqn:Es.
    + destruct (Hs s Es) as (n & t & Hn & Ht).
      rewrite Hn. unfold stopNode. rewrite Ht.
      do 2 eexists. split; [reflexivity|]. split; [|discriminate].
      intros _. repeat split. intros s' Hs'. injection Hs' as <-.
      exists n. split; [exact Hn|].
      cbn [playerNodes setAudioPlaying].
      rewrite list_lookup_insert_eq by (eapply lookup_lt_Some; eauto).
      now rewrite Ht.
    + do 2 eexists. split; [reflexivity|]. split; [|discriminate].
      intros _. repeat split. discriminate.
  - do 2 eexists. split; [reflexivity|]. split; [discriminate|].
    intros _. repeat split.
Qed.

Lemma handlePlayAudio_toggles_witness :
  playerReachable narrating
  /\ isPlaying "a" narrating = true
  /\ exists pending p',
       handlePlayAudio "a" narrating = Ok (pending, p')
       /\ (isPlaying "a" narrating = true ->
           pending = false /\ audioPlaying p' = None
           /\ forall s, audioSourceRef narrating = Some s ->
                exists n, playerNodes narrating !! s = Some n
                          /\ playerNodes p' !! s
                             = Some {| node_buffer := node_buffer n;
                                       node_started := node_started n;
                                       node_stopped := true |})
       /\ (isPlaying "a" narrating = false ->
           pending = true /\ audioPlaying p' = Some "a"%string
           /\ playerNodes p' = playerNodes narrating
           /\ audioSourceRef p' = audioSourceRef narrating).
Proof.
  assert (H : playerReachable narrating) by (do 2 constructor; constructor).
  split; [exact H|]. split; [reflexivity|].
  exact (handlePlayAudio_toggles "a" narrating H).
Defined.

(** X22.  Starting another article does not stop the one that plays: a
    click on an article that is not marked as playing, followed by the answer
    to its request, leaves every existing source node exactly as it was; when
    the new audio can be played the ref moves on to the new source, so the
    earlier source can no longer be stopped from the button. *)
Theorem other_article_keeps_playing (articleId : string) (p : Player)
    (platformCtx : AudioContext) (audio : result Uint8Array) :
  isPlaying articleId p = false ->
  exists p1,
    handlePlayAudio articleId p = Ok (true, p1)
    /\ (forall s n, playerNodes p !! s = Some n ->
          playerNodes (handlePlayAudio_resume platformCtx audio p1) !! s
          = Some n)
    /\ (forall bytes buffer,
          audio = Ok bytes ->
          decodeAudioData bytes
            (match playerContextRef p with
             | Some c => c | None => platformCtx end) 24000 1 = Ok buffer ->
          audioSourceRef (handlePlayAudio_resume platformCtx audio p1)
          = Some (length (playerNodes p))
          /\ audioPlaying (handlePlayAudio_resume platformCtx audio p1)
             = Some articleId).
Proof.
  intro H. unfold handlePlayAudio. rewrite H.
  eexists. split; [reflexivity|]. split.
  - intros s n Hn. unfold handlePlayAudio_resume.
    destruct audio as [bytes|e]; [|exact Hn].
    cbn [playerContextRef setAudioPlaying playerNodes].
    destruct (decodeAudioData bytes _ 24000 1) as [b|e]; [|exact Hn].
    cbn [playerNodes]. now apply lookup_app_l_Some.
  - intros bytes buffer -> Hb. unfold handlePlayAudio_resume.
    cbn [playerContextRef setAudioPlaying playerNodes].
    rewrite Hb. split; reflexivity.
Qed.

Lemma other_article_keeps_playing_witness :
  isPlaying "b" narrating = false
  /\ exists p1,
       handlePlayAudio "b" narrating = Ok (true, p1)
       /\ map node_stopped
            (playerNodes
               (handlePlayAudio_resume std_ctx
                  (generateNewsAudio (Ok (audioResponse "AEAA4ACA"))) p1))
          = [false; false]
       /\ audioSourceRef
            (handlePlayAudio_resume std_ctx
               (generateNewsAudio (Ok (audioResponse "AEAA4ACA"))) p1)
          = Some 1%nat.
Proof.
  assert (H : isPlaying "b" narrating = false) by reflexivity.
  split; [exact H|].
  destruct (other_article_keeps_playing "b" narrating std_ctx
              (generateNewsAudio (Ok (audioResponse "AEAA4ACA"))) H)
    as (p1 & Hh & _ & _).
  exists p1. split; [exact Hh|].
  assert (E : p1 = setAudioPlaying (Some "b"%string) narrating).
  { assert (E0 : handlePlayAudio "b" narrating
                 = Ok (true, setAudioPlaying (Some "b"%string) narrating))
      by reflexivity.
    rewrite Hh in E0. now injection E0. }
  rewrite E. split; reflexivity.
Defined.

(** ** The image circuit breaker of [generateSmartImage] *)

Lemma clearTimeout_ref (b : Breaker) (id : nat) :
  breakerInv b -> quotaResetTimeout b = Some id ->
  clearTimeout id (pendingTimers b) = [].
Proof.
  intros (_ & _ & Hall & Hlen & _) Hid. unfold clearTimeout.
  destruct (pendingTimers b) as [|[i d] [|t ts]]; [reflexivity| |cbn in Hlen; lia].
  assert (E : Some (fst (i, d)) = Some id).
  { rewrite <- Hid. symmetry. apply Hall. now left. }
  cbn in E. injection E as ->. cbn. now rewrite Nat.eqb_refl.
Qed.

Lemma resume_breakerInv (now : Z) (outcome : imageOutcome) (b : Breaker) :
  breakerInv b -> breakerInv (snd (generateSmartImage_resume now outcome b)).
Proof.
  intro H. unfold generateSmartImage_resume.
  destruct outcome as [response|message].
  - destruct (firstInlineData (responseParts response)); exact H.
  - destruct (isQuotaError message); [|exact H].
    assert (Ht : match quotaResetTimeout b with
                 | Some id => clearTimeout id (pendingTimers b)
                 | None => pendingTimers b
                 end = []).
    { destruct (quotaResetTimeout b) as [id|] eqn:E.
      - now apply clearTimeout_ref.
      - destruct H as (_ & _ & Hall & _).
        destruct (pendingTimers b) as [|t ts]; [reflexivity|].
        specialize (Hall t (or_introl eq_refl)). congruence. }
    rewrite Ht. cbn [snd app]. destruct H as (H1 & _).
    unfold breakerInv.
    cbn [nextTimer quotaResetTimeout pendingTimers isImageQuotaExhausted length].
    repeat split; try lia.
    + intros id E. injection E as <-. lia.
    + intros t [<-|[]]. reflexivity.
    + intros _. eauto.
Qed.

Lemma timerFires_breakerInv (id : nat) (now : Z) (b : Breaker) :
  breakerInv b -> breakerInv (timerFires id now b).
Proof.
  intro H. unfold timerFires.
  destruct (existsb _ (pendingTimers b)) eqn:E; [|exact H].
  destruct H as (H1 & H2 & Hall & Hlen & Hex).
  unfold breakerInv.
  cbn [nextTimer quotaResetTimeout pendingTimers isImageQuotaExhausted].
  split; [exact H1|]. split; [exact H2|]. split; [|split].
  - intros t Ht. apply List.filter_In in Ht. apply Hall, Ht.
  - unfold clearTimeout.
    pose proof (List.filter_length_le
                  (fun t => negb (fst t =? id)%nat) (pendingTimers b)). lia.
  - discriminate.
Qed.

Lemma breakerReachable_inv (b : Breaker) :
  breakerReachable b -> breakerInv b.
Proof.
  induction 1 as [|b e _ IH].
  - unfold breakerInv. cbn. repeat split; try lia; try discriminate.
  - destruct e as [now outcome|id now]; cbn [breakerStep].
    + now apply resume_breakerInv.
    + now apply timerFires_breakerInv.
Qed.

(** X23.  The breaker cannot stay open for ever and timers do not pile up:
    in every reachable state at most one reset timer is pending, and when
    the breaker is open exactly one is, the one of the ref, whose firing
    closes the breaker again. *)
Theorem breaker_always_resets (b : Breaker) :
  breakerReachable b ->
  (length (pendingTimers b) <= 1)%nat
  /\ (isImageQuotaExhausted b = true ->
      exists id due,
        quotaResetTimeout b = Some id
        /\ pendingTimers b = [(id, due)]
        /\ forall now, due <= now ->
             isImageQuotaExhausted (timerFires id now b) = false
             /\ pendingTimers (timerFires id now b) = []
             /\ generateSmartImage_begin (timerFires id now b) = true).
Proof.
  intro Hr. destruct (breakerReachable_inv b Hr) as (_ & _ & _ & Hlen & Hex).
  split; [exact Hlen|]. intro Ho.
  destruct (Hex Ho) as (id & due & Hid & Hp).
  exists id, due. split; [exact Hid|]. split; [exact Hp|].
  intros now Hdue. unfold timerFires, generateSmartImage_begin. rewrite Hp.
  cbn [existsb fst snd]. rewrite Nat.eqb_refl.
  destruct (Z.leb_spec due now); [|lia].
  cbn [andb orb isImageQuotaExhausted pendingTimers clearTimeout List.filter
       fst negb].
  rewrite Nat.eqb_refl. repeat split.
Qed.

Lemma breaker_always_resets_witness :
  breakerReachable trippedTwice
  /\ isImageQuotaExhausted trippedTwice = true
  /\ pendingTimers trippedTwice = [(2%nat, 125000)]
  /\ (length (pendingTimers trippedTwice) <= 1)%nat
  /\ exists id due,
       quotaResetTimeout trippedTwice = Some id
       /\ pendingTimers trippedTwice = [(id, due)]
       /\ forall now, due <= now ->
            isImageQuotaExhausted (timerFires id now trippedTwice) = false
            /\ pendingTimers (timerFires id now trippedTwice) = []
            /\ generateSmartImage_begin (timerFires id now trippedTwice) = true.
Proof.
  assert (H : breakerReachable trippedTwice) by (do 2 constructor; constructor).
  assert (Ho : isImageQuotaExhausted trippedTwice = true) by reflexivity.
  split; [exact H|]. split; [exact Ho|]. split; [reflexivity|].
  destruct (breaker_always_resets trippedTwice H) as [Hlen Hex].
  split; [exact Hlen|]. exact (Hex Ho).
Defined.

(** X24.  The breaker opens on quota errors only, and then for 120 seconds:
    an answer that is a response, or an error whose message contains neither
    [429] nor [RESOURCE_EXHAUSTED] (or that has no message), leaves the
    breaker as it is; a quota error at time [now], in a reachable state,
    gives no image, opens the breaker, so that further calls return at once
    without a request, and leaves a single timer due at [now + 120000]. *)
Theorem breaker_trips_on_quota (b : Breaker) (now : Z)
    (outcome : imageOutcome) :
  breakerReachable b ->
  match outcome with
  | ImageError message =>
      if isQuotaError message
      then fst (generateSmartImage_resume now outcome b) = None
           /\ generateSmartImage_begin
                (snd (generateSmartImage_resume now outcome b)) = false
           /\ pendingTimers (snd (generateSmartImage_resume now outcome b))
              = [(nextTimer b, now + 120000)]
           /\ quotaResetTimeout (snd (generateSmartImage_resume now outcome b))
              = Some (nextTimer b)
      else generateSmartImage_resume now outcome b = (None, b)
  | ImageResponse _ => snd (generateSmartImage_resume now outcome b) = b
  end.
Proof.
  intro Hr. pose proof (breakerReachable_inv b Hr) as Hinv.
  destruct outcome as [response|message].
  - cbn [generateSmartImage_resume].
    destruct (firstInlineData (responseParts response)); reflexivity.
  - cbn [generateSmartImage_resume].
    destruct (isQuotaError message); [|reflexivity].
    assert (Ht : match quotaResetTimeout b with
                 | Some id => clearTimeout id (pendingTimers b)
                 | None => pendingTimers b
                 end = []).
    { destruct (quotaResetTimeout b) as [id|] eqn:E.
      - now apply clearTimeout_ref.
      - destruct Hinv as (_ & _ & Hall & _).
        destruct (pendingTimers b) as [|t ts]; [reflexivity|].
        specialize (Hall t (or_introl eq_refl)). congruence. }
    rewrite Ht. repeat split.
Qed.

Lemma breaker_trips_on_quota_witness :
  breakerReachable trippedTwice
  /\ fst (generateSmartImage_resume 9000 (ImageError (Some "HTTP 429"%string))
            trippedTwice) = None
  /\ generateSmartImage_begin
       (snd (generateSmartImage_resume 9000 (ImageError (Some "HTTP 429"%string))
               trippedTwice)) = false
  /\ pendingTimers
       (snd (generateSmartImage_resume 9000 (ImageError (Some "HTTP 429"%string))
               trippedTwice))
     = [(nextTimer trippedTwice, 9000 + 120000)]
  /\ quotaResetTimeout
       (snd (generateSmartImage_resume 9000 (ImageError (Some "HTTP 429"%string))
               trippedTwice))
     = Some (nextTimer trippedTwice).
Proof.
  assert (H : breakerReachable trippedTwice) by (do 2 constructor; constructor).
  split; [exact H|].
  exact (breaker_trips_on_quota trippedTwice 9000
           (ImageError (Some "HTTP 429"%string)) H).
Defined.

(** ** Parsed JSON and [normalizeArticles] *)

Example normalize_empty_object :
  fst (normalizeArticles testEnv (Some (JArr [JObj []])) None 3)
  = [JObj [("id", JStr "4fzyo82mv");
           ("title", JStr "Intelligence Update");
           ("summary", JStr "Connecting with global network nodes...");
           ("category", JStr "Global");
           ("sentiment", JStr "neutral");
           ("publishedAt", JStr "2025-01-01T00:00:00.000Z");
           ("source", JStr "Intelligence Hub");
           ("sourceUrl", JStr "https://google.com/news");
           ("imageUrls",
            JArr [JStr "https://images.unsplash.com/photo-1451187580459-43490279c0fa?q=80&w=1200&sig=4fzyo82mv"]);
           ("bullets", JArr [JStr "Processing intel..."]);
           ("readingTime", JNum 2);
           ("impactScore", JNum (inject_Z 76));
           ("futureForecast",
            JStr "Analyzing long-term market trajectories...");
           ("groundingUrls", JArr [])]%string].
Proof. reflexivity. Qed.

Lemma normalizeFrom_Forall2 (R : json -> json -> Prop) (env : Env)
    (urls : list json) (articles : list json) :
  (forall i k a, R a (fst (normalizeArticle env urls i k a))) ->
  forall i k, Forall2 R articles (fst (normalizeFrom env urls i k articles)).
Proof.
  intro H. induction articles as [|a rest IH]; intros i k;
    cbn [normalizeFrom]; [constructor|].
  specialize (H i k a).
  destruct (normalizeArticle env urls i k a) as [a' k'].
  specialize (IH (S i) k').
  destruct (normalizeFrom env urls (S i) k' rest) as [rest' k''].
  cbn [fst] in *. now constructor.
Qed.

Lemma orElse_truthy (x : option json) (d : json) :
  truthyJ d = true -> truthyJ (orElse x d) = true.
Proof.
  intro Hd. unfold orElse. destruct x as [v|]; [|exact Hd].
  destruct (truthyJ v) eqn:Ev; [exact Ev|exact Hd].
Qed.

Lemma textOr_nonempty (s : option string) (d : string) :
  d <> EmptyString -> textOr s d <> EmptyString.
Proof.
  intro Hd. unfold textOr, truthy.
  destruct s as [[|c s]|]; try exact Hd. discriminate.
Qed.

Lemma groundingUrlsOf_ok (g : option GroundingMetadata) :
  List.Forall isGroundingUrl (groundingUrlsOf g).
Proof.
  unfold groundingUrlsOf. destruct g as [g|]; [|constructor].
  destruct (groundingChunks g) as [chunks|]; [|constructor].
  apply List.Forall_map, List.Forall_forall. intros c _.
  eexists _, _. split; [reflexivity|].
  split; apply textOr_nonempty; discriminate.
Qed.

Lemma Forall_take {A : Type} (P : A -> Prop) (n : nat) (l : list A) :
  List.Forall P l -> List.Forall P (take n l).
Proof.
  intro H. apply List.Forall_forall. intros x Hx.
  rewrite List.Forall_forall in H. apply H.
  apply list_elem_of_In in Hx. apply list_elem_of_In.
  apply elem_of_take in Hx. destruct Hx as (i & Hi & _).
  eapply list_elem_of_lookup_2; eauto.
Qed.

Lemma normalizeArticle_ok (env : Env) (urls : list json) (i k : nat)
    (a : json) :
  List.Forall isGroundingUrl urls ->
  normalised_article (fst (normalizeArticle env urls i k a)).
Proof.
  intro Hu. unfold normalizeArticle. cbv zeta. cbn [fst].
  unfold normalised_article. cbn [keysOf map fst getProp].
  split; [reflexivity|]. split; [|split; [|split; [|split]]].
  - cbn [assoc String.eqb Ascii.eqb Bool.eqb].
    unfold isSentiment.
    destruct (getProp a "sentiment") as [[| | |s| |]|];
      try (exists "neutral"%string; split; [reflexivity|auto]).
    destruct (String.eqb_spec s "positive") as [->|];
      [exists "positive"%string; auto|].
    destruct (String.eqb_spec s "negative") as [->|];
      [exists "negative"%string; auto|].
    destruct (String.eqb_spec s "neutral") as [->|];
      [exists "neutral"%string; auto|].
    exists "neutral"%string; auto.
  - cbn [assoc String.eqb Ascii.eqb Bool.eqb].
    destruct (getProp a "imageUrls") as [[| | | |[|u us]|]|]; eauto.
  - cbn [assoc String.eqb Ascii.eqb Bool.eqb].
    destruct (getProp a "bullets") as [[| | | |bs|]|]; eauto.
  - cbn [assoc String.eqb Ascii.eqb Bool.eqb].
    eexists. split; [reflexivity|]. split.
    + rewrite length_take. lia.
    + now apply Forall_take.
  - repeat constructor;
      cbn [assoc String.eqb Ascii.eqb Bool.eqb];
      (eexists; split; [reflexivity|]); now apply orElse_truthy.
Qed.

Lemma normalizeArticles_length (env : Env) (articles : option json)
    (groundingMetadata : option GroundingMetadata) (k : nat) :
  length (fst (normalizeArticles env articles groundingMetadata k))
  = match articles with
    | Some (JArr items) => length items
    | _ => 0%nat
    end.
Proof.
  unfold normalizeArticles. cbv zeta.
  set (items := match articles with Some (JArr items) => items | _ => [] end).
  pose proof (normalizeFrom_Forall2 (fun _ _ => True) env
                (groundingUrlsOf groundingMetadata) items
                (fun _ _ _ => I) 0%nat k) as H.
  apply Forall2_length in H. rewrite <- H. unfold items.
  destruct articles as [[| | | |l|]|]; reflexivity.
Qed.

Lemma normalizeArticles_Forall (env : Env) (articles : option json)
    (groundingMetadata : option GroundingMetadata) (k : nat) :
  List.Forall normalised_article
    (fst (normalizeArticles env articles groundingMetadata k)).
Proof.
  unfold normalizeArticles. cbv zeta.
  set (items := match articles with Some (JArr items) => items | _ => [] end).
  pose proof (normalizeFrom_Forall2 (fun _ o => normalised_article o) env
                (groundingUrlsOf groundingMetadata) items
                (fun i k a => normalizeArticle_ok env _ i k a
                                (groundingUrlsOf_ok groundingMetadata)) 0%nat k)
    as H.
  clear -H. induction H; constructor; auto.
Qed.

(** X25.  Whatever the model sent, [normalizeArticles] returns well-formed
    articles: one per element when it is given an array and none otherwise;
    each is an object with exactly the fourteen article keys, a sentiment
    that is [positive], [negative] or [neutral], a non-empty array of image
    URLs, an array of bullets, at most three grounding URLs, each with a
    non-empty title and URI, and non-empty title, summary, category, source,
    source URL, reading time and forecast. *)
Theorem normalizeArticles_wellformed (env : Env) (articles : option json)
    (groundingMetadata : option GroundingMetadata) (k : nat) :
  length (fst (normalizeArticles env articles groundingMetadata k))
  = match articles with
    | Some (JArr items) => length items
    | _ => 0%nat
    end
  /\ List.Forall normalised_article
       (fst (normalizeArticles env articles groundingMetadata k)).
Proof.
  split; [apply normalizeArticles_length|apply normalizeArticles_Forall].
Qed.

Example normalize_raw_counts :
  length (fst (normalizeArticles testEnv (Some rawArticles) someGrounding 0))
  = 5%nat
  /\ snd (normalizeArticles testEnv (Some rawArticles) someGrounding 0) = 8%nat
  /\ fst (normalizeArticles testEnv (Some (JStr "no array")) None 0) = []
  /\ fst (normalizeArticles testEnv None None 0) = [].
Proof. repeat split. Qed.

Lemma orElse_keep (v d : json) : truthyJ v = true -> orElse (Some v) d = v.
Proof. intro H. unfold orElse. now rewrite H. Qed.

(** An object that already has every field in its normal form is returned
    as it is, and no random number is drawn for it. *)
Lemma normalizeArticle_fixed (env : Env) (urls : list json) (i k : nat)
    (id title summary category sentiment publishedAt source sourceUrl
       imageUrls bullets readingTime impactScore futureForecast : json) :
  List.Forall (fun v => truthyJ v = true)
    [id; title; summary; category; publishedAt; source; sourceUrl;
     readingTime; impactScore; futureForecast] ->
  isSentiment (Some sentiment) = true ->
  (exists u us, imageUrls = JArr (u :: us)) ->
  (exists bs, bullets = JArr bs) ->
  normalizeArticle env urls i k
    (JObj [("id", id); ("title", title); ("summary", summary);
           ("category", category); ("sentiment", sentiment);
           ("publishedAt", publishedAt); ("source", source);
           ("sourceUrl", sourceUrl); ("imageUrls", imageUrls);
           ("bullets", bullets); ("readingTime", readingTime);
           ("impactScore", impactScore); ("futureForecast", futureForecast);
           ("groundingUrls", JArr (take 3 urls))]%string)
  = (JObj [("id", id); ("title", title); ("summary", summary);
           ("category", category); ("sentiment", sentiment);
           ("publishedAt", publishedAt); ("source", source);
           ("sourceUrl", sourceUrl); ("imageUrls", imageUrls);
           ("bullets", bullets); ("readingTime", readingTime);
           ("impactScore", impactScore); ("futureForecast", futureForecast);
           ("groundingUrls", JArr (take 3 urls))]%string, k).
Proof.
  intros Ht Hs (u & us & ->) (bs & ->).
  repeat match goal with
         | H : List.Forall _ (_ :: _) |- _ => inversion H; subst; clear H
         | H : List.Forall _ [] |- _ => clear H
         end.
  unfold normalizeArticle. cbv zeta.
  cbn [getProp assoc String.eqb Ascii.eqb Bool.eqb].
  rewrite !orElse_keep by assumption.
  rewrite Hs.
  repeat match goal with H : truthyJ _ = true |- _ => rewrite H; clear H end.
  reflexivity.
Qed.

Lemma normalizeFrom_fixed (env : Env) (urls : list json) (l : list json) :
  List.Forall (fun o => forall i k, normalizeArticle env urls i k o = (o, k)) l ->
  forall i k, normalizeFrom env urls i k l = (l, k).
Proof.
  induction 1 as [|o l Ho _ IH]; intros i k; cbn [normalizeFrom];
    [reflexivity|].
  now rewrite Ho, IH.
Qed.

(** The score that [Math.floor(Math.random() * 40) + 60] gives. *)
Lemma generated_score (r : Q) :
  (0 <= r)%Q -> (r < 1)%Q -> 60 <= Qfloor (r * 40) + 60 <= 99.
Proof.
  intros H0 H1. destruct r as [a b].
  unfold Qle, Qlt in H0, H1. cbn [Qnum Qden] in H0, H1.
  unfold Qmult, Qfloor. cbn [Qnum Qden].
  rewrite Pos.mul_1_r.
  assert (0 <= a * 40 / Z.pos b) by (apply Z.div_pos; lia).
  assert (a * 40 / Z.pos b < 40) by (apply Z.div_lt_upper_bound; lia).
  lia.
Qed.

Lemma truthy_score (n : Z) : 60 <= n -> truthyJ (JNum (inject_Z n)) = true.
Proof.
  intro H. cbn [truthyJ]. apply negb_true_iff.
  destruct (Qeq_bool (inject_Z n) 0) eqn:E; [|reflexivity].
  apply Qeq_bool_eq in E. change 0%Q with (inject_Z 0) in E.
  unfold Qeq in E. cbn in E. lia.
Qed.

Lemma truthy_text (s : string) : s <> EmptyString -> truthyJ (JStr s) = true.
Proof. intro H. destruct s; [congruence|reflexivity]. Qed.

Lemma normalizeArticle_idempotent (env env' : Env) (urls : list json)
    (i k : nat) (a : json) :
  sound_env env ->
  forall i' k',
    normalizeArticle env' urls i' k' (fst (normalizeArticle env urls i k a))
    = (fst (normalizeArticle env urls i k a), k').
Proof.
  intros (Hr & Hid & Hiso) i' k'.
  unfold normalizeArticle at 2 3. cbv zeta. cbn [fst].
  apply normalizeArticle_fixed.
  - repeat constructor; try (apply orElse_truthy; reflexivity).
    + apply orElse_truthy, truthy_text, Hid.
    + apply orElse_truthy, truthy_text, Hiso.
    + apply orElse_truthy, truthy_score.
      apply generated_score; apply Hr.
  - unfold isSentiment at 2.
    destruct (getProp a "sentiment") as [[| | |s| |]|]; try reflexivity.
    destruct ((s =? "positive")%string || (s =? "negative")%string
              || (s =? "neutral")%string) eqn:E; [|reflexivity].
    cbn [isSentiment]. exact E.
  - destruct (getProp a "imageUrls") as [[| | | |[|u us]|]|]; eauto.
  - destruct (getProp a "bullets") as [[| | | |bs|]|]; eauto.
Qed.

(** X26.  Normalising is idempotent: with random numbers from 0 up to 1
    whose base-36 text has digits after the point and a non-empty time
    stamp, passing the articles that [normalizeArticles] returned through it
    again, with the same grounding metadata, returns them unchanged, whatever
    the environment of the second call is, and draws no random number. *)
Theorem normalizeArticles_idempotent (env env' : Env) (articles : option json)
    (groundingMetadata : option GroundingMetadata) (k k' : nat) :
  sound_env env ->
  normalizeArticles env'
    (Some (JArr (fst (normalizeArticles env articles groundingMetadata k))))
    groundingMetadata k'
  = (fst (normalizeArticles env articles groundingMetadata k), k').
Proof.
  intro Henv. unfold normalizeArticles. cbv zeta.
  apply normalizeFrom_fixed.
  set (items := match articles with Some (JArr items) => items | _ => [] end).
  pose proof (normalizeFrom_Forall2
                (fun _ o => forall i k,
                     normalizeArticle env' (groundingUrlsOf groundingMetadata)
                       i k o = (o, k))
                env (groundingUrlsOf groundingMetadata) items
                (fun i k a => normalizeArticle_idempotent env env' _ i k a Henv)
                0%nat k) as H.
  clear -H. induction H; constructor; auto.
Qed.

Lemma testEnv_sound : sound_env testEnv.
Proof.
  split; [|split]; intros j; cbn.
  - split; [discriminate|reflexivity].
  - discriminate.
  - discriminate.
Qed.

Lemma normalizeArticles_idempotent_witness :
  sound_env testEnv
  /\ normalizeArticles laterEnv
       (Some (JArr (fst (normalizeArticles testEnv (Some rawArticles)
                           someGrounding 0))))
       someGrounding 5
     = (fst (normalizeArticles testEnv (Some rawArticles) someGrounding 0),
        5%nat).
Proof.
  split; [exact testEnv_sound|].
  exact (normalizeArticles_idempotent testEnv laterEnv (Some rawArticles)
           someGrounding 0 5 testEnv_sound).
Defined.

(** X27.  With random numbers from 0 up to 1, the impact score of every
    normalised article is the score of its input when that is a number other
    than 0, and a whole number from 60 to 99 when the input's score is 0,
    [null] or missing, or the input is no object. *)
Theorem normalizeArticles_impactScore (env : Env) (items : list json)
    (groundingMetadata : option GroundingMetadata) (k : nat) :
  (forall j, (0 <= random env j)%Q /\ (random env j < 1)%Q) ->
  Forall2 scoreRule items
    (fst (normalizeArticles env (Some (JArr items)) groundingMetadata k)).
Proof.
  intro Hr. unfold normalizeArticles. cbv zeta.
  apply normalizeFrom_Forall2. intros i j a.
  unfold scoreRule, normalizeArticle. cbv zeta. cbn [fst].
  cbn [getProp assoc String.eqb Ascii.eqb Bool.eqb].
  pose proof (fun j => generated_score (random env j) (proj1 (Hr j))
                         (proj2 (Hr j))) as Hg.
  destruct a as [| | | | |fields]; cbn [getProp]; eauto.
  destruct (assoc "impactScore" fields) as [[| |q| | |]|]; cbn [orElse truthyJ];
    eauto.
  destruct (Qeq_bool q 0); cbn [negb]; eauto.
Qed.

Lemma normalizeArticles_impactScore_witness :
  (forall j, (0 <= random testEnv j)%Q /\ (random testEnv j < 1)%Q)
  /\ Forall2 scoreRule
       [JObj [("impactScore"%string, JNum 88)];
        JObj [("impactScore"%string, JNum 0)]; JNull]
       (fst (normalizeArticles testEnv
               (Some (JArr [JObj [("impactScore"%string, JNum 88)];
                            JObj [("impactScore"%string, JNum 0)]; JNull]))
               None 0)).
Proof.
  assert (H : forall j, (0 <= random testEnv j)%Q /\ (random testEnv j < 1)%Q)
    by (intro j; cbn; split; [discriminate|reflexivity]).
  split; [exact H|].
  exact (normalizeArticles_impactScore testEnv _ None 0 H).
Defined.

(** ** The news cache: [fetchNewsFromAI] *)

Lemma noHyphen_app (s t : string) :
  noHyphen (s ++ String "-" t)%string = false.
Proof.
  induction s as [|c s IH]; [reflexivity|].
  change (negb (Ascii.eqb c "-") && noHyphen (s ++ String "-" t)%string
          = false).
  rewrite IH. apply andb_false_r.
Qed.

Lemma noHyphen_decimal (n : nat) : noHyphen (decimal n) = true.
Proof.
  unfold decimal. induction (Nat.to_uint n); cbn; auto.
Qed.

Lemma decimal_inj (m n : nat) : decimal m = decimal n -> m = n.
Proof.
  unfold decimal. intro H.
  apply (f_equal NilEmpty.uint_of_string) in H.
  rewrite !NilEmpty.usu in H. injection H as H.
  apply (f_equal Nat.of_uint) in H.
  now rewrite !DecimalNat.Unsigned.of_to in H.
Qed.

Lemma hyphen_split (q1 q2 d1 d2 : string) :
  noHyphen d1 = true -> noHyphen d2 = true ->
  (q1 ++ "-" ++ d1 = q2 ++ "-" ++ d2)%string -> q1 = q2 /\ d1 = d2.
Proof.
  intros H1 H2. revert q2.
  change ("-" ++ d1)%string with (String "-" d1).
  change ("-" ++ d2)%string with (String "-" d2).
  induction q1 as [|c q1 IH]; intros [|c' q2] E.
  - injection E as E. now split.
  - injection E as _ E. subst d1.
    pose proof (noHyphen_app q2 d2) as N. congruence.
  - injection E as _ E. subst d2.
    pose proof (noHyphen_app q1 d1) as N. congruence.
  - injection E as -> E. destruct (IH q2 E) as [-> ->]. now split.
Qed.

(** Two calls share a cache key exactly when they have the same query and
    the same number of excluded ids. *)
Lemma cacheKey_inj (q q' : string) (ids ids' : list string) :
  NewsCache.cacheKey q ids = NewsCache.cacheKey q' ids' ->
  q = q' /\ length ids = length ids'.
Proof.
  unfold NewsCache.cacheKey. intro E.
  apply hyphen_split in E; try apply noHyphen_decimal.
  destruct E as [-> E]. split; [reflexivity|]. now apply decimal_inj.
Qed.

Lemma cacheKey_length (q : string) (ids ids' : list string) :
  length ids' = length ids ->
  NewsCache.cacheKey q ids' = NewsCache.cacheKey q ids.
Proof. unfold NewsCache.cacheKey. now intros ->. Qed.

Lemma fetchNewsFromAI_resume_stores (env : Env) (q : string)
    (ids : list string) (now : Z) (parsed : json)
    (g : option GroundingMetadata) (c : gmap string NewsCache.Entry)
    (k : nat) :
  parsed <> JNull ->
  (NewsCache.fetchNewsFromAI_resume env q ids now
     (NewsCache.Replied (Some parsed) g) c k).1.2
  = <[NewsCache.cacheKey q ids :=
        {| NewsCache.data :=
             (NewsCache.fetchNewsFromAI_resume env q ids now
                (NewsCache.Replied (Some parsed) g) c k).1.1;
           NewsCache.timestamp := now |}]> c.
Proof.
  intro Hp. unfold NewsCache.fetchNewsFromAI_resume.
  destruct (normalizeArticles env (getProp parsed "articles") g k)
    as [normal k'].
  destruct parsed; try reflexivity. congruence.
Qed.

(** X28.  A stored result is served exactly while it is younger than five
    minutes, to every call with the same query and the same number of
    excluded ids, whichever ids those are: after a call that began at
    [now0] and stored its result, a call at [now1] returns that result
    without a request, a change of the cache or a random number when
    [now1 - now0 < 300000], and goes on to the request otherwise. *)
Theorem cache_freshness (env env' : Env) (q : string)
    (ids ids' : list string) (now0 now1 : Z) (parsed : json)
    (g : option GroundingMetadata) (response' : NewsCache.Response)
    (c : gmap string NewsCache.Entry) (k k1 : nat) :
  parsed <> JNull ->
  length ids' = length ids ->
  let first :=
    NewsCache.fetchNewsFromAI_resume env q ids now0
      (NewsCache.Replied (Some parsed) g) c k in
  (now1 - now0 < 300000 ->
   NewsCache.fetchNewsFromAI env' q ids' now1 response' first.1.2 k1
   = (first.1.1, first.1.2, k1))
  /\ (300000 <= now1 - now0 ->
      NewsCache.fetchNewsFromAI env' q ids' now1 response' first.1.2 k1
      = NewsCache.fetchNewsFromAI_resume env' q ids' now1 response'
          first.1.2 k1).
Proof.
  intros Hp Hl first.
  pose proof (fetchNewsFromAI_resume_stores env q ids now0 parsed g c k Hp)
    as Hs.
  fold first in Hs.
  unfold NewsCache.fetchNewsFromAI, NewsCache.fetchNewsFromAI_begin.
  rewrite (cacheKey_length q ids ids' Hl).
  rewrite Hs at 1 3. rewrite !lookup_insert_eq.
  cbn [NewsCache.timestamp NewsCache.data].
  change NewsCache.CACHE_TTL with 300000.
  split; intro H.
  - apply Z.ltb_lt in H. now rewrite H.
  - apply Z.ltb_ge in H. now rewrite H.
Qed.

Lemma cache_freshness_witness :
  (newsParsed <> JNull
   /\ length ["n1"%string] = length ["n9"%string]
   /\ 200000 - 1000 < 300000)
  /\ NewsCache.fetchNewsFromAI laterEnv "ai" ["n1"] 200000
       NewsCache.Rejected firstFetch.1.2 7
     = (firstFetch.1.1, firstFetch.1.2, 7%nat).
Proof.
  assert (Hp : newsParsed <> JNull) by discriminate.
  assert (Hl : length ["n1"%string] = length ["n9"%string]) by reflexivity.
  assert (Ht : 200000 - 1000 < 300000) by lia.
  split; [auto|].
  exact (proj1 (cache_freshness testEnv laterEnv "ai" ["n9"%string]
                  ["n1"%string] 1000 200000 newsParsed someGrounding
                  NewsCache.Rejected ∅ 0 7 Hp Hl) Ht).
Defined.

(** The result served in the example above holds the article [n1], though
    the second call excludes that id. *)
Example stale_exclusion :
  map (fun a => getProp a "id")
    (NewsCache.articles
       (NewsCache.fetchNewsFromAI laterEnv "ai" ["n1"%string] 200000
          NewsCache.Rejected firstFetch.1.2 7).1.1)
  = [Some (JStr "n1"); Some (JStr "n2")].
Proof. vm_compute. reflexivity. Qed.

Lemma excluded_In (ids : list string) (a : json) (s : string) :
  NewsCache.excluded ids a = false -> getProp a "id" = Some (JStr s) ->
  ~ In s ids.
Proof.
  unfold NewsCache.excluded. intros H E Hin. rewrite E in H.
  assert (existsb (String.eqb s) ids = true) as Ex.
  { apply existsb_exists. exists s. split; [exact Hin|apply String.eqb_refl]. }
  congruence.
Qed.

(** X29.  A call that finds no fresh entry and gets an answer that parses to
    anything but [null] returns well-formed articles, none of them with an
    excluded id and no more than the answer held, and stores what it returns
    under its key with the time at which the call began. *)
Theorem fresh_result (env : Env) (q : string) (ids : list string) (now : Z)
    (parsed : json) (g : option GroundingMetadata)
    (c : gmap string NewsCache.Entry) (k : nat) :
  parsed <> JNull ->
  NewsCache.fetchNewsFromAI_begin q ids now c = None ->
  let out :=
    NewsCache.fetchNewsFromAI env q ids now
      (NewsCache.Replied (Some parsed) g) c k in
  List.Forall normalised_article (NewsCache.articles out.1.1)
  /\ List.Forall
       (fun a => forall s, getProp a "id" = Some (JStr s) -> ~ In s ids)
       (NewsCache.articles out.1.1)
  /\ (length (NewsCache.articles out.1.1)
      <= match getProp parsed "articles" with
         | Some (JArr items) => length items
         | _ => 0
         end)%nat
  /\ out.1.2 !! NewsCache.cacheKey q ids
     = Some {| NewsCache.data := out.1.1; NewsCache.timestamp := now |}.
Proof.
  intros Hp Hmiss out. unfold out, NewsCache.fetchNewsFromAI.
  rewrite Hmiss. clear out Hmiss.
  split; [|split; [|split]];
    [| | |rewrite fetchNewsFromAI_resume_stores by exact Hp;
          apply lookup_insert_eq].
  all: pose proof (normalizeArticles_Forall env (getProp parsed "articles") g k)
         as Hn;
       pose proof (normalizeArticles_length env (getProp parsed "articles") g k)
         as Hlen;
       unfold NewsCache.fetchNewsFromAI_resume;
       destruct (normalizeArticles env (getProp parsed "articles") g k)
         as [normal k'];
       cbn [fst] in Hn, Hlen;
       destruct parsed; try congruence; cbn [fst snd NewsCache.articles].
  all: try (apply List.Forall_forall; intros a Ha;
            apply List.filter_In in Ha; destruct Ha as [Ha Hex]).
  all: try (rewrite List.Forall_forall in Hn; now apply Hn).
  all: try (intros id Hid; apply negb_true_iff in Hex;
            now apply (excluded_In ids a id)).
  all: etransitivity; [apply List.filter_length_le|]; now rewrite Hlen.
Qed.

Lemma fresh_result_witness :
  (newsParsed <> JNull
   /\ NewsCache.fetchNewsFromAI_begin "ai" ["n2"%string] 1000 ∅ = None)
  /\ map (fun a => getProp a "id")
       (NewsCache.articles
          (NewsCache.fetchNewsFromAI testEnv "ai" ["n2"%string] 1000 newsReply
             ∅ 0).1.1)
     = [Some (JStr "n1")]
  /\ List.Forall
       (fun a => forall s, getProp a "id" = Some (JStr s)
                           -> ~ In s ["n2"%string])
       (NewsCache.articles
          (NewsCache.fetchNewsFromAI testEnv "ai" ["n2"%string] 1000 newsReply
             ∅ 0).1.1).
Proof.
  assert (Hp : newsParsed <> JNull) by discriminate.
  assert (Hm : NewsCache.fetchNewsFromAI_begin "ai" ["n2"%string] 1000 ∅
               = None) by reflexivity.
  split; [auto|]. split; [reflexivity|].
  exact (proj1 (proj2 (fresh_result testEnv "ai" ["n2"%string] 1000 newsParsed
                         someGrounding ∅ 0 Hp Hm))).
Defined.

(** X30.  A call changes the cache at its own key at most: the entry of
    every other query and of every other number of excluded ids stays as it
    was.  A call whose request is rejected, whose answer does not parse or
    parses to [null] changes nothing, draws no random number and, unless a
    fresh entry served it, returns no articles and no insights; so a failure
    is never cached. *)
Theorem cache_footprint (env : Env) (q : string) (ids : list string)
    (now : Z) (response : NewsCache.Response)
    (c : gmap string NewsCache.Entry) (k : nat) :
  let out := NewsCache.fetchNewsFromAI env q ids now response c k in
  (forall q' ids',
      q' <> q \/ length ids' <> length ids ->
      out.1.2 !! NewsCache.cacheKey q' ids' = c !! NewsCache.cacheKey q' ids')
  /\ (NewsCache.failed response ->
      out.1.2 = c /\ out.2 = k
      /\ (NewsCache.fetchNewsFromAI_begin q ids now c = None ->
          out.1.1 = NewsCache.nothing)).
Proof.
  intro out. unfold out, NewsCache.fetchNewsFromAI. clear out. split.
  - intros q' ids' Hne.
    destruct (NewsCache.fetchNewsFromAI_begin q ids now c); [reflexivity|].
    unfold NewsCache.fetchNewsFromAI_resume.
    destruct response as [|[parsed|] g]; try reflexivity.
    destruct (normalizeArticles env (getProp parsed "articles") g k)
      as [normal k'].
    assert (NewsCache.cacheKey q ids <> NewsCache.cacheKey q' ids') as Hk.
    { intro E. apply cacheKey_inj in E. destruct E as [-> E].
      destruct Hne as [Hne|Hne]; congruence. }
    destruct parsed; try reflexivity; cbn [fst snd];
      now rewrite lookup_insert_ne.
  - intro Hf.
    destruct (NewsCache.fetchNewsFromAI_begin q ids now c) as [d|].
    + repeat split. discriminate.
    + destruct response as [|[[| | | | |]|] g]; cbn in Hf; try contradiction;
        repeat split.
Qed.

Lemma cache_footprint_witness :
  (("ai"%string <> "ai"%string \/ length ["n1"%string] <> length (@nil string))
   /\ NewsCache.failed (NewsCache.Replied (Some JNull) None)
   /\ NewsCache.fetchNewsFromAI_begin "ai" [] 400000 firstFetch.1.2 = None)
  /\ (NewsCache.fetchNewsFromAI testEnv "ai" [] 2000 newsReply
        firstFetch.1.2 firstFetch.2).1.2
     !! NewsCache.cacheKey "ai" ["n1"%string]
     = firstFetch.1.2 !! NewsCache.cacheKey "ai" ["n1"%string]
  /\ (NewsCache.fetchNewsFromAI testEnv "ai" [] 400000
        (NewsCache.Replied (Some JNull) None) firstFetch.1.2 firstFetch.2).1.1
     = NewsCache.nothing.
Proof.
  assert (Hne : "ai"%string <> "ai"%string
                \/ length ["n1"%string] <> length (@nil string))
    by (right; discriminate).
  assert (Hf : NewsCache.failed (NewsCache.Replied (Some JNull) None))
    by exact I.
  assert (Hm : NewsCache.fetchNewsFromAI_begin "ai" [] 400000 firstFetch.1.2
               = None) by (vm_compute; reflexivity).
  split; [auto|]. split.
  - exact (proj1 (cache_footprint testEnv "ai" [] 2000 newsReply
                    firstFetch.1.2 firstFetch.2) "ai"%string ["n1"%string] Hne).
  - exact (proj2 (proj2 (proj2 (cache_footprint testEnv "ai" [] 400000
                                  (NewsCache.Replied (Some JNull) None)
                                  firstFetch.1.2 firstFetch.2) Hf)) Hm).
Defined.
